(** * PathDisplay: the nav_msgs/Path display plugin of ign-rviz

    A model of [ignition::rviz::plugins::PathDisplay]
    (src/ign_rviz_plugins/src/rviz/plugins/PathDisplay.cpp).

    The plugin is glue between a messaging node, a rendering scene and a GUI
    host.  The objects of those libraries are modelled by what the plugin
    itself writes into them: a visual is the record of the last argument of
    each of its setters, the node log is the list of the lines written to it,
    a Qt signal is an entry of the list of emitted signals.  Arithmetic on
    [double] is left abstract (class [Host]), so that every statement below
    holds whatever the floating-point operations compute. *)

From Stdlib Require Import ZArith QArith.
From stdpp Require Import base option list strings.

Local Open Scope string_scope.
Local Open Scope list_scope.

(** ** ignition::math value types *)

Record Vector3 (T : Type) := mkVector3 { vX : T; vY : T; vZ : T }.
Record Quaternion (T : Type) := mkQuaternion { qW : T; qX : T; qY : T; qZ : T }.
Record Pose3 (T : Type) := mkPose3 { Pos : Vector3 T; Rot : Quaternion T }.
Record Color (T : Type) := mkColor { cR : T; cG : T; cB : T; cA : T }.

Arguments mkVector3 {T}.
Arguments vX {T}.
Arguments vY {T}.
Arguments vZ {T}.
Arguments mkQuaternion {T}.
Arguments qW {T}.
Arguments qX {T}.
Arguments qY {T}.
Arguments qZ {T}.
Arguments mkPose3 {T}.
Arguments Pos {T}.
Arguments Rot {T}.
Arguments mkColor {T}.
Arguments cR {T}.
Arguments cG {T}.
Arguments cB {T}.
Arguments cA {T}.

(** ** What the host libraries provide

    [scalar] stands for [double]; [lit q] is the double written as the decimal
    literal [q] in the source.  [vadd] is [Vector3d::operator+], [qmul] is
    [Quaterniond::operator*], [quat_of_euler] the (roll, pitch, yaw)
    constructor of [Quaterniond].  The QoS profile and its four setters belong
    to the base class [MessageDisplay], whose code is not part of this file;
    so do [QObject] and the constant [gui::events::Render::kType]. *)

Class Host := {
  scalar : Type;
  lit : Q -> scalar;
  fmul : scalar -> scalar -> scalar;
  fneg : scalar -> scalar;
  vadd : Vector3 scalar -> Vector3 scalar -> Vector3 scalar;
  qmul : Quaternion scalar -> Quaternion scalar -> Quaternion scalar;
  quat_of_euler : scalar -> scalar -> scalar -> Quaternion scalar;
  QoS : Type;
  default_qos : QoS;
  setHistoryDepth : Z -> QoS -> QoS;
  setHistoryPolicy : Z -> QoS -> QoS;
  setReliabilityPolicy : Z -> QoS -> QoS;
  setDurabilityPolicy : Z -> QoS -> QoS;
  QObject : Type;
  Render_kType : Z
}.

(** ** Machine integers *)

Definition INT_MAX : Z := 2 ^ 31 - 1.

(** [static_cast<int>] of a [size_t]: the value modulo 2^32, read as a signed
    32-bit integer. *)
Definition to_int (z : Z) : Z := (z + 2 ^ 31) mod 2 ^ 32 - 2 ^ 31.

(** [v[i]] on a [std::vector], followed by a write through the reference:
    outside the vector the access is undefined, here [None]. *)
Definition vec_modify {A : Type} (i : nat) (f : A -> A) (v : list A)
  : option (list A) :=
  x ← v !! i; Some (<[i := f x]> v).

(** [for (i = start; ...; ++i) body], [n] iterations; [None] as soon as one
    iteration is undefined. *)
Fixpoint for_range {S : Type} (start n : nat) (body : nat -> S -> option S)
  (s : S) : option S :=
  match n with
  | O => Some s
  | Datatypes.S n' => s' ← body start s; for_range (Datatypes.S start) n' body s'
  end.

(** A record setter from the eta-expansion of the record: the occurrence of
    the field is abstracted and replaced. *)
Ltac setter eta proj :=
  let v := fresh "v" in
  let s := fresh "s" in
  intros v s;
  let body := eval cbv [eta] in (eta s) in
  let abs := eval pattern (proj s) in body in
  lazymatch abs with
  | ?f _ => let r := eval cbv beta in (f v) in exact r
  end.

Section PathDisplay.

Context `{Host}.

Definition Vector3d := Vector3 scalar.
Definition Quaterniond := Quaternion scalar.
Definition Pose3d := Pose3 scalar.

Definition Vector3d_Zero : Vector3d := mkVector3 (lit 0) (lit 0) (lit 0).
Definition Quaterniond_Identity : Quaterniond :=
  mkQuaternion (lit 1) (lit 0) (lit 0) (lit 0).
Definition Pose3d_Zero : Pose3d := mkPose3 Vector3d_Zero Quaterniond_Identity.

(** ** Messages: nav_msgs/msg/Path *)

Record Point := mkPoint { pt_x : scalar; pt_y : scalar; pt_z : scalar }.
Record Orientation :=
  mkOrientation { or_x : scalar; or_y : scalar; or_z : scalar; or_w : scalar }.
Record PoseStamped := mkPoseStamped { position : Point; orientation : Orientation }.
Record Path := mkPath { frame_id : string; poses : list PoseStamped }.

(** ** The collaborators *)

(** [FrameManager::getFramePose(frame, pose)]: [None] when it returns false. *)
Definition FrameManager := string -> option Pose3d.

(** [rclcpp::Node]: what [get_topic_names_and_types()] enumerates, in the
    order of the map. *)
Record Node := mkNode { topic_names_and_types : list (string * list string) }.

Record Subscription := mkSubscription { sub_topic : string; sub_qos : QoS }.

Inductive Signal :=
  | topicListChanged
  | setCurrentIndex (position : Z).

Record QEvent := mkQEvent { ev_type : Z }.

(** ** Scene objects *)

Record Material :=
  mkMaterial { ambient : Color scalar; diffuse : Color scalar; emissive : Color scalar }.

Inductive MarkerType := MT_NONE | MT_LINE_STRIP.

Record Marker := mkMarker {
  mk_type : MarkerType;
  mk_material : string;
  mk_points : list (Vector3d * Color scalar)
}.

(** Every visual carries the number the scene gave it when it was created:
    two handles denote the same visual iff the numbers agree. *)
Record AxisVisual := mkAxisVisual {
  ax_id : nat;
  ax_pose : Pose3d;
  ax_visible : bool;
  ax_head : bool;
  ax_children : list Vector3d   (* local scale of the three child arrows *)
}.

Record ArrowVisual := mkArrowVisual {
  ar_id : nat;
  ar_position : Vector3d;
  ar_rotation : Quaterniond;
  ar_visible : bool;
  ar_material : Material;
  ar_shaft : Vector3d;          (* Shaft()->SetLocalScale *)
  ar_origin : Vector3d;         (* SetOrigin *)
  ar_headScale : Vector3d       (* Head()->SetLocalScale *)
}.

Record RootVisual := mkRootVisual {
  rv_id : nat;
  rv_position : Vector3d;
  rv_rotation : Quaterniond;
  rv_geometries : list Marker;
  rv_children : list nat
}.

Definition AxisVisual_eta (v : AxisVisual) : AxisVisual :=
  mkAxisVisual (ax_id v) (ax_pose v) (ax_visible v) (ax_head v) (ax_children v).
Definition ArrowVisual_eta (v : ArrowVisual) : ArrowVisual :=
  mkArrowVisual (ar_id v) (ar_position v) (ar_rotation v) (ar_visible v)
    (ar_material v) (ar_shaft v) (ar_origin v) (ar_headScale v).
Definition RootVisual_eta (v : RootVisual) : RootVisual :=
  mkRootVisual (rv_id v) (rv_position v) (rv_rotation v) (rv_geometries v)
    (rv_children v).
Definition Marker_eta (m : Marker) : Marker :=
  mkMarker (mk_type m) (mk_material m) (mk_points m).

Definition Axis_SetLocalPose : Pose3d -> AxisVisual -> AxisVisual :=
  ltac:(setter AxisVisual_eta ax_pose).
Definition Axis_SetVisible : bool -> AxisVisual -> AxisVisual :=
  ltac:(setter AxisVisual_eta ax_visible).
Definition Axis_ShowAxisHead : bool -> AxisVisual -> AxisVisual :=
  ltac:(setter AxisVisual_eta ax_head).
Definition Axis_SetChildren : list Vector3d -> AxisVisual -> AxisVisual :=
  ltac:(setter AxisVisual_eta ax_children).

Definition Arrow_SetLocalPosition : Vector3d -> ArrowVisual -> ArrowVisual :=
  ltac:(setter ArrowVisual_eta ar_position).
Definition Arrow_SetLocalRotation : Quaterniond -> ArrowVisual -> ArrowVisual :=
  ltac:(setter ArrowVisual_eta ar_rotation).
Definition Arrow_SetVisible : bool -> ArrowVisual -> ArrowVisual :=
  ltac:(setter ArrowVisual_eta ar_visible).
Definition Arrow_SetMaterial : Material -> ArrowVisual -> ArrowVisual :=
  ltac:(setter ArrowVisual_eta ar_material).
Definition Arrow_SetShaftScale : Vector3d -> ArrowVisual -> ArrowVisual :=
  ltac:(setter ArrowVisual_eta ar_shaft).
Definition Arrow_SetOrigin : Vector3d -> ArrowVisual -> ArrowVisual :=
  ltac:(setter ArrowVisual_eta ar_origin).
Definition Arrow_SetHeadScale : Vector3d -> ArrowVisual -> ArrowVisual :=
  ltac:(setter ArrowVisual_eta ar_headScale).

(** [SetLocalPose] on an arrow sets position and rotation. *)
Definition Arrow_SetLocalPose (p : Pose3d) (v : ArrowVisual) : ArrowVisual :=
  Arrow_SetLocalRotation (Rot p) (Arrow_SetLocalPosition (Pos p) v).

Definition Root_SetLocalPosition : Vector3d -> RootVisual -> RootVisual :=
  ltac:(setter RootVisual_eta rv_position).
Definition Root_SetLocalRotation : Quaterniond -> RootVisual -> RootVisual :=
  ltac:(setter RootVisual_eta rv_rotation).
Definition Root_SetGeometries : list Marker -> RootVisual -> RootVisual :=
  ltac:(setter RootVisual_eta rv_geometries).
Definition Root_SetChildren : list nat -> RootVisual -> RootVisual :=
  ltac:(setter RootVisual_eta rv_children).
Definition Root_AddChild (id : nat) (v : RootVisual) : RootVisual :=
  Root_SetChildren (rv_children v ++ [id]) v.

Definition Marker_SetPoints
  : list (Vector3d * Color scalar) -> Marker -> Marker :=
  ltac:(setter Marker_eta mk_points).
Definition Marker_ClearPoints (m : Marker) : Marker := Marker_SetPoints [] m.
Definition Marker_AddPoint (p : Vector3d) (c : Color scalar) (m : Marker) : Marker :=
  Marker_SetPoints (mk_points m ++ [(p, c)]) m.

(** ** The plugin object

    The members of [PathDisplay] and of its base class that the file uses,
    followed by what the plugin has written to the outside: the number of
    visuals the scene has created, the node's error log, the signals
    emitted. *)

Record PathDisplay := mkPathDisplay {
  lock : bool;                           (* std::mutex: true when held *)
  node : option Node;
  frameManager : option FrameManager;
  topic_name : string;
  qos : QoS;
  subscriber : option Subscription;
  msg : option Path;
  dirty : bool;
  visualShape : Z;
  shaftLength : scalar;
  shaftRadius : scalar;
  headLength : scalar;
  headRadius : scalar;
  axisLength : scalar;
  axisRadius : scalar;
  axisHeadVisible : bool;
  color : Color scalar;
  createMarker : bool;
  offset : Vector3d;
  mat : Material;
  rootVisual : RootVisual;
  axes : list AxisVisual;
  arrows : list ArrowVisual;
  topicList : list string;
  title : string;
  scene_created : nat;
  rcl_log : list string;
  emitted : list Signal
}.

Definition PathDisplay_eta (s : PathDisplay) : PathDisplay :=
  mkPathDisplay (lock s) (node s) (frameManager s) (topic_name s) (qos s)
    (subscriber s) (msg s) (dirty s) (visualShape s) (shaftLength s)
    (shaftRadius s) (headLength s) (headRadius s) (axisLength s) (axisRadius s)
    (axisHeadVisible s) (color s) (createMarker s) (offset s) (mat s)
    (rootVisual s) (axes s) (arrows s) (topicList s) (title s)
    (scene_created s) (rcl_log s) (emitted s).

Definition set_lock : bool -> PathDisplay -> PathDisplay :=
  ltac:(setter PathDisplay_eta lock).
Definition set_node : option Node -> PathDisplay -> PathDisplay :=
  ltac:(setter PathDisplay_eta node).
Definition set_frameManager : option FrameManager -> PathDisplay -> PathDisplay :=
  ltac:(setter PathDisplay_eta frameManager).
Definition set_topic_name : string -> PathDisplay -> PathDisplay :=
  ltac:(setter PathDisplay_eta topic_name).
Definition set_qos : QoS -> PathDisplay -> PathDisplay :=
  ltac:(setter PathDisplay_eta qos).
Definition set_subscriber : option Subscription -> PathDisplay -> PathDisplay :=
  ltac:(setter PathDisplay_eta subscriber).
Definition set_msg : option Path -> PathDisplay -> PathDisplay :=
  ltac:(setter PathDisplay_eta msg).
Definition set_dirty : bool -> PathDisplay -> PathDisplay :=
  ltac:(setter PathDisplay_eta dirty).
Definition set_visualShape : Z -> PathDisplay -> PathDisplay :=
  ltac:(setter PathDisplay_eta visualShape).
Definition set_shaftLength : scalar -> PathDisplay -> PathDisplay :=
  ltac:(setter PathDisplay_eta shaftLength).
Definition set_shaftRadius : scalar -> PathDisplay -> PathDisplay :=
  ltac:(setter PathDisplay_eta shaftRadius).
Definition set_headLength : scalar -> PathDisplay -> PathDisplay :=
  ltac:(setter PathDisplay_eta headLength).
Definition set_headRadius : scalar -> PathDisplay -> PathDisplay :=
  ltac:(setter PathDisplay_eta headRadius).
Definition set_axisLength : scalar -> PathDisplay -> PathDisplay :=
  ltac:(setter PathDisplay_eta axisLength).
Definition set_axisRadius : scalar -> PathDisplay -> PathDisplay :=
  ltac:(setter PathDisplay_eta axisRadius).
Definition set_axisHeadVisible : bool -> PathDisplay -> PathDisplay :=
  ltac:(setter PathDisplay_eta axisHeadVisible).
Definition set_color : Color scalar -> PathDisplay -> PathDisplay :=
  ltac:(setter PathDisplay_eta color).
Definition set_createMarker : bool -> PathDisplay -> PathDisplay :=
  ltac:(setter PathDisplay_eta createMarker).
Definition set_offset : Vector3d -> PathDisplay -> PathDisplay :=
  ltac:(setter PathDisplay_eta offset).
Definition set_mat : Material -> PathDisplay -> PathDisplay :=
  ltac:(setter PathDisplay_eta mat).
Definition set_rootVisual : RootVisual -> PathDisplay -> PathDisplay :=
  ltac:(setter PathDisplay_eta rootVisual).
Definition set_axes : list AxisVisual -> PathDisplay -> PathDisplay :=
  ltac:(setter PathDisplay_eta axes).
Definition set_arrows : list ArrowVisual -> PathDisplay -> PathDisplay :=
  ltac:(setter PathDisplay_eta arrows).
Definition set_topicList : list string -> PathDisplay -> PathDisplay :=
  ltac:(setter PathDisplay_eta topicList).
Definition set_title : string -> PathDisplay -> PathDisplay :=
  ltac:(setter PathDisplay_eta title).
Definition set_scene_created : nat -> PathDisplay -> PathDisplay :=
  ltac:(setter PathDisplay_eta scene_created).
Definition set_rcl_log : list string -> PathDisplay -> PathDisplay :=
  ltac:(setter PathDisplay_eta rcl_log).
Definition set_emitted : list Signal -> PathDisplay -> PathDisplay :=
  ltac:(setter PathDisplay_eta emitted).

(** ** Control flow, the mutex, programs

    A member function is a sequence of instructions on the object.  An action
    either goes on to the next instruction ([Next]), leaves the function by
    [return] ([Ret]), or has undefined behaviour ([UB]: a null pointer
    dereferenced, a vector indexed outside its bounds, a signed overflow). *)

Inductive Flow :=
  | Next (s : PathDisplay)
  | Ret (s : PathDisplay)
  | UB.

Inductive Instr :=
  | ILock                                   (* std::mutex::lock *)
  | IUnlock                                 (* std::mutex::unlock *)
  | IAct (f : PathDisplay -> Flow).

Definition Prog := list Instr.

Definition act (f : PathDisplay -> PathDisplay) : Instr :=
  IAct (fun s => Next (f s)).

Definition act_opt (f : PathDisplay -> option PathDisplay) : Instr :=
  IAct (fun s => match f s with Some s' => Next s' | None => UB end).

(** [std::lock_guard<std::mutex>(this->lock);] as the source writes it in
    every member function.  The guard has no name: the statement is an
    expression statement that builds a temporary guard, and the temporary is
    destroyed at the end of that statement.  The mutex is locked and unlocked
    again before the next statement of the function runs. *)
Definition lock_guard : Prog := [ILock; IUnlock].

(** One thread running a program to its end.  [ILock] on a mutex that is held
    can only be the thread's own earlier [ILock]: a self-deadlock. *)
Inductive Outcome :=
  | Done (s : PathDisplay)
  | Undefined
  | Deadlock.

Fixpoint run (p : Prog) (s : PathDisplay) : Outcome :=
  match p with
  | [] => Done s
  | ILock :: p' => if lock s then Deadlock else run p' (set_lock true s)
  | IUnlock :: p' => run p' (set_lock false s)
  | IAct f :: p' =>
      match f s with
      | Next s' => run p' s'
      | Ret s' => Done s'
      | UB => Undefined
      end
  end.

(** ** PathDisplay::PathDisplay() *)

Definition PathDisplay_new : PathDisplay := {|
  lock := false;
  node := None;
  frameManager := None;
  topic_name := "";
  qos := default_qos;
  subscriber := None;
  msg := None;
  dirty := false;
  visualShape := 0;
  shaftLength := lit (23 # 100);
  shaftRadius := lit (1 # 100);
  headLength := lit (7 # 100);
  headRadius := lit (3 # 100);
  axisLength := lit (3 # 10);
  axisRadius := lit (3 # 100);
  axisHeadVisible := false;
  color := mkColor (lit (98 # 1000)) (lit 1) (lit (2 # 10)) (lit 1);
  createMarker := true;
  offset := Vector3d_Zero;
  mat := let c := mkColor (lit 1) (lit (98 # 1000)) (lit 0) (lit 1) in
         mkMaterial c c c;
  rootVisual := mkRootVisual 0 Vector3d_Zero Quaterniond_Identity [] [];
  axes := [];
  arrows := [];
  topicList := [];
  title := "";
  scene_created := 1;
  rcl_log := [];
  emitted := []
|}.

(** ** initialize, subscribe, unsubscribe, callback *)

Definition initialize (_node : Node) : Prog :=
  lock_guard ++ [act (set_node (Some _node))].

Definition create_subscription (s : PathDisplay) : option PathDisplay :=
  _ ← node s;
  Some (set_subscriber (Some (mkSubscription (topic_name s) (qos s))) s).

Definition subscribe : Prog :=
  lock_guard ++ [act_opt create_subscription].

(** Modelled from the spec: [MessageDisplay::unsubscribe] belongs to the base
    class, whose code is not part of this file.  It is one of the lock-taking
    operations and drops the subscription. *)
Definition unsubscribe : Prog :=
  lock_guard ++ [act (set_subscriber None)].

Definition callback (_msg : Path) : Prog :=
  lock_guard ++ [act (set_msg (Some _msg))].

(** ** reset *)

Definition reset_visual (i : nat) (s : PathDisplay) : option PathDisplay :=
  arrows' ← vec_modify i (Arrow_SetLocalPose Pose3d_Zero) (arrows s);
  axes' ← vec_modify i (Axis_SetLocalPose Pose3d_Zero) (axes s);
  Some (set_axes axes' (set_arrows arrows' s)).

Definition reset_body (s : PathDisplay) : option PathDisplay :=
  s' ← for_range 0 (Z.to_nat (to_int (Z.of_nat (length (axes s))))) reset_visual s;
  Some (set_msg None s').

Definition reset : Prog := [act_opt reset_body].

(** ** updateVisual *)

Definition updateVisual_arrow (s : PathDisplay) (a : ArrowVisual) : ArrowVisual :=
  Arrow_SetHeadScale
    (mkVector3 (fmul (headRadius s) (lit 2)) (fmul (headRadius s) (lit 2))
       (fmul (headLength s) (lit 2)))
    (Arrow_SetOrigin (mkVector3 (lit 0) (lit 0) (fneg (shaftLength s)))
       (Arrow_SetShaftScale
          (mkVector3 (fmul (shaftRadius s) (lit 2)) (fmul (shaftRadius s) (lit 2))
             (shaftLength s))
          a)).

Definition updateVisual_child (s : PathDisplay) (i : nat) (cs : list Vector3d)
  : option (list Vector3d) :=
  vec_modify i
    (fun _ => mkVector3 (fmul (axisRadius s) (lit 20)) (fmul (axisRadius s) (lit 20))
                (fmul (axisLength s) (lit 2)))
    cs.

Definition updateVisual (_index : nat) (s : PathDisplay) : option PathDisplay :=
  arrows' ← vec_modify _index (updateVisual_arrow s) (arrows s);
  ax ← axes s !! _index;
  cs ← for_range 0 3 (updateVisual_child s) (ax_children ax);
  Some (set_axes (<[_index := Axis_SetChildren cs ax]> (axes s))
          (set_arrows arrows' s)).

(** ** update

    The body of [update] after its lock statement, cut at the places where it
    reads [this->msg] anew: the null test, the marker, the frame lookup, the
    loop that hides, the loop over the poses, the [dirty] pass. *)

Definition update_nomsg (s : PathDisplay) : Flow :=
  match msg s with
  | None => Ret s
  | Some _ => Next s
  end.

(** [CreateMarker], [SetType], [SetMaterial]: a line strip without points. *)
Definition new_marker : Marker := mkMarker MT_LINE_STRIP "Default/TransGreen" [].

Definition update_marker (s : PathDisplay) : PathDisplay :=
  if createMarker s then
    set_createMarker false
      (set_rootVisual (Root_SetGeometries [new_marker] (rootVisual s)) s)
  else s.

(** [marker->...] on [rootVisual->GeometryByIndex(0)]: undefined without a
    geometry. *)
Definition with_marker (f : Marker -> Marker) (s : PathDisplay)
  : option PathDisplay :=
  match rv_geometries (rootVisual s) with
  | [] => None
  | m :: rest =>
      Some (set_rootVisual (Root_SetGeometries (f m :: rest) (rootVisual s)) s)
  end.

Definition log_error (line : string) (s : PathDisplay) : option PathDisplay :=
  _ ← node s; Some (set_rcl_log (rcl_log s ++ [line]) s).

Definition update_frame (s : PathDisplay) : Flow :=
  match msg s, frameManager s with
  | Some m, Some getFramePose =>
      match getFramePose (frame_id m) with
      | None =>
          match log_error (String.append "Unable to get frame pose: " (frame_id m)) s with
          | Some s' => Ret s'
          | None => UB
          end
      | Some visualPose =>
          let root :=
            Root_SetLocalRotation (Rot visualPose)
              (Root_SetLocalPosition (vadd (Pos visualPose) (offset s))
                 (rootVisual s)) in
          match with_marker Marker_ClearPoints (set_rootVisual root s) with
          | Some s' => Next s'
          | None => UB
          end
      end
  | _, _ => UB
  end.

Definition hide_visual (i : nat) (s : PathDisplay) : option PathDisplay :=
  axes' ← vec_modify i (Axis_SetVisible false) (axes s);
  arrows' ← vec_modify i (Arrow_SetVisible false) (arrows s);
  Some (set_arrows arrows' (set_axes axes' s)).

(** [for (auto i = msg->poses.size(); i < axes.size(); ++i)], on [size_t]. *)
Definition update_hide (s : PathDisplay) : option PathDisplay :=
  m ← msg s;
  for_range (length (poses m)) (length (axes s) - length (poses m)) hide_visual s.

(** What [CreateAxisVisual] and [CreateArrowVisual] return before the plugin
    touches them; [update] overwrites every field but the number. *)
Definition new_axis (id : nat) : AxisVisual :=
  mkAxisVisual id Pose3d_Zero true true
    (replicate 3 (mkVector3 (lit 1) (lit 1) (lit 1))).

Definition blank_material : Material :=
  let c := mkColor (lit 1) (lit 1) (lit 1) (lit 1) in mkMaterial c c c.

Definition new_arrow (id : nat) : ArrowVisual :=
  mkArrowVisual id Vector3d_Zero Quaterniond_Identity true blank_material
    (mkVector3 (lit 1) (lit 1) (lit 1)) Vector3d_Zero
    (mkVector3 (lit 1) (lit 1) (lit 1)).

Definition create_visuals (i : nat) (s : PathDisplay) : option PathDisplay :=
  let axis := Axis_SetVisible false (new_axis (scene_created s)) in
  let arrow :=
    Arrow_SetVisible false
      (Arrow_SetMaterial (mat s)
         (new_arrow (Datatypes.S (scene_created s)))) in
  updateVisual i
    (set_arrows (arrows s ++ [arrow])
       (set_axes (axes s ++ [axis])
          (set_rootVisual
             (Root_AddChild (ar_id arrow) (Root_AddChild (ax_id axis) (rootVisual s)))
             (set_scene_created (2 + scene_created s) s)))).

Definition localPose (p : PoseStamped) : Pose3d :=
  mkPose3
    (mkVector3 (pt_x (position p)) (pt_y (position p)) (pt_z (position p)))
    (mkQuaternion (or_w (orientation p)) (or_x (orientation p))
       (or_y (orientation p)) (or_z (orientation p))).

Definition arrow_turn : Quaterniond :=
  quat_of_euler (lit 0) (lit (157 # 100)) (lit 0).

Definition update_pose (i : nat) (s : PathDisplay) : option PathDisplay :=
  s1 ← (if (to_int (Z.of_nat (length (axes s))) =? Z.of_nat i)%Z
        then create_visuals i s else Some s);
  m ← msg s1;
  p ← poses m !! i;
  s2 ← with_marker (Marker_AddPoint (Pos (localPose p)) (color s1)) s1;
  axes' ← vec_modify i
    (fun a =>
       Axis_ShowAxisHead (bool_decide (visualShape s2 = 2%Z) && axisHeadVisible s2)
         (Axis_SetVisible (bool_decide (visualShape s2 = 2%Z))
            (Axis_SetLocalPose (localPose p) a)))
    (axes s2);
  arrows' ← vec_modify i
    (fun a =>
       Arrow_SetVisible (bool_decide (visualShape s2 = 1%Z))
         (Arrow_SetLocalRotation (qmul (Rot (localPose p)) arrow_turn)
            (Arrow_SetLocalPosition (Pos (localPose p)) a)))
    (arrows s2);
  Some (set_arrows arrows' (set_axes axes' s2)).

(** [for (int i = 0; i < static_cast<int>(msg->poses.size()); ++i)] *)
Definition update_poses (s : PathDisplay) : option PathDisplay :=
  m ← msg s;
  for_range 0 (Z.to_nat (to_int (Z.of_nat (length (poses m))))) update_pose s.

Definition update_dirty (s : PathDisplay) : option PathDisplay :=
  if dirty s then
    s' ← for_range 0 (Z.to_nat (to_int (Z.of_nat (length (axes s))))) updateVisual s;
    Some (set_dirty false s')
  else Some s.

Definition update : Prog :=
  lock_guard ++
  [IAct update_nomsg; act update_marker; IAct update_frame;
   act_opt update_hide; act_opt update_poses; act_opt update_dirty].

(** ** eventFilter

    The program the call runs, and the value it returns: that of
    [QObject::eventFilter], given here as [base]. *)

Definition eventFilter (base : QObject -> QEvent -> bool)
  (_object : QObject) (_event : QEvent) : Prog * bool :=
  (if (ev_type _event =? Render_kType)%Z then update else [],
   base _object _event).

(** ** The setters *)

Definition setShape (_shape : Z) : Prog :=
  lock_guard ++ [act (set_visualShape _shape); act (set_dirty true)].

Definition setAxisHeadVisibility (_visible : bool) : Prog :=
  lock_guard ++ [act (set_axisHeadVisible _visible); act (set_dirty true)].

Definition setAxisDimensions (_length _radius : scalar) : Prog :=
  lock_guard ++
  [act (set_axisLength _length); act (set_axisRadius _radius); act (set_dirty true)].

Definition setArrowDimensions
  (_shaftLength _shaftRadius _headLength _headRadius : scalar) : Prog :=
  lock_guard ++
  [act (set_shaftLength _shaftLength); act (set_shaftRadius _shaftRadius);
   act (set_headLength _headLength); act (set_headRadius _headRadius);
   act (set_dirty true)].

Definition setColor_body (_color : Color scalar) (s : PathDisplay) : PathDisplay :=
  let m := mkMaterial _color _color _color in
  set_arrows (Arrow_SetMaterial m <$> arrows s) (set_mat m s).

Definition setColor (_color : Color scalar) : Prog :=
  lock_guard ++ [act (setColor_body _color)].

Definition setLineColor (_color : Color scalar) : Prog :=
  lock_guard ++ [act (set_color _color); act (set_createMarker true)].

Definition setOffset (_x _y _z : scalar) : Prog :=
  lock_guard ++ [act (set_offset (mkVector3 _x _y _z))].

Definition setFrameManager (_frameManager : FrameManager) : Prog :=
  lock_guard ++ [act (set_frameManager (Some _frameManager))].

Definition getTopicList (s : PathDisplay) : list string := topicList s.

(** ** onRefresh *)

(** The three variables of the loops: the list, [index], [position]. *)
Definition RefreshAcc : Type := list string * Z * Z.

(** One round of the inner loop; [index++] past [INT_MAX] is undefined. *)
Definition refresh_type (topic cur : string) (acc : RefreshAcc)
  (topicType : string) : option RefreshAcc :=
  let '(lst, index, position) := acc in
  if String.eqb topicType "nav_msgs/msg/Path" then
    let position' := if String.eqb topic cur then index else position in
    if (index <? INT_MAX)%Z then Some (lst ++ [topic], (index + 1)%Z, position') else None
  else Some acc.

Fixpoint refresh_types (topic cur : string) (types : list string)
  (acc : RefreshAcc) : option RefreshAcc :=
  match types with
  | [] => Some acc
  | t :: types' =>
      acc' ← refresh_type topic cur acc t; refresh_types topic cur types' acc'
  end.

Fixpoint refresh_topics (cur : string) (topics : list (string * list string))
  (acc : RefreshAcc) : option RefreshAcc :=
  match topics with
  | [] => Some acc
  | topic :: topics' =>
      acc' ← refresh_types topic.1 cur topic.2 acc;
      refresh_topics cur topics' acc'
  end.

Definition emit (sig : Signal) (s : PathDisplay) : PathDisplay :=
  set_emitted (emitted s ++ [sig]) s.

Definition onRefresh_body (s : PathDisplay) : option PathDisplay :=
  n ← node s;
  '(lst, _, position) ←
    refresh_topics (topic_name s) (topic_names_and_types n) ([], 0%Z, 0%Z);
  Some (emit (setCurrentIndex position)
          (emit topicListChanged (set_topicList lst s))).

Definition onRefresh : Prog := lock_guard ++ [act_opt onRefresh_body].

(** ** setTopic (both overloads), updateQoS, LoadConfig *)

Definition setTopic (_topic_name : string) : Prog :=
  lock_guard ++ [act (set_topic_name _topic_name)] ++ subscribe ++ onRefresh.

(** The overload taking a [QString]; [toStdString] is the identity here. *)
Definition setTopicQ (_topic_name : string) : Prog :=
  lock_guard ++ [act (set_topic_name _topic_name)] ++
  unsubscribe ++ reset ++ subscribe.

Definition updateQoS (_depth _history _reliability _durability : Z) : Prog :=
  lock_guard ++
  [act (fun s => set_qos (setHistoryDepth _depth (qos s)) s);
   act (fun s => set_qos (setHistoryPolicy _history (qos s)) s);
   act (fun s => set_qos (setReliabilityPolicy _reliability (qos s)) s);
   act (fun s => set_qos (setDurabilityPolicy _durability (qos s)) s)] ++
  unsubscribe ++ reset ++ subscribe.

Definition LoadConfig : Prog :=
  [act (fun s => if String.eqb (title s) "" then set_title "Path" s else s)].

(** ** The public operations, as the host can call them *)

Inductive Op :=
  | OpInitialize (_node : Node)
  | OpSubscribe
  | OpUnsubscribe
  | OpSetTopic (_topic_name : string)
  | OpSetTopicQ (_topic_name : string)
  | OpCallback (_msg : Path)
  | OpEventFilter (base : QObject -> QEvent -> bool) (_object : QObject) (_event : QEvent)
  | OpReset
  | OpUpdate
  | OpSetShape (_shape : Z)
  | OpSetAxisHeadVisibility (_visible : bool)
  | OpSetAxisDimensions (_length _radius : scalar)
  | OpSetArrowDimensions (_shaftLength _shaftRadius _headLength _headRadius : scalar)
  | OpSetColor (_color : Color scalar)
  | OpSetLineColor (_color : Color scalar)
  | OpSetOffset (_x _y _z : scalar)
  | OpSetFrameManager (_frameManager : FrameManager)
  | OpOnRefresh
  | OpUpdateQoS (_depth _history _reliability _durability : Z)
  | OpLoadConfig.

Definition prog_of (o : Op) : Prog :=
  match o with
  | OpInitialize n => initialize n
  | OpSubscribe => subscribe
  | OpUnsubscribe => unsubscribe
  | OpSetTopic t => setTopic t
  | OpSetTopicQ t => setTopicQ t
  | OpCallback m => callback m
  | OpEventFilter base o e => (eventFilter base o e).1
  | OpReset => reset
  | OpUpdate => update
  | OpSetShape v => setShape v
  | OpSetAxisHeadVisibility v => setAxisHeadVisibility v
  | OpSetAxisDimensions l r => setAxisDimensions l r
  | OpSetArrowDimensions sl sr hl hr => setArrowDimensions sl sr hl hr
  | OpSetColor c => setColor c
  | OpSetLineColor c => setLineColor c
  | OpSetOffset x y z => setOffset x y z
  | OpSetFrameManager f => setFrameManager f
  | OpOnRefresh => onRefresh
  | OpUpdateQoS d h r u => updateQoS d h r u
  | OpLoadConfig => LoadConfig
  end.

(** ** Several threads

    Each thread runs one program; a schedule names the thread that takes the
    next instruction.  A thread whose next instruction is [ILock] cannot move
    while the mutex is held. *)

Definition Pool := list Prog.

Definition step (tid : nat) (pool : Pool) (s : PathDisplay)
  : option (Pool * PathDisplay) :=
  p ← pool !! tid;
  match p with
  | [] => None
  | ILock :: p' =>
      if lock s then None else Some (<[tid := p']> pool, set_lock true s)
  | IUnlock :: p' => Some (<[tid := p']> pool, set_lock false s)
  | IAct f :: p' =>
      match f s with
      | Next s' => Some (<[tid := p']> pool, s')
      | Ret s' => Some (<[tid := []]> pool, s')
      | UB => None
      end
  end.

Fixpoint run_schedule (sched : list nat) (pool : Pool) (s : PathDisplay)
  : option (Pool * PathDisplay) :=
  match sched with
  | [] => Some (pool, s)
  | tid :: sched' =>
      '(pool', s') ← step tid pool s; run_schedule sched' pool' s'
  end.

(** ** State predicates used by the statements *)

(** arrows.size() == axes.size() *)
Definition sizes_in_sync (s : PathDisplay) : Prop :=
  length (arrows s) = length (axes s).

(** The conditions under which [update] dereferences nothing null and indexes
    nothing outside its bounds: a frame manager is set, the marker exists or
    is about to be created, the handle vectors are in sync, every axis has
    its three child arrows, and the sizes fit an [int]. *)
Definition update_ready (s : PathDisplay) : Prop :=
  is_Some (frameManager s) /\
  (createMarker s = true \/ rv_geometries (rootVisual s) <> []) /\
  sizes_in_sync s /\
  Forall (fun a => length (ax_children a) = 3%nat) (axes s) /\
  (Z.of_nat (length (axes s)) <= INT_MAX)%Z.

(** An instruction that leaves the mutex alone. *)
Definition keeps_lock (f : PathDisplay -> Flow) : Prop :=
  forall s, match f s with
            | Next s' | Ret s' => lock s' = lock s
            | UB => True
            end.

(** Programs in which the mutex is only ever taken by a lock statement. *)
Inductive guarded : Prog -> Prop :=
  | guarded_nil : guarded []
  | guarded_lock p : guarded p -> guarded (ILock :: IUnlock :: p)
  | guarded_act f p : keeps_lock f -> guarded p -> guarded (IAct f :: p).

(** What the operations themselves maintain of [update_ready]. *)
Definition well_formed (s : PathDisplay) : Prop :=
  sizes_in_sync s /\
  Forall (fun a => length (ax_children a) = 3) (axes s) /\
  (createMarker s = true \/ rv_geometries (rootVisual s) <> []).

(** [update_ready] as a test. *)
Definition update_readyb (s : PathDisplay) : bool :=
  match frameManager s with Some _ => true | None => false end &&
  (createMarker s ||
   match rv_geometries (rootVisual s) with [] => false | _ :: _ => true end) &&
  (length (arrows s) =? length (axes s))%nat &&
  forallb (fun a => (length (ax_children a) =? 3)%nat) (axes s) &&
  (Z.of_nat (length (axes s)) <=? INT_MAX)%Z.

(** What [update] decides about a visual, and what identifies it: all of a
    visual but the scales that [updateVisual] sets. *)
Definition axis_core (a : AxisVisual) : nat * Pose3d * bool * bool :=
  (ax_id a, ax_pose a, ax_visible a, ax_head a).

Definition arrow_core (a : ArrowVisual)
  : nat * Vector3d * Quaterniond * bool * Material :=
  (ar_id a, ar_position a, ar_rotation a, ar_visible a, ar_material a).

(** The members that the loops of [update] read and never write. *)
Definition inputs (s : PathDisplay)
  : bool * option Path * Z * bool * option FrameManager * Vector3d :=
  (lock s, msg s, visualShape s, axisHeadVisible s, frameManager s, offset s).

(** The axis and the arrow that [update] leaves at the index of pose [p]. *)
Definition shown_axis (s : PathDisplay) (p : PoseStamped) (a : AxisVisual) : Prop :=
  ax_pose a = localPose p /\
  ax_visible a = bool_decide (visualShape s = 2%Z) /\
  ax_head a = bool_decide (visualShape s = 2%Z) && axisHeadVisible s.

Definition shown_arrow (s : PathDisplay) (p : PoseStamped) (a : ArrowVisual) : Prop :=
  ar_position a = Pos (localPose p) /\
  ar_rotation a = qmul (Rot (localPose p)) arrow_turn /\
  ar_visible a = bool_decide (visualShape s = 1%Z).

(** Invariant of the loop over the poses, before iteration [k]; [s0] is the
    state in which the loop starts, [m] the buffered message. *)
Record pose_inv (s0 : PathDisplay) (m : Path) (k : nat) (t : PathDisplay)
  : Prop := mk_pose_inv {
  pi_inputs : inputs t = inputs s0;
  pi_dirty : dirty t = dirty s0;
  pi_axes_len : length (axes t) = length (axes s0) `max` k;
  pi_arrows_len : length (arrows t) = length (axes s0) `max` k;
  pi_children : Forall (fun a => length (ax_children a) = 3) (axes t);
  pi_marker : rv_geometries (rootVisual t) <> [];
  pi_pose : rv_position (rootVisual t) = rv_position (rootVisual s0) /\
            rv_rotation (rootVisual t) = rv_rotation (rootVisual s0);
  pi_created :
    scene_created t =
    scene_created s0 + 2 * (length (axes s0) `max` k - length (axes s0));
  pi_axes_done : forall i p, i < k -> poses m !! i = Some p ->
    exists a, axes t !! i = Some a /\ shown_axis s0 p a;
  pi_arrows_done : forall i p, i < k -> poses m !! i = Some p ->
    exists a, arrows t !! i = Some a /\ shown_arrow s0 p a;
  pi_axes_rest : forall i, k <= i ->
    axis_core <$> axes t !! i = axis_core <$> axes s0 !! i;
  pi_arrows_rest : forall i, k <= i ->
    arrow_core <$> arrows t !! i = arrow_core <$> arrows s0 !! i;
  pi_axes_ids : forall i, i < length (axes s0) ->
    ax_id <$> axes t !! i = ax_id <$> axes s0 !! i;
  pi_arrows_ids : forall i, i < length (axes s0) ->
    ar_id <$> arrows t !! i = ar_id <$> arrows s0 !! i
}.

(** What a pass of [updateVisual] leaves as it was. *)
Record same_but_scales (s t : PathDisplay) : Prop := mk_same_but_scales {
  sb_inputs : inputs t = inputs s;
  sb_root : rootVisual t = rootVisual s;
  sb_created : scene_created t = scene_created s;
  sb_axes_len : length (axes t) = length (axes s);
  sb_arrows_len : length (arrows t) = length (arrows s);
  sb_children : Forall (fun a => length (ax_children a) = 3) (axes s) ->
                Forall (fun a => length (ax_children a) = 3) (axes t);
  sb_axes : forall i, axis_core <$> axes t !! i = axis_core <$> axes s !! i;
  sb_arrows : forall i, arrow_core <$> arrows t !! i = arrow_core <$> arrows s !! i
}.

(** What a call of [update] that gets the frame pose [visualPose] for the
    message [m] makes of the state [s]. *)
Record update_post (s : PathDisplay) (m : Path) (visualPose : Pose3d)
  (s' : PathDisplay) : Prop := mk_update_post {
  up_inputs : inputs s' = inputs s;
  up_dirty : dirty s' = false;
  up_position : rv_position (rootVisual s') = vadd (Pos visualPose) (offset s);
  up_rotation : rv_rotation (rootVisual s') = Rot visualPose;
  up_axes_len : length (axes s') = length (axes s) `max` length (poses m);
  up_arrows_len : length (arrows s') = length (axes s) `max` length (poses m);
  up_created :
    scene_created s' =
    scene_created s +
    2 * (length (axes s) `max` length (poses m) - length (axes s));
  up_axes_shown : forall i p, poses m !! i = Some p ->
    exists a, axes s' !! i = Some a /\ shown_axis s p a;
  up_arrows_shown : forall i p, poses m !! i = Some p ->
    exists a, arrows s' !! i = Some a /\ shown_arrow s p a;
  up_axes_hidden : forall i, length (poses m) <= i ->
    axis_core <$> axes s' !! i =
    axis_core <$> (Axis_SetVisible false <$> axes s !! i);
  up_arrows_hidden : forall i, length (poses m) <= i ->
    arrow_core <$> arrows s' !! i =
    arrow_core <$> (Arrow_SetVisible false <$> arrows s !! i);
  up_axes_ids : forall i, i < length (axes s) ->
    ax_id <$> axes s' !! i = ax_id <$> axes s !! i;
  up_arrows_ids : forall i, i < length (axes s) ->
    ar_id <$> arrows s' !! i = ar_id <$> arrows s !! i;
  up_ready : update_ready s'
}.

(** Invariant of the loops of [onRefresh]: [index] counts the entries, and
    [position] is where the configured topic [cur] was entered last, or 0. *)
Definition refresh_inv (cur : string) (acc : RefreshAcc) : Prop :=
  let '(lst, index, position) := acc in
  index = Z.of_nat (length lst) /\
  (0 <= position)%Z /\
  (cur ∈ lst ->
     lst !! Z.to_nat position = Some cur /\
     forall j, Z.to_nat position < j -> lst !! j <> Some cur) /\
  (cur ∉ lst -> position = 0%Z).

(** The entries that one topic contributes. *)
Definition path_entries (topic : string * list string) : list string :=
  topicType ← topic.2;
  if decide (topicType = "nav_msgs/msg/Path") then [topic.1] else [].

(** The topic list as the specification words it: one entry per pair of a
    topic and one of its types equal to "nav_msgs/msg/Path", in the order of
    enumeration. *)
Definition path_topics (topics : list (string * list string)) : list string :=
  topic ← topics;
  topicType ← topic.2;
  if decide (topicType = "nav_msgs/msg/Path") then [topic.1] else [].

(** Programs run one after the other, each to its end. *)
Fixpoint run_all (ps : list Prog) (s : PathDisplay) : Outcome :=
  match ps with
  | [] => Done s
  | p :: ps' =>
      match run p s with
      | Done s' => run_all ps' s'
      | o => o
      end
  end.

(** The object a run ends with, if it ends. *)
Definition result (o : Outcome) : option PathDisplay :=
  match o with
  | Done s => Some s
  | _ => None
  end.

(** The points of the line marker, as the scene shows them. *)
Definition marker_points (s : PathDisplay) : list (Vector3d * Color scalar) :=
  match rv_geometries (rootVisual s) with
  | m :: _ => mk_points m
  | [] => []
  end.

(** What every defined step of [update] and [reset] keeps: the members read
    by the loops, and the difference in length of the two handle vectors. *)
Definition stable (s t : PathDisplay) : Prop :=
  inputs t = inputs s /\
  length (axes t) + length (arrows s) = length (axes s) + length (arrows t).

(** An instruction that preserves a property of the object. *)
Definition instr_preserves (P : PathDisplay -> Prop) (i : Instr) : Prop :=
  match i with
  | ILock => forall s, P s -> P (set_lock true s)
  | IUnlock => forall s, P s -> P (set_lock false s)
  | IAct f =>
      forall s, P s ->
        match f s with
        | Next s' | Ret s' => P s'
        | UB => True
        end
  end.

(** The scene as an onlooker observes it: the pose of the root visual, the
    points of the marker, pose and visibility of every axis and arrow. *)
Definition scene_state (s : PathDisplay) :=
  (rv_position (rootVisual s), rv_rotation (rootVisual s), marker_points s,
   (fun a => (ax_pose a, ax_visible a)) <$> axes s,
   (fun a => (ar_position a, ar_rotation a, ar_visible a)) <$> arrows s).

(** ** Further predicates *)

(** The members that no loop of [update] and no step of [reset] writes:
    colours, dimensions, node, topic and subscription, the GUI side. *)
Definition settings (s : PathDisplay) :=
  (color s, mat s,
   (shaftLength s, shaftRadius s, headLength s, headRadius s,
    axisLength s, axisRadius s),
   (node s, topic_name s, qos s, subscriber s),
   (topicList s, title s, emitted s)).

(** What a step of a loop of [update] leaves alone. *)
Definition quiet (s t : PathDisplay) : Prop :=
  settings t = settings s /\ inputs t = inputs s /\ dirty t = dirty s /\
  createMarker t = createMarker s.

(** The scales that [updateVisual] gives to a visual. *)
Definition shaft_scale (s : PathDisplay) : Vector3d :=
  mkVector3 (fmul (shaftRadius s) (lit 2)) (fmul (shaftRadius s) (lit 2))
    (shaftLength s).

Definition arrow_origin (s : PathDisplay) : Vector3d :=
  mkVector3 (lit 0) (lit 0) (fneg (shaftLength s)).

Definition head_scale (s : PathDisplay) : Vector3d :=
  mkVector3 (fmul (headRadius s) (lit 2)) (fmul (headRadius s) (lit 2))
    (fmul (headLength s) (lit 2)).

Definition axis_child_scale (s : PathDisplay) : Vector3d :=
  mkVector3 (fmul (axisRadius s) (lit 20)) (fmul (axisRadius s) (lit 20))
    (fmul (axisLength s) (lit 2)).

Definition arrow_scaled (s : PathDisplay) (a : ArrowVisual) : Prop :=
  ar_shaft a = shaft_scale s /\ ar_origin a = arrow_origin s /\
  ar_headScale a = head_scale s.

Definition axis_scaled (s : PathDisplay) (a : AxisVisual) : Prop :=
  ax_children a = replicate 3 (axis_child_scale s).

(** Every visual of [u] has the scales of the dimensions of [s]. *)
Definition scaled_as (s u : PathDisplay) : Prop :=
  Forall (arrow_scaled s) (arrows u) /\ Forall (axis_scaled s) (axes u).

(** Every visual has the scales of the current dimensions. *)
Definition dimensions_applied (s : PathDisplay) : Prop := scaled_as s s.

(** Every arrow carries the material of the plugin. *)
Definition materials_current (s : PathDisplay) : Prop :=
  Forall (fun a => ar_material a = mat s) (arrows s).

(** The handles are those of all the visuals the scene has created for the
    plugin, in the order of creation: visual 0 is the root, the axis and the
    arrow of index i are the visuals 2i+1 and 2i+2, and these are the
    children of the root. *)
Definition handles_tracked (s : PathDisplay) : Prop :=
  ax_id <$> axes s = (fun i => 1 + 2 * i) <$> seq 0 (length (axes s)) /\
  ar_id <$> arrows s = (fun i => 2 + 2 * i) <$> seq 0 (length (arrows s)) /\
  scene_created s = 1 + 2 * length (axes s) /\
  rv_children (rootVisual s) = seq 1 (2 * length (axes s)).

(** The root visual holds no geometry while the first marker is pending, and
    one line-strip marker otherwise. *)
Definition one_marker (s : PathDisplay) : Prop :=
  match rv_geometries (rootVisual s) with
  | [] => createMarker s = true
  | [m] => mk_type m = MT_LINE_STRIP /\ mk_material m = "Default/TransGreen"
  | _ => False
  end.

(** The line through the poses of a message, in the line colour. *)
Definition line_of (s : PathDisplay) (m : Path) : list (Vector3d * Color scalar) :=
  (fun p => (Pos (localPose p), color s)) <$> poses m.

(** A program without its lock and unlock instructions. *)
Fixpoint unlocked (p : Prog) : Prog :=
  match p with
  | [] => []
  | IAct f :: p' => IAct f :: unlocked p'
  | _ :: p' => unlocked p'
  end.

(** What identifies the visuals and their looks, apart from where they are:
    the numbers behind the handles, the children of the root, the materials,
    and the kind of the marker.  Moving, hiding and scaling a visual, and
    adding or clearing points, leave it as it is. *)
Definition bookkeeping (s : PathDisplay) :=
  (ax_id <$> axes s, ar_id <$> arrows s, scene_created s,
   rv_children (rootVisual s),
   (ar_material <$> arrows s, mat s),
   (createMarker s,
    (fun m => (mk_type m, mk_material m)) <$> rv_geometries (rootVisual s))).


(** [t] has the visuals of [s] and possibly more: the handles of [s] are the
    first handles of [t], the children of the root of [s] the first children
    of the root of [t]. *)
Definition grown (s t : PathDisplay) : Prop :=
  ax_id <$> axes s `prefix_of` ax_id <$> axes t /\
  ar_id <$> arrows s `prefix_of` ar_id <$> arrows t /\
  rv_children (rootVisual s) `prefix_of` rv_children (rootVisual t) /\
  scene_created s <= scene_created t.
End PathDisplay.

(** One goal for each instruction of a program. *)
Ltac each_instr :=
  unfold act, act_opt;
  repeat (apply Forall_cons_2; [cbn [instr_preserves] |]);
  [.. | apply Forall_nil_2].

(** ** A host to run the model on

    Rational numbers in place of doubles, with exact arithmetic; the angle
    constructor is a first-order stand-in.  Used for the concrete runs only. *)

Module Sample.

Record SampleQoS := mkSampleQoS {
  depth : Z; history : Z; reliability : Z; durability : Z
}.

Definition q_vadd (a b : Vector3 Q) : Vector3 Q :=
  mkVector3 (vX a + vX b)%Q (vY a + vY b)%Q (vZ a + vZ b)%Q.

Definition q_qmul (a b : Quaternion Q) : Quaternion Q :=
  mkQuaternion
    (qW a * qW b - qX a * qX b - qY a * qY b - qZ a * qZ b)%Q
    (qW a * qX b + qX a * qW b + qY a * qZ b - qZ a * qY b)%Q
    (qW a * qY b - qX a * qZ b + qY a * qW b + qZ a * qX b)%Q
    (qW a * qZ b + qX a * qY b - qY a * qX b + qZ a * qW b)%Q.

#[export] Instance QHost : Host := {|
  scalar := Q;
  lit := fun q => q;
  fmul := Qmult;
  fneg := Qopp;
  vadd := q_vadd;
  qmul := q_qmul;
  quat_of_euler := fun r p y => mkQuaternion 1%Q (r / 2)%Q (p / 2)%Q (y / 2)%Q;
  QoS := SampleQoS;
  default_qos := mkSampleQoS 5 1 1 2;
  setHistoryDepth := fun v q => mkSampleQoS v (history q) (reliability q) (durability q);
  setHistoryPolicy := fun v q => mkSampleQoS (depth q) v (reliability q) (durability q);
  setReliabilityPolicy := fun v q => mkSampleQoS (depth q) (history q) v (durability q);
  setDurabilityPolicy := fun v q => mkSampleQoS (depth q) (history q) (reliability q) v;
  QObject := unit;
  Render_kType := 1000
|}.

Definition pose_at (x y : Q) : PoseStamped :=
  mkPoseStamped (mkPoint x y 0%Q) (mkOrientation 0%Q 0%Q 0%Q 1%Q).

(** Two poses in frame "map"; an empty path in frame "map"; a path in a frame
    nobody knows. *)
Definition path2 : Path := mkPath "map" [pose_at 1 0; pose_at 2 1].
Definition path0 : Path := mkPath "map" [].
Definition path3 : Path := mkPath "map" [pose_at 1 0; pose_at 2 1; pose_at 3 3].
Definition path_lost : Path := mkPath "nowhere" [pose_at 5 5].

Definition frames : FrameManager :=
  fun frame => if String.eqb frame "map" then Some Pose3d_Zero else None.

Definition ros : Node :=
  mkNode [("/plan", ["nav_msgs/msg/Path"]);
          ("/scan", ["sensor_msgs/msg/LaserScan"]);
          ("/trail", ["nav_msgs/msg/Path"])].

(** The state after a list of calls, each run to its end. *)
Fixpoint after (ops : list Op) (s : PathDisplay) : option PathDisplay :=
  match ops with
  | [] => Some s
  | o :: ops' =>
      match run (prog_of o) s with
      | Done s' => after ops' s'
      | _ => None
      end
  end.

Definition from_ops (ops : list Op) (s : PathDisplay) : PathDisplay :=
  default s (after ops s).

(** Plugin loaded, node and frame manager set. *)
Definition started : PathDisplay :=
  from_ops [OpInitialize ros; OpSetFrameManager frames; OpSetTopic "/trail"]
    PathDisplay_new.

Definition white : Color Q := mkColor 1%Q 1%Q 1%Q 1%Q.

(** A first message has arrived. *)
Definition received : PathDisplay := from_ops [OpCallback path2] started.

(** Two poses are on display as axes. *)
Definition shown : PathDisplay :=
  from_ops [OpCallback path2; OpSetShape 2; OpUpdate] started.

(** Two poses are on display and a message with three poses has arrived. *)
Definition regrown : PathDisplay :=
  from_ops [OpCallback path2; OpSetShape 2; OpUpdate; OpCallback path3] started.

(** Two poses are on display and a message in an unknown frame has arrived. *)
Definition lost : PathDisplay :=
  from_ops [OpCallback path2; OpUpdate; OpCallback path_lost] started.

(** The same, the line colour having been changed in between. *)
Definition relit : PathDisplay :=
  from_ops [OpCallback path2; OpUpdate; OpSetLineColor white; OpCallback path_lost]
    started.

(** Thread 0 runs [update], thread 1 the callback: [update] up to the end of
    its loop that hides, the whole callback, the rest of [update]. *)
Definition racing : list nat := [0; 0; 0; 0; 0; 0; 1; 1; 1; 0; 0].

(** What is on display: the buffered message, which axes and arrows are
    visible, the points of the line. *)
Definition seen (s : PathDisplay) :=
  (msg s, ax_visible <$> axes s, ar_visible <$> arrows s, marker_points s).

Definition green : Color Q := mkColor (98 # 1000) 1%Q (2 # 10) 1%Q.
Definition at_xy (x y : Q) : Vector3 Q := mkVector3 x y 0%Q.

(** A pose above the ground, turned about the vertical axis; a path in frame
    "map" that ends in it. *)
Definition pose_turned (x y : Q) : PoseStamped :=
  mkPoseStamped (mkPoint x y (1 # 2))
    (mkOrientation 0%Q 0%Q (6 # 10) (8 # 10)).

Definition path_bend : Path :=
  mkPath "map" [pose_at 1 0; pose_at 2 1; pose_turned 3 3].

(** Two poses are on display and the path that bends has arrived. *)
Definition bent : PathDisplay :=
  from_ops [OpCallback path2; OpSetShape 2; OpUpdate; OpCallback path_bend]
    started.

(** Two poses are on display, the arrow dimensions have been changed, and a
    message with three poses has arrived. *)
Definition resized : PathDisplay :=
  from_ops [OpCallback path2; OpSetShape 1; OpUpdate;
            OpSetArrowDimensions 1%Q (1 # 10) (1 # 2) (2 # 10);
            OpCallback path3] started.

(** A message has arrived at a plugin that was constructed and nothing else. *)
Definition eager : PathDisplay := from_ops [OpCallback path2] PathDisplay_new.

(** Whether a list of calls runs to its end. *)
Definition ran (ops : list Op) (s : PathDisplay) : bool :=
  match after ops s with
  | Some _ => true
  | None => false
  end.

End Sample.

(** * Properties *)

Section Properties.

Context `{Host}.

(** ** Machine integers, vectors, loops *)

Lemma to_int_small (z : Z) : (0 <= z <= INT_MAX)%Z -> to_int z = z.
Proof.
  unfold to_int, INT_MAX. intros Hz.
  rewrite Z.mod_small; lia.
Qed.

Lemma to_int_length {A : Type} (l : list A) :
  (Z.of_nat (length l) <= INT_MAX)%Z ->
  Z.to_nat (to_int (Z.of_nat (length l))) = length l.
Proof.
  intros Hl. rewrite to_int_small by lia. apply Nat2Z.id.
Qed.

Lemma vec_modify_Some {A : Type} (i : nat) (f : A -> A) (v : list A) (x : A) :
  v !! i = Some x -> vec_modify i f v = Some (<[i := f x]> v).
Proof. intros Hx. unfold vec_modify. rewrite Hx. reflexivity. Qed.

Lemma vec_modify_inv {A : Type} (i : nat) (f : A -> A) (v v' : list A) :
  vec_modify i f v = Some v' ->
  exists x, v !! i = Some x /\ v' = <[i := f x]> v.
Proof.
  unfold vec_modify. destruct (v !! i) as [x|]; simpl; [|discriminate].
  intros [= <-]. eauto.
Qed.

Lemma vec_modify_length {A : Type} (i : nat) (f : A -> A) (v v' : list A) :
  vec_modify i f v = Some v' -> length v' = length v.
Proof.
  intros (x & _ & ->)%vec_modify_inv. apply length_insert.
Qed.

(** A loop invariant carried through [for_range], with termination: every
    iteration is defined and re-establishes the invariant. *)
Lemma for_range_total {S : Type} (P : nat -> S -> Prop)
  (body : nat -> S -> option S) (n start : nat) (s : S) :
  P start s ->
  (forall i t, (start <= i < start + n)%nat -> P i t ->
     exists t', body i t = Some t' /\ P (Datatypes.S i) t') ->
  exists s', for_range start n body s = Some s' /\ P (start + n)%nat s'.
Proof.
  revert start s. induction n as [|n IH]; intros start s Hs Hbody; simpl.
  - exists s. rewrite Nat.add_0_r. auto.
  - destruct (Hbody start s) as (t & -> & Ht); [lia | assumption |]. simpl.
    destruct (IH (Datatypes.S start) t Ht) as (s' & Hrun & Hs').
    + intros i u Hi Hu. apply Hbody; [lia | assumption].
    + exists s'. split; [assumption |].
      replace (start + Datatypes.S n)%nat with (Datatypes.S start + n)%nat by lia.
      assumption.
Qed.

(** The same for a property that every defined iteration preserves. *)
Lemma for_range_preserves {S : Type} (P : S -> Prop)
  (body : nat -> S -> option S) (n start : nat) (s s' : S) :
  (forall i t t', P t -> body i t = Some t' -> P t') ->
  P s -> for_range start n body s = Some s' -> P s'.
Proof.
  intros Hbody. revert start s.
  induction n as [|n IH]; intros start s Hs; simpl.
  - intros [= <-]. assumption.
  - destruct (body start s) as [t|] eqn:Ht; simpl; [|discriminate].
    apply IH. eapply Hbody; eassumption.
Qed.

(** ** The lock statement *)

Lemma unlock_id (s : PathDisplay) :
  lock s = false -> set_lock false (set_lock true s) = s.
Proof. destruct s; simpl. intros ->. reflexivity. Qed.

Lemma run_lock_guard (p : Prog) (s : PathDisplay) :
  lock s = false -> run (lock_guard ++ p) s = run p s.
Proof.
  intros Hs. simpl. rewrite Hs. rewrite unlock_id by assumption. reflexivity.
Qed.

Lemma guarded_app (p q : Prog) : guarded p -> guarded q -> guarded (p ++ q).
Proof.
  induction 1; intros Hq; simpl; [assumption | |]; constructor; auto.
Qed.

Lemma guarded_run (p : Prog) (s : PathDisplay) :
  guarded p -> lock s = false ->
  run p s <> Deadlock /\ forall s', run p s = Done s' -> lock s' = false.
Proof.
  intros Hp. revert s. induction Hp as [| p Hp IH | f p Hf Hp IH]; intros s Hs.
  - simpl. split; [discriminate | intros s' [= <-]; assumption].
  - change (ILock :: IUnlock :: p) with (lock_guard ++ p).
    rewrite run_lock_guard by assumption. auto.
  - simpl. specialize (Hf s). destruct (f s) as [t | t |].
    + apply IH. congruence.
    + split; [discriminate | intros s' [= <-]; congruence].
    + split; [discriminate | discriminate].
Qed.

Lemma update_readyb_sound (s : PathDisplay) :
  update_readyb s = true -> update_ready s.
Proof.
  unfold update_readyb, update_ready, sizes_in_sync.
  rewrite !andb_true_iff, orb_true_iff, Nat.eqb_eq, Z.leb_le, forallb_forall.
  intros ((((Hfm & Hmk) & Hlen) & Hch) & Hbound).
  repeat split; try assumption.
  - destruct (frameManager s); [eauto | discriminate].
  - destruct Hmk as [Hmk | Hmk]; [left; assumption | right].
    destruct (rv_geometries (rootVisual s)); [discriminate | discriminate].
  - apply Forall_forall. intros a Ha. apply Nat.eqb_eq, Hch.
    apply list_elem_of_In. assumption.
Qed.

(** ** updateVisual *)

Lemma lookup_insert_same_view {A B : Type} (f : A -> B) (l : list A)
  (i j : nat) (x y : A) :
  l !! i = Some x -> f y = f x -> f <$> <[i := y]> l !! j = f <$> l !! j.
Proof.
  intros Hx Hf. destruct (decide (i = j)) as [<- | Hne].
  - rewrite list_lookup_insert_eq by (eapply lookup_lt_Some; eassumption).
    rewrite Hx. simpl. congruence.
  - rewrite list_lookup_insert_ne by assumption. reflexivity.
Qed.

Lemma same_but_scales_refl (s : PathDisplay) : same_but_scales s s.
Proof. constructor; auto. Qed.

Lemma same_but_scales_trans (s t u : PathDisplay) :
  same_but_scales s t -> same_but_scales t u -> same_but_scales s u.
Proof.
  intros [] []. constructor; try congruence; auto.
Qed.

Lemma updateVisual_children (s : PathDisplay) (cs : list Vector3d) :
  length cs = 3 ->
  exists cs', for_range 0 3 (updateVisual_child s) cs = Some cs' /\ length cs' = 3.
Proof.
  destruct cs as [|c0 [|c1 [|c2 [|c3 cs]]]]; try discriminate.
  intros _. eexists. split; reflexivity.
Qed.

Lemma updateVisual_Some (i : nat) (s : PathDisplay)
  (ar : ArrowVisual) (ax : AxisVisual) :
  arrows s !! i = Some ar -> axes s !! i = Some ax ->
  length (ax_children ax) = 3 ->
  exists cs, length cs = 3 /\
    updateVisual i s =
    Some (set_axes (<[i := Axis_SetChildren cs ax]> (axes s))
            (set_arrows (<[i := updateVisual_arrow s ar]> (arrows s)) s)).
Proof.
  intros Har Hax Hcs.
  destruct (updateVisual_children s _ Hcs) as (cs & Hrun & Hlen).
  exists cs. split; [assumption |].
  unfold updateVisual. rewrite (vec_modify_Some _ _ _ _ Har). cbn -[for_range].
  rewrite Hax. cbn -[for_range]. rewrite Hrun. reflexivity.
Qed.

Lemma updateVisual_same (i : nat) (s : PathDisplay)
  (ar : ArrowVisual) (ax : AxisVisual) :
  arrows s !! i = Some ar -> axes s !! i = Some ax ->
  length (ax_children ax) = 3 ->
  exists t, updateVisual i s = Some t /\ same_but_scales s t /\
            dirty t = dirty s.
Proof.
  intros Har Hax Hcs.
  destruct (updateVisual_Some i s ar ax Har Hax Hcs) as (cs & Hlen & ->).
  eexists. split; [reflexivity |]. split; [|reflexivity].
  constructor; simpl; try reflexivity.
  - apply length_insert.
  - apply length_insert.
  - intros Hall. apply Forall_insert; assumption.
  - intros j. apply (lookup_insert_same_view axis_core _ _ _ ax); auto.
  - intros j. apply (lookup_insert_same_view arrow_core _ _ _ ar); auto.
Qed.

(** Every defined call keeps the two vectors as long as they were. *)
Lemma updateVisual_lengths (i : nat) (s t : PathDisplay) :
  updateVisual i s = Some t ->
  length (axes t) = length (axes s) /\ length (arrows t) = length (arrows s).
Proof.
  unfold updateVisual. intros Hrun.
  destruct (vec_modify i (updateVisual_arrow s) (arrows s)) as [ar'|] eqn:Har;
    cbn -[for_range] in Hrun; [|discriminate].
  destruct (axes s !! i) as [ax|]; cbn -[for_range] in Hrun; [|discriminate].
  destruct (for_range 0 3 (updateVisual_child s) (ax_children ax)) as [cs|];
    cbn -[for_range] in Hrun; [|discriminate].
  injection Hrun as <-. simpl. rewrite length_insert.
  split; [reflexivity | eapply vec_modify_length; eassumption].
Qed.

(** ** The loop that hides *)

Lemma update_hide_spec (s : PathDisplay) (m : Path) :
  msg s = Some m -> sizes_in_sync s ->
  exists t, update_hide s = Some t /\
    t = set_arrows (arrows t) (set_axes (axes t) s) /\
    length (axes t) = length (axes s) /\
    length (arrows t) = length (arrows s) /\
    (forall i, axes t !! i =
       if decide (length (poses m) <= i)
       then Axis_SetVisible false <$> axes s !! i else axes s !! i) /\
    (forall i, arrows t !! i =
       if decide (length (poses m) <= i)
       then Arrow_SetVisible false <$> arrows s !! i else arrows s !! i).
Proof.
  intros Hm Hsync. unfold update_hide. rewrite Hm. cbn -[for_range].
  set (N := length (poses m)). set (M := length (axes s)).
  destruct (for_range_total
    (fun k t =>
       t = set_arrows (arrows t) (set_axes (axes t) s) /\
       length (axes t) = M /\ length (arrows t) = M /\
       (forall i, axes t !! i =
          if decide (N <= i < k)
          then Axis_SetVisible false <$> axes s !! i else axes s !! i) /\
       (forall i, arrows t !! i =
          if decide (N <= i < k)
          then Arrow_SetVisible false <$> arrows s !! i else arrows s !! i))
    hide_visual (M - N) N s) as (t & Hrun & Ht & Hlax & Hlar & Hax & Har).
  - split; [destruct s; reflexivity |].
    split; [reflexivity |]. split; [assumption |].
    split; intros i; case_decide; (lia || reflexivity).
  - intros k t Hk (Ht & Hlax & Hlar & Hax & Har).
    destruct (lookup_lt_is_Some_2 (axes t) k) as [ax Hk_ax]; [lia |].
    destruct (lookup_lt_is_Some_2 (arrows t) k) as [ar Hk_ar]; [lia |].
    unfold hide_visual.
    rewrite (vec_modify_Some _ _ _ _ Hk_ax). cbn.
    rewrite (vec_modify_Some _ _ _ _ Hk_ar). cbn.
    eexists. split; [reflexivity |]. cbn.
    split; [rewrite Ht; reflexivity |].
    rewrite !length_insert. split; [assumption |]. split; [assumption |].
    split; intros i.
    + destruct (decide (k = i)) as [<- | Hne].
      * rewrite list_lookup_insert_eq by lia.
        rewrite decide_True by lia.
        specialize (Hax k). rewrite decide_False in Hax by lia.
        rewrite <- Hax, Hk_ax. reflexivity.
      * rewrite list_lookup_insert_ne by assumption. rewrite Hax.
        repeat case_decide; (lia || reflexivity).
    + destruct (decide (k = i)) as [<- | Hne].
      * rewrite list_lookup_insert_eq by lia.
        rewrite decide_True by lia.
        specialize (Har k). rewrite decide_False in Har by lia.
        rewrite <- Har, Hk_ar. reflexivity.
      * rewrite list_lookup_insert_ne by assumption. rewrite Har.
        repeat case_decide; (lia || reflexivity).
  - exists t. split; [assumption |]. split; [assumption |].
    split; [assumption |]. split; [unfold sizes_in_sync in Hsync; lia |].
    split; intros i.
    + rewrite Hax. repeat case_decide; try (lia || reflexivity).
      rewrite (lookup_ge_None_2 (axes s) i) by (fold M; lia). reflexivity.
    + rewrite Har. repeat case_decide; try (lia || reflexivity).
      rewrite (lookup_ge_None_2 (arrows s) i)
        by (unfold sizes_in_sync in Hsync; fold M in Hsync; lia).
      reflexivity.
Qed.

(** ** The loop over the poses *)

Lemma inputs_fields (s t : PathDisplay) :
  inputs t = inputs s ->
  lock t = lock s /\ msg t = msg s /\ visualShape t = visualShape s /\
  axisHeadVisible t = axisHeadVisible s.
Proof. unfold inputs. intros [=]. auto. Qed.

Lemma shown_axis_core (s : PathDisplay) (p : PoseStamped) (a b : AxisVisual) :
  axis_core a = axis_core b -> shown_axis s p a -> shown_axis s p b.
Proof. unfold axis_core, shown_axis. intros [=]. congruence. Qed.

Lemma shown_arrow_core (s : PathDisplay) (p : PoseStamped) (a b : ArrowVisual) :
  arrow_core a = arrow_core b -> shown_arrow s p a -> shown_arrow s p b.
Proof. unfold arrow_core, shown_arrow. intros [=]. congruence. Qed.

(** The first half of an iteration: the pair of visuals for index [k] is
    created exactly when the vectors end at [k]. *)
Lemma update_pose_create (s0 : PathDisplay) (m : Path) (k : nat) (t : PathDisplay) :
  (Z.of_nat (length (axes s0) `max` k) <= INT_MAX)%Z ->
  pose_inv s0 m k t ->
  exists s1,
    (if (to_int (Z.of_nat (length (axes t))) =? Z.of_nat k)%Z
     then create_visuals k t else Some t) = Some s1 /\
    inputs s1 = inputs t /\ dirty s1 = dirty t /\
    length (axes s1) = length (axes s0) `max` S k /\
    length (arrows s1) = length (axes s0) `max` S k /\
    Forall (fun a => length (ax_children a) = 3) (axes s1) /\
    rv_geometries (rootVisual s1) = rv_geometries (rootVisual t) /\
    rv_position (rootVisual s1) = rv_position (rootVisual t) /\
    rv_rotation (rootVisual s1) = rv_rotation (rootVisual t) /\
    scene_created s1 =
      scene_created s0 + 2 * (length (axes s0) `max` S k - length (axes s0)) /\
    (forall i, i < length (axes t) ->
       axis_core <$> axes s1 !! i = axis_core <$> axes t !! i) /\
    (forall i, i < length (arrows t) ->
       arrow_core <$> arrows s1 !! i = arrow_core <$> arrows t !! i).
Proof.
  intros Hbound Hinv.
  pose proof (pi_axes_len _ _ _ _ Hinv) as Hlax.
  pose proof (pi_arrows_len _ _ _ _ Hinv) as Hlar.
  pose proof (pi_created _ _ _ _ Hinv) as Hcr.
  rewrite to_int_small by lia.
  destruct (Z.eqb_spec (Z.of_nat (length (axes t))) (Z.of_nat k)) as [Heq | Hne].
  - (* the vectors end at k: create *)
    apply Nat2Z.inj in Heq.
    unfold create_visuals.
    set (axis := Axis_SetVisible false (new_axis (scene_created t))).
    set (arrow := Arrow_SetVisible false _).
    match goal with |- context [updateVisual k ?u] => set (t1 := u) end.
    destruct (updateVisual_Some k t1 arrow axis) as (cs & Hcs & ->).
    + subst t1. cbn. apply list_lookup_middle. lia.
    + subst t1. cbn. apply list_lookup_middle. lia.
    + reflexivity.
    + eexists. split; [reflexivity |]. subst t1. cbn.
      rewrite !length_insert, !length_app. cbn.
      split; [reflexivity |]. split; [reflexivity |].
      split; [lia |]. split; [lia |].
      split.
      { apply Forall_insert; [|assumption].
        apply Forall_app. split; [apply (pi_children _ _ _ _ Hinv) |].
        repeat constructor. }
      split; [reflexivity |]. split; [reflexivity |]. split; [reflexivity |].
      split; [lia |].
      split; intros i Hi.
      * rewrite list_lookup_insert_ne by lia.
        rewrite lookup_app_l by lia. reflexivity.
      * rewrite list_lookup_insert_ne by lia.
        rewrite lookup_app_l by lia. reflexivity.
  - (* the visuals for k exist already *)
    assert (length (axes t) <> k) by lia.
    exists t. split; [reflexivity |].
    split; [reflexivity |]. split; [reflexivity |].
    split; [lia |]. split; [lia |].
    split; [apply (pi_children _ _ _ _ Hinv) |].
    split; [reflexivity |]. split; [reflexivity |]. split; [reflexivity |].
    split; [lia |]. split; reflexivity.
Qed.

Lemma update_pose_step (s0 : PathDisplay) (m : Path) (k : nat)
  (t : PathDisplay) (p : PoseStamped) :
  (Z.of_nat (length (axes s0) `max` k) <= INT_MAX)%Z ->
  msg s0 = Some m ->
  pose_inv s0 m k t -> poses m !! k = Some p ->
  exists t', update_pose k t = Some t' /\ pose_inv s0 m (S k) t'.
Proof.
  intros Hbound Hm Hinv Hp.
  destruct (update_pose_create s0 m k t Hbound Hinv)
    as (s1 & Hs1 & Hin & Hdirty & Hlax & Hlar & Hch & Hgeo & Hpos & Hrot &
        Hcr & Hcax & Hcar).
  destruct Hinv as [Hin0 Hdirty0 Hlax0 Hlar0 Hch0 Hgeo0 [Hpos0 Hrot0] Hcr0
                      Hdax Hdar Hrax Hrar Hiax Hiar].
  assert (Hin1 : inputs s1 = inputs s0) by congruence.
  destruct (inputs_fields _ _ Hin1) as (Hlock & Hmsg & Hshape & Hhead).
  destruct (lookup_lt_is_Some_2 (axes s1) k) as [ax Hax]; [lia |].
  destruct (lookup_lt_is_Some_2 (arrows s1) k) as [ar Har]; [lia |].
  unfold update_pose. rewrite Hs1. cbn.
  rewrite Hmsg, Hm. cbn. rewrite Hp. cbn.
  unfold with_marker.
  destruct (rv_geometries (rootVisual s1)) as [|mk rest] eqn:Hmk;
    [congruence |]. cbn.
  rewrite (vec_modify_Some _ _ _ _ Hax). cbn.
  rewrite (vec_modify_Some _ _ _ _ Har). cbn.
  eexists. split; [reflexivity |].
  constructor; cbn.
  - exact Hin1.
  - congruence.
  - rewrite length_insert. assumption.
  - rewrite length_insert. assumption.
  - apply Forall_insert; [assumption |].
    cbn. eapply (proj1 (Forall_lookup _ _)) in Hch; eassumption.
  - discriminate.
  - split; congruence.
  - assumption.
  - intros i q Hi Hq. destruct (decide (k = i)) as [<- | Hne].
    + rewrite list_lookup_insert_eq by lia. eexists. split; [reflexivity |].
      assert (q = p) as -> by congruence.
      unfold shown_axis. cbn. rewrite Hshape, Hhead. auto.
    + rewrite list_lookup_insert_ne by assumption.
      destruct (Hdax i q) as (a & Ha & Hshown); [lia | assumption |].
      specialize (Hcax i). rewrite Ha in Hcax.
      destruct (axes s1 !! i) as [a'|] eqn:Ha'.
      * exists a'. split; [reflexivity |].
        apply (shown_axis_core _ _ a); [|assumption].
        cbn in Hcax. specialize (Hcax ltac:(lia)). congruence.
      * cbn in Hcax. specialize (Hcax ltac:(lia)). discriminate.
  - intros i q Hi Hq. destruct (decide (k = i)) as [<- | Hne].
    + rewrite list_lookup_insert_eq by lia. eexists. split; [reflexivity |].
      assert (q = p) as -> by congruence.
      unfold shown_arrow. cbn. rewrite Hshape. auto.
    + rewrite list_lookup_insert_ne by assumption.
      destruct (Hdar i q) as (a & Ha & Hshown); [lia | assumption |].
      specialize (Hcar i). rewrite Ha in Hcar.
      destruct (arrows s1 !! i) as [a'|] eqn:Ha'.
      * exists a'. split; [reflexivity |].
        apply (shown_arrow_core _ _ a); [|assumption].
        cbn in Hcar. specialize (Hcar ltac:(lia)). congruence.
      * cbn in Hcar. specialize (Hcar ltac:(lia)). discriminate.
  - intros i Hi. rewrite list_lookup_insert_ne by lia.
    rewrite <- Hrax by lia.
    destruct (decide (i < length (axes t))) as [Hlt | Hge].
    + apply Hcax. assumption.
    + rewrite (lookup_ge_None_2 (axes s1)) by lia.
      rewrite (lookup_ge_None_2 (axes t)) by lia. reflexivity.
  - intros i Hi. rewrite list_lookup_insert_ne by lia.
    rewrite <- Hrar by lia.
    destruct (decide (i < length (arrows t))) as [Hlt | Hge].
    + apply Hcar. assumption.
    + rewrite (lookup_ge_None_2 (arrows s1)) by lia.
      rewrite (lookup_ge_None_2 (arrows t)) by lia. reflexivity.
  - intros i Hi. rewrite <- Hiax by assumption.
    assert (Hcore : axis_core <$> axes s1 !! i = axis_core <$> axes t !! i)
      by (apply Hcax; lia).
    destruct (decide (k = i)) as [<- | Hne].
    + rewrite list_lookup_insert_eq by lia. rewrite Hax in Hcore.
      destruct (axes t !! k) as [a|]; [|discriminate].
      cbn in *. unfold axis_core in Hcore. congruence.
    + rewrite list_lookup_insert_ne by assumption.
      destruct (axes s1 !! i), (axes t !! i); cbn in *;
        unfold axis_core in Hcore; congruence.
  - intros i Hi. rewrite <- Hiar by assumption.
    assert (Hcore : arrow_core <$> arrows s1 !! i = arrow_core <$> arrows t !! i)
      by (apply Hcar; lia).
    destruct (decide (k = i)) as [<- | Hne].
    + rewrite list_lookup_insert_eq by lia. rewrite Har in Hcore.
      destruct (arrows t !! k) as [a|]; [|discriminate].
      cbn in *. unfold arrow_core in Hcore. congruence.
    + rewrite list_lookup_insert_ne by assumption.
      destruct (arrows s1 !! i), (arrows t !! i); cbn in *;
        unfold arrow_core in Hcore; congruence.
Qed.

Lemma pose_inv_start (s0 : PathDisplay) (m : Path) :
  msg s0 = Some m -> sizes_in_sync s0 ->
  Forall (fun a => length (ax_children a) = 3) (axes s0) ->
  rv_geometries (rootVisual s0) <> [] ->
  pose_inv s0 m 0 s0.
Proof.
  intros Hm Hsync Hch Hgeo. unfold sizes_in_sync in Hsync.
  constructor; auto; try lia.
Qed.

Lemma update_poses_spec (s0 : PathDisplay) (m : Path) :
  (Z.of_nat (length (axes s0) `max` length (poses m)) <= INT_MAX)%Z ->
  msg s0 = Some m -> sizes_in_sync s0 ->
  Forall (fun a => length (ax_children a) = 3) (axes s0) ->
  rv_geometries (rootVisual s0) <> [] ->
  exists t, update_poses s0 = Some t /\ pose_inv s0 m (length (poses m)) t.
Proof.
  intros Hbound Hm Hsync Hch Hgeo.
  unfold update_poses. rewrite Hm. cbn -[for_range].
  rewrite to_int_length by lia.
  apply (for_range_total (pose_inv s0 m) update_pose (length (poses m)) 0 s0).
  - apply pose_inv_start; assumption.
  - intros k t Hk Hinv.
    destruct (lookup_lt_is_Some_2 (poses m) k) as [p Hp]; [lia |].
    apply (update_pose_step s0 m k t p); (lia || assumption).
Qed.

(** ** The dirty pass *)

Lemma update_dirty_spec (s : PathDisplay) :
  sizes_in_sync s ->
  Forall (fun a => length (ax_children a) = 3) (axes s) ->
  (Z.of_nat (length (axes s)) <= INT_MAX)%Z ->
  exists t, update_dirty s = Some t /\ same_but_scales s t /\ dirty t = false.
Proof.
  intros Hsync Hch Hbound. unfold update_dirty, sizes_in_sync in *.
  destruct (dirty s) eqn:Hdirty.
  - rewrite to_int_length by assumption.
    destruct (for_range_total (fun _ t => same_but_scales s t)
                updateVisual (length (axes s)) 0 s)
      as (t & -> & Ht).
    + apply same_but_scales_refl.
    + intros i t Hi Ht.
      destruct (lookup_lt_is_Some_2 (axes t) i) as [ax Hax];
        [rewrite (sb_axes_len _ _ Ht); lia |].
      destruct (lookup_lt_is_Some_2 (arrows t) i) as [ar Har];
        [rewrite (sb_arrows_len _ _ Ht); lia |].
      destruct (updateVisual_same i t ar ax Har Hax) as (u & Hu & Hsame & _).
      * pose proof (sb_children _ _ Ht Hch) as Hch'.
        eapply (proj1 (Forall_lookup _ _)) in Hch'; eassumption.
      * exists u. split; [assumption |].
        eapply same_but_scales_trans; eassumption.
    + cbn. eexists. split; [reflexivity |]. split; [|reflexivity].
      destruct Ht. constructor; assumption.
  - exists s. split; [reflexivity |].
    split; [apply same_but_scales_refl | assumption].
Qed.

(** ** The marker and the frame lookup *)

Lemma update_marker_ready (s : PathDisplay) :
  createMarker s = true \/ rv_geometries (rootVisual s) <> [] ->
  rv_geometries (rootVisual (update_marker s)) <> [] /\
  createMarker (update_marker s) = false.
Proof.
  unfold update_marker. destruct (createMarker s) eqn:Hc; cbn.
  - intros _. split; [discriminate | reflexivity].
  - intros [? | ?]; [discriminate | auto].
Qed.

Lemma update_frame_found (s : PathDisplay) (m : Path)
  (getFramePose : FrameManager) (visualPose : Pose3d) :
  msg s = Some m -> frameManager s = Some getFramePose ->
  getFramePose (frame_id m) = Some visualPose ->
  rv_geometries (rootVisual s) <> [] ->
  exists t, update_frame s = Next t /\
    inputs t = inputs s /\ dirty t = dirty s /\
    createMarker t = createMarker s /\
    axes t = axes s /\ arrows t = arrows s /\
    scene_created t = scene_created s /\
    rv_position (rootVisual t) = vadd (Pos visualPose) (offset s) /\
    rv_rotation (rootVisual t) = Rot visualPose /\
    rv_geometries (rootVisual t) <> [] /\
    marker_points t = [].
Proof.
  intros Hm Hfm Hpose Hgeo. unfold update_frame.
  rewrite Hm, Hfm, Hpose. unfold with_marker. cbn.
  destruct (rv_geometries (rootVisual s)) as [|mk rest]; [congruence |].
  eexists. split; [reflexivity |]. cbn.
  repeat split; discriminate.
Qed.

(** ** update as a whole *)

(** With the mutex free and a message buffered, [update] is its lock
    statement followed by the phases in order. *)
Lemma run_update (s : PathDisplay) (m : Path) :
  lock s = false -> msg s = Some m ->
  run update s =
  match update_frame (update_marker s) with
  | Next t =>
      match (t1 ← update_hide t; t2 ← update_poses t1; update_dirty t2) with
      | Some u => Done u
      | None => Undefined
      end
  | Ret t => Done t
  | UB => Undefined
  end.
Proof.
  intros Hlock Hm. unfold update. rewrite run_lock_guard by assumption.
  cbn [run]. unfold update_nomsg. rewrite Hm. unfold act, act_opt.
  destruct (update_frame (update_marker s)) as [t | t |]; try reflexivity.
  destruct (update_hide t) as [t1|]; cbn -[update_poses update_dirty];
    [|reflexivity].
  destruct (update_poses t1) as [t2|]; cbn -[update_dirty]; [|reflexivity].
  destruct (update_dirty t2) as [t3|]; reflexivity.
Qed.

Lemma shown_axis_inputs (s t : PathDisplay) (p : PoseStamped) (a : AxisVisual) :
  inputs t = inputs s -> shown_axis t p a -> shown_axis s p a.
Proof.
  intros (_ & _ & Hshape & Hhead)%inputs_fields.
  unfold shown_axis. rewrite Hshape, Hhead. auto.
Qed.

Lemma shown_arrow_inputs (s t : PathDisplay) (p : PoseStamped) (a : ArrowVisual) :
  inputs t = inputs s -> shown_arrow t p a -> shown_arrow s p a.
Proof.
  intros (_ & _ & Hshape & _)%inputs_fields.
  unfold shown_arrow. rewrite Hshape. auto.
Qed.

Lemma update_marker_same (s : PathDisplay) :
  inputs (update_marker s) = inputs s /\
  dirty (update_marker s) = dirty s /\
  axes (update_marker s) = axes s /\
  arrows (update_marker s) = arrows s /\
  scene_created (update_marker s) = scene_created s /\
  rv_position (rootVisual (update_marker s)) = rv_position (rootVisual s) /\
  rv_rotation (rootVisual (update_marker s)) = rv_rotation (rootVisual s).
Proof. unfold update_marker. destruct (createMarker s); cbn; auto 10. Qed.

(** The main lemma: in a ready state with a message whose frame is known,
    [update] runs to its end and establishes [update_post]. *)
Lemma update_success (s : PathDisplay) (m : Path)
  (getFramePose : FrameManager) (visualPose : Pose3d) :
  lock s = false -> msg s = Some m ->
  frameManager s = Some getFramePose ->
  getFramePose (frame_id m) = Some visualPose ->
  update_ready s ->
  (Z.of_nat (length (poses m)) <= INT_MAX)%Z ->
  exists s', run update s = Done s' /\ update_post s m visualPose s'.
Proof.
  intros Hlock Hm Hfm Hpose (_ & Hmarker & Hsync & Hch & Hbound) HN.
  rewrite (run_update s m Hlock Hm).
  destruct (update_marker_ready s Hmarker) as [Hgeo Hcm].
  destruct (update_marker_same s)
    as (Hin0 & Hd0 & Hax0 & Har0 & Hsc0 & Hpos0 & Hrot0).
  destruct (inputs_fields _ _ Hin0) as (_ & Hm0 & _ & _).
  assert (Hoff : offset (update_marker s) = offset s)
    by (unfold inputs in Hin0; congruence).
  destruct (update_frame_found (update_marker s) m getFramePose visualPose)
    as (t1 & -> & Hin1 & Hd1 & Hcm1 & Hax1 & Har1 & Hsc1 & Hpos1 & Hrot1 &
        Hgeo1 & _); try assumption.
  { congruence. }
  { unfold inputs in Hin0. congruence. }
  assert (Hin1s : inputs t1 = inputs s) by congruence.
  destruct (inputs_fields _ _ Hin1s) as (_ & Hm1 & _ & _).
  unfold sizes_in_sync in Hsync.
  (* the loop that hides *)
  destruct (update_hide_spec t1 m)
    as (t2 & -> & Ht2 & Hlax2 & Hlar2 & Hax2 & Har2).
  { congruence. }
  { unfold sizes_in_sync. congruence. }
  assert (Hin2 : inputs t2 = inputs s) by (rewrite Ht2; exact Hin1s).
  destruct (inputs_fields _ _ Hin2) as (_ & Hm2 & _ & _).
  assert (Hch2 : Forall (fun a => length (ax_children a) = 3) (axes t2)).
  { apply Forall_lookup. intros i a Ha. rewrite Hax2, Hax1, Hax0 in Ha.
    case_decide.
    - destruct (axes s !! i) as [a0|] eqn:Ha0; [|discriminate].
      injection Ha as <-. cbn.
      eapply (proj1 (Forall_lookup _ _)) in Hch; eassumption.
    - eapply (proj1 (Forall_lookup _ _)) in Hch; eassumption. }
  assert (Hgeo2 : rv_geometries (rootVisual t2) <> [])
    by (rewrite Ht2; exact Hgeo1).
  assert (Hlen2 : length (axes t2) = length (axes s)) by congruence.
  (* the loop over the poses *)
  cbn -[update_poses update_dirty].
  destruct (update_poses_spec t2 m) as (t3 & -> & Hinv); try assumption.
  { rewrite Hlen2. lia. }
  { congruence. }
  { unfold sizes_in_sync. congruence. }
  destruct Hinv as [Hin3 Hd3 Hlax3 Hlar3 Hch3 Hgeo3 [Hpos3 Hrot3] Hcr3
                      Hdax Hdar Hrax Hrar Hiax Hiar].
  rewrite Hlen2 in *.
  (* the dirty pass *)
  cbn -[update_dirty].
  destruct (update_dirty_spec t3) as (t4 & -> & Hsame & Hd4).
  { unfold sizes_in_sync. congruence. }
  { assumption. }
  { rewrite Hlax3. lia. }
  destruct Hsame as [Hin4 Hroot4 Hsc4 Hlax4 Hlar4 Hch4 Hcax4 Hcar4].
  exists t4. split; [reflexivity |]. constructor.
  - congruence.
  - assumption.
  - rewrite Hroot4, Hpos3, Ht2. cbn. rewrite Hpos1, Hoff. reflexivity.
  - rewrite Hroot4, Hrot3, Ht2. cbn. exact Hrot1.
  - congruence.
  - congruence.
  - rewrite Hsc4, Hcr3, Ht2. cbn. congruence.
  - intros i p Hp.
    destruct (Hdax i p) as (a & Ha & Hshown); [|assumption|].
    { apply lookup_lt_Some in Hp. assumption. }
    specialize (Hcax4 i). rewrite Ha in Hcax4.
    destruct (axes t4 !! i) as [a'|]; [|discriminate]. cbn in Hcax4.
    exists a'. split; [reflexivity |].
    apply (shown_axis_inputs s t2); [assumption |].
    apply (shown_axis_core _ _ a); congruence.
  - intros i p Hp.
    destruct (Hdar i p) as (a & Ha & Hshown); [|assumption|].
    { apply lookup_lt_Some in Hp. assumption. }
    specialize (Hcar4 i). rewrite Ha in Hcar4.
    destruct (arrows t4 !! i) as [a'|]; [|discriminate]. cbn in Hcar4.
    exists a'. split; [reflexivity |].
    apply (shown_arrow_inputs s t2); [assumption |].
    apply (shown_arrow_core _ _ a); congruence.
  - intros i Hi. rewrite Hcax4, Hrax by assumption.
    rewrite Hax2, decide_True by assumption. congruence.
  - intros i Hi. rewrite Hcar4, Hrar by assumption.
    rewrite Har2, decide_True by assumption. congruence.
  - intros i Hi.
    transitivity (ax_id <$> axes t3 !! i).
    { specialize (Hcax4 i).
      destruct (axes t4 !! i), (axes t3 !! i); cbn in *;
        unfold axis_core in Hcax4; congruence. }
    rewrite Hiax by assumption. rewrite Hax2, Hax1, Hax0.
    case_decide; [|reflexivity]. destruct (axes s !! i); reflexivity.
  - intros i Hi.
    transitivity (ar_id <$> arrows t3 !! i).
    { specialize (Hcar4 i).
      destruct (arrows t4 !! i), (arrows t3 !! i); cbn in *;
        unfold arrow_core in Hcar4; congruence. }
    rewrite Hiar by assumption. rewrite Har2, Har1, Har0.
    case_decide; [|reflexivity]. destruct (arrows s !! i); reflexivity.
  - assert (Hin4s : inputs t4 = inputs s) by congruence.
    repeat split.
    + unfold inputs in Hin4s. injection Hin4s as _ _ _ _ -> _.
      rewrite Hfm. eauto.
    + right. congruence.
    + unfold sizes_in_sync. congruence.
    + auto.
    + rewrite Hlax4, Hlax3. lia.
Qed.

(** ** What any defined run keeps *)

Lemma stable_refl (s : PathDisplay) : stable s s.
Proof. split; reflexivity. Qed.

Lemma stable_trans (s t u : PathDisplay) : stable s t -> stable t u -> stable s u.
Proof. unfold stable. intros [? ?] [? ?]. split; [congruence | lia]. Qed.

Lemma updateVisual_stable (i : nat) (s t : PathDisplay) :
  updateVisual i s = Some t -> stable s t.
Proof.
  intros Hrun. pose proof (updateVisual_lengths i s t Hrun) as [Hax Har].
  split; [|lia].
  unfold updateVisual in Hrun.
  apply bind_Some in Hrun as (ar' & _ & Hrun).
  apply bind_Some in Hrun as (ax & _ & Hrun).
  apply bind_Some in Hrun as (cs & _ & Hrun).
  injection Hrun as <-. reflexivity.
Qed.

Lemma hide_visual_stable (i : nat) (s t : PathDisplay) :
  hide_visual i s = Some t -> stable s t.
Proof.
  unfold hide_visual. intros Hrun.
  apply bind_Some in Hrun as (ax' & Hax & Hrun).
  apply bind_Some in Hrun as (ar' & Har & Hrun).
  injection Hrun as <-. split; [reflexivity |]. cbn.
  apply vec_modify_length in Hax, Har. lia.
Qed.

Lemma reset_visual_stable (i : nat) (s t : PathDisplay) :
  reset_visual i s = Some t -> stable s t.
Proof.
  unfold reset_visual. intros Hrun.
  apply bind_Some in Hrun as (ar' & Har & Hrun).
  apply bind_Some in Hrun as (ax' & Hax & Hrun).
  injection Hrun as <-. split; [reflexivity |]. cbn.
  apply vec_modify_length in Hax, Har. lia.
Qed.

Lemma with_marker_stable (f : Marker -> Marker) (s t : PathDisplay) :
  with_marker f s = Some t -> stable s t.
Proof.
  unfold with_marker. destruct (rv_geometries (rootVisual s)); [discriminate |].
  intros [= <-]. split; reflexivity.
Qed.

Lemma create_visuals_stable (i : nat) (s t : PathDisplay) :
  create_visuals i s = Some t -> stable s t.
Proof.
  unfold create_visuals. intros Hrun.
  apply updateVisual_stable in Hrun. destruct Hrun as [Hin Hlen].
  split; [exact Hin |]. cbn in Hlen. rewrite !length_app in Hlen. cbn in Hlen.
  lia.
Qed.

Lemma update_pose_stable (i : nat) (s t : PathDisplay) :
  update_pose i s = Some t -> stable s t.
Proof.
  unfold update_pose. intros Hrun.
  apply bind_Some in Hrun as (s1 & Hs1 & Hrun).
  apply bind_Some in Hrun as (m & _ & Hrun).
  apply bind_Some in Hrun as (p & _ & Hrun).
  apply bind_Some in Hrun as (s2 & Hs2 & Hrun).
  apply bind_Some in Hrun as (ax' & Hax & Hrun).
  apply bind_Some in Hrun as (ar' & Har & Hrun).
  injection Hrun as <-.
  assert (H1 : stable s s1).
  { destruct (_ =? _)%Z; [eapply create_visuals_stable; eassumption |].
    injection Hs1 as <-. apply stable_refl. }
  apply with_marker_stable in Hs2.
  apply (stable_trans s s1); [assumption |].
  apply (stable_trans s1 s2); [assumption |].
  split; [reflexivity |]. cbn.
  apply vec_modify_length in Hax, Har. lia.
Qed.

Lemma for_range_stable (body : nat -> PathDisplay -> option PathDisplay)
  (n start : nat) (s t : PathDisplay) :
  (forall i u v, body i u = Some v -> stable u v) ->
  for_range start n body s = Some t -> stable s t.
Proof.
  intros Hbody. apply (for_range_preserves (stable s) body).
  - intros i u v Hu Huv. eapply stable_trans; eauto.
  - apply stable_refl.
Qed.

Lemma update_hide_stable (s t : PathDisplay) : update_hide s = Some t -> stable s t.
Proof.
  unfold update_hide. intros Hrun.
  apply bind_Some in Hrun as (m & _ & Hrun).
  eapply for_range_stable; [|eassumption]. apply hide_visual_stable.
Qed.

Lemma update_poses_stable (s t : PathDisplay) : update_poses s = Some t -> stable s t.
Proof.
  unfold update_poses. intros Hrun.
  apply bind_Some in Hrun as (m & _ & Hrun).
  eapply for_range_stable; [|eassumption]. apply update_pose_stable.
Qed.

Lemma update_dirty_stable (s t : PathDisplay) : update_dirty s = Some t -> stable s t.
Proof.
  unfold update_dirty. destruct (dirty s).
  - intros Hrun. apply bind_Some in Hrun as (u & Hu & Hrun).
    injection Hrun as <-.
    apply (for_range_stable updateVisual) in Hu; [|apply updateVisual_stable].
    exact Hu.
  - intros [= <-]. apply stable_refl.
Qed.

Lemma update_marker_stable (s : PathDisplay) : stable s (update_marker s).
Proof. unfold update_marker. destruct (createMarker s); split; reflexivity. Qed.

Lemma update_frame_stable (s : PathDisplay) :
  match update_frame s with
  | Next t | Ret t => stable s t
  | UB => True
  end.
Proof.
  unfold update_frame.
  destruct (msg s) as [m|]; [|exact I].
  destruct (frameManager s) as [getFramePose|]; [|exact I].
  destruct (getFramePose (frame_id m)) as [visualPose|].
  - destruct (with_marker _ _) as [t|] eqn:Ht; [|exact I].
    apply with_marker_stable in Ht. exact Ht.
  - unfold log_error. destruct (node s); cbn; [|exact I]. split; reflexivity.
Qed.

Lemma reset_body_sizes (s t : PathDisplay) :
  reset_body s = Some t ->
  length (axes t) + length (arrows s) = length (axes s) + length (arrows t).
Proof.
  unfold reset_body. intros Hrun.
  apply bind_Some in Hrun as (u & Hu & Hrun). injection Hrun as <-.
  apply (for_range_stable reset_visual) in Hu; [|apply reset_visual_stable].
  destruct Hu as [_ Hlen]. exact Hlen.
Qed.

(** A property that every instruction of a program preserves holds when the
    program is done. *)
Lemma run_preserves (P : PathDisplay -> Prop) (p : Prog) (s s' : PathDisplay) :
  Forall (instr_preserves P) p -> P s -> run p s = Done s' -> P s'.
Proof.
  intros Hp. revert s. induction Hp as [| i p Hi Hp IH]; intros s Hs; cbn.
  - intros [= <-]. assumption.
  - destruct i as [| | f]; cbn in Hi.
    + destruct (lock s); [discriminate |]. apply IH. auto.
    + apply IH. auto.
    + specialize (Hi s Hs). destruct (f s) as [t | t |].
      * apply IH. assumption.
      * intros [= <-]. assumption.
      * discriminate.
Qed.

Lemma update_stable (s s' : PathDisplay) :
  lock s = false -> run update s = Done s' -> stable s s'.
Proof.
  intros Hlock. unfold update. rewrite run_lock_guard by assumption.
  apply run_preserves; [|apply stable_refl].
  each_instr; intros u Hu.
  - unfold update_nomsg. destruct (msg u); assumption.
  - eapply stable_trans; [eassumption | apply update_marker_stable].
  - pose proof (update_frame_stable u) as Hf.
    destruct (update_frame u); try exact I; eapply stable_trans; eassumption.
  - destruct (update_hide u) as [v|] eqn:Hv; [|exact I].
    eapply stable_trans; [eassumption | apply update_hide_stable, Hv].
  - destruct (update_poses u) as [v|] eqn:Hv; [|exact I].
    eapply stable_trans; [eassumption | apply update_poses_stable, Hv].
  - destruct (update_dirty u) as [v|] eqn:Hv; [|exact I].
    eapply stable_trans; [eassumption | apply update_dirty_stable, Hv].
Qed.

(** * The specification, statement by statement *)

(** C8. When no message is buffered, [update] returns at once and changes
    nothing: the object after the call is the object before it, so no marker
    was recreated, no visual created, hidden or moved. *)
Theorem update_without_message (s : PathDisplay) :
  lock s = false -> msg s = None -> run update s = Done s.
Proof.
  intros Hlock Hmsg. unfold update. rewrite run_lock_guard by assumption.
  cbn. unfold update_nomsg. rewrite Hmsg. reflexivity.
Qed.

(** The object that [update] returns when the frame lookup fails. *)
Lemma update_lookup_failure_run (s : PathDisplay) (m : Path)
  (getFramePose : FrameManager) :
  lock s = false -> msg s = Some m ->
  frameManager s = Some getFramePose ->
  getFramePose (frame_id m) = None ->
  is_Some (node s) ->
  run update s =
  Done (set_rcl_log (rcl_log s ++ ["Unable to get frame pose: " +:+ frame_id m])
          (update_marker s)).
Proof.
  intros Hlock Hmsg Hfm Hpose [n Hnode].
  rewrite (run_update s m Hlock Hmsg).
  unfold update_frame, update_marker, log_error.
  destruct (createMarker s); cbn; rewrite Hmsg, Hfm, Hpose, Hnode; reflexivity.
Qed.

(** C1, amended. When the frame lookup for the buffered message fails,
    [update] logs the error and returns: the message stays buffered, the pose
    of the root visual and all axis and arrow visuals are as before, and so
    are the marker points unless a marker re-creation was pending
    ([createMarker]); a pending re-creation has been carried out before the
    lookup and has left a marker without points. *)
Theorem update_lookup_failure (s : PathDisplay) (m : Path)
  (getFramePose : FrameManager) :
  lock s = false -> msg s = Some m ->
  frameManager s = Some getFramePose ->
  getFramePose (frame_id m) = None ->
  is_Some (node s) ->
  exists s', run update s = Done s' /\
    rcl_log s' = rcl_log s ++ ["Unable to get frame pose: " +:+ frame_id m] /\
    msg s' = Some m /\
    rv_position (rootVisual s') = rv_position (rootVisual s) /\
    rv_rotation (rootVisual s') = rv_rotation (rootVisual s) /\
    axes s' = axes s /\ arrows s' = arrows s /\
    marker_points s' = (if createMarker s then [] else marker_points s) /\
    (createMarker s = false -> scene_state s' = scene_state s).
Proof.
  intros Hlock Hmsg Hfm Hpose Hnode.
  eexists. split; [apply (update_lookup_failure_run s m getFramePose); assumption |].
  unfold update_marker, scene_state, marker_points.
  destruct (createMarker s); cbn; rewrite ?Hmsg; repeat split; discriminate.
Qed.

(** C2, amended. [update] reads the buffered message and leaves it where it
    is: whenever a call returns, scene mutations or not, the buffer holds
    what it held before the call. *)
Theorem update_keeps_message (s s' : PathDisplay) :
  lock s = false -> run update s = Done s' -> msg s' = msg s.
Proof.
  intros Hlock Hrun.
  destruct (update_stable s s' Hlock Hrun) as [Hin _].
  apply inputs_fields in Hin. tauto.
Qed.

(** C4. A successful [update] on a message with N poses, M visuals of each
    kind being there before, leaves max(M, N) axes and max(M, N) arrows.  For
    every i < N the visuals at i carry the i-th pose of the message: the
    axis has the position (x, y, z) and the rotation (w, x, y, z) of the
    pose, read off its [position] and [orientation] members, the arrow the
    same position and that rotation times the turn by the Euler angles
    (0, 1.57, 0).  The visuals at N and beyond are hidden; the first M
    handles denote the visuals they denoted before, and the scene has created
    2 * (max(M, N) - M) visuals, those for the indices M to N - 1.  The count
    does not decrease. *)
Theorem update_visual_count (s : PathDisplay) (m : Path)
  (getFramePose : FrameManager) (visualPose : Pose3d) :
  lock s = false -> msg s = Some m ->
  frameManager s = Some getFramePose ->
  getFramePose (frame_id m) = Some visualPose ->
  update_ready s ->
  (Z.of_nat (length (poses m)) <= INT_MAX)%Z ->
  exists s', run update s = Done s' /\
    length (axes s') = length (axes s) `max` length (poses m) /\
    length (arrows s') = length (arrows s) `max` length (poses m) /\
    length (axes s) <= length (axes s') /\
    length (arrows s) <= length (arrows s') /\
    (forall i p, poses m !! i = Some p ->
       ax_pose <$> axes s' !! i =
         Some (mkPose3
                 (mkVector3 (pt_x (position p)) (pt_y (position p))
                    (pt_z (position p)))
                 (mkQuaternion (or_w (orientation p)) (or_x (orientation p))
                    (or_y (orientation p)) (or_z (orientation p)))) /\
       ar_position <$> arrows s' !! i =
         Some (mkVector3 (pt_x (position p)) (pt_y (position p))
                 (pt_z (position p))) /\
       ar_rotation <$> arrows s' !! i =
         Some (qmul
                 (mkQuaternion (or_w (orientation p)) (or_x (orientation p))
                    (or_y (orientation p)) (or_z (orientation p)))
                 (quat_of_euler (lit 0) (lit (157 # 100)) (lit 0)))) /\
    (forall i, length (poses m) <= i < length (axes s) ->
       ax_visible <$> axes s' !! i = Some false /\
       ar_visible <$> arrows s' !! i = Some false) /\
    (forall i, i < length (axes s) ->
       ax_id <$> axes s' !! i = ax_id <$> axes s !! i /\
       ar_id <$> arrows s' !! i = ar_id <$> arrows s !! i) /\
    scene_created s' =
      scene_created s +
      2 * (length (axes s) `max` length (poses m) - length (axes s)).
Proof.
  intros Hlock Hmsg Hfm Hpose Hready HN.
  assert (Hsync : length (arrows s) = length (axes s)) by apply Hready.
  destruct (update_success s m getFramePose visualPose) as (s' & Hrun & Hpost);
    try assumption.
  destruct Hpost as [_ _ _ _ Hlax Hlar Hcr Hax Har Hhax Hhar Hiax Hiar _].
  exists s'. split; [assumption |]. rewrite Hsync.
  repeat split; try (assumption || lia).
  - destruct (Hax i p) as (a & -> & Hp & _); [assumption |].
    cbn. f_equal. exact Hp.
  - destruct (Har i p) as (a & -> & Hp & _); [assumption |].
    cbn. f_equal. exact Hp.
  - destruct (Har i p) as (a & -> & _ & Hr & _); [assumption |].
    cbn. f_equal. exact Hr.
  - destruct (lookup_lt_is_Some_2 (axes s) i) as [a0 Ha0]; [lia |].
    specialize (Hhax i ltac:(lia)). rewrite Ha0 in Hhax.
    destruct (axes s' !! i) as [a|]; [|discriminate].
    cbn in *. unfold axis_core in Hhax. cbn in Hhax. congruence.
  - destruct (lookup_lt_is_Some_2 (arrows s) i) as [a0 Ha0]; [lia |].
    specialize (Hhar i ltac:(lia)). rewrite Ha0 in Hhar.
    destruct (arrows s' !! i) as [a|]; [|discriminate].
    cbn in *. unfold arrow_core in Hhar. cbn in Hhar. congruence.
  - apply Hiax. assumption.
  - apply Hiar. assumption.
Qed.

(** C9. After a successful [update], at every index covered by the message
    the arrow is visible iff the shape setting is 1 and the axis is visible
    iff it is 2; the two are never visible together. *)
Theorem update_visibility (s : PathDisplay) (m : Path)
  (getFramePose : FrameManager) (visualPose : Pose3d) :
  lock s = false -> msg s = Some m ->
  frameManager s = Some getFramePose ->
  getFramePose (frame_id m) = Some visualPose ->
  update_ready s ->
  (Z.of_nat (length (poses m)) <= INT_MAX)%Z ->
  exists s', run update s = Done s' /\
    forall i, i < length (poses m) ->
      exists ax ar, axes s' !! i = Some ax /\ arrows s' !! i = Some ar /\
        (ar_visible ar = true <-> visualShape s' = 1%Z) /\
        (ax_visible ax = true <-> visualShape s' = 2%Z) /\
        ~ (ar_visible ar = true /\ ax_visible ax = true).
Proof.
  intros Hlock Hmsg Hfm Hpose Hready HN.
  destruct (update_success s m getFramePose visualPose) as (s' & Hrun & Hpost);
    try assumption.
  exists s'. split; [assumption |]. intros i Hi.
  destruct (lookup_lt_is_Some_2 (poses m) i) as [p Hp]; [assumption |].
  destruct (up_axes_shown _ _ _ _ Hpost i p Hp) as (ax & Hax & _ & Hvax & _).
  destruct (up_arrows_shown _ _ _ _ Hpost i p Hp) as (ar & Har & _ & _ & Hvar).
  destruct (inputs_fields _ _ (up_inputs _ _ _ _ Hpost)) as (_ & _ & Hshape & _).
  exists ax, ar. rewrite Hvax, Hvar, Hshape, !bool_decide_eq_true.
  repeat split; try (assumption || tauto).
  intros [H1 H2]. rewrite H1 in H2. discriminate.
Qed.

Lemma stable_sizes (s t : PathDisplay) :
  stable s t -> sizes_in_sync s -> sizes_in_sync t.
Proof. unfold stable, sizes_in_sync. intros [_ ?] ?. lia. Qed.

Lemma update_keeps_sizes : Forall (instr_preserves sizes_in_sync) update.
Proof.
  unfold update, lock_guard. cbn [app]. each_instr; intros u Hu;
    try exact Hu.
  - unfold update_nomsg. destruct (msg u); exact Hu.
  - exact (stable_sizes _ _ (update_marker_stable u) Hu).
  - pose proof (update_frame_stable u) as Hf.
    destruct (update_frame u); try exact I; eapply stable_sizes; eassumption.
  - destruct (update_hide u) as [v|] eqn:Hv; [|exact I].
    exact (stable_sizes _ _ (update_hide_stable _ _ Hv) Hu).
  - destruct (update_poses u) as [v|] eqn:Hv; [|exact I].
    exact (stable_sizes _ _ (update_poses_stable _ _ Hv) Hu).
  - destruct (update_dirty u) as [v|] eqn:Hv; [|exact I].
    exact (stable_sizes _ _ (update_dirty_stable _ _ Hv) Hu).
Qed.

Lemma reset_keeps_sizes (u v : PathDisplay) :
  reset_body u = Some v -> sizes_in_sync u -> sizes_in_sync v.
Proof.
  intros Hv Hu. apply reset_body_sizes in Hv. unfold sizes_in_sync in *. lia.
Qed.

Lemma create_subscription_keeps_sizes (u v : PathDisplay) :
  create_subscription u = Some v -> sizes_in_sync u -> sizes_in_sync v.
Proof.
  unfold create_subscription. destruct (node u); cbn; [|discriminate].
  intros [= <-] Hu. exact Hu.
Qed.

Lemma onRefresh_keeps_sizes (u v : PathDisplay) :
  onRefresh_body u = Some v -> sizes_in_sync u -> sizes_in_sync v.
Proof.
  unfold onRefresh_body. destruct (node u) as [n|]; cbn; [|discriminate].
  destruct (refresh_topics _ _ _) as [[[lst index] position]|]; cbn;
    [|discriminate].
  intros [= <-] Hu. exact Hu.
Qed.

Lemma prog_keeps_sizes (o : Op) :
  Forall (instr_preserves sizes_in_sync) (prog_of o).
Proof.
  destruct o; cbn [prog_of]; try apply update_keeps_sizes;
    unfold eventFilter, initialize, subscribe, unsubscribe, setTopic, setTopicQ,
      callback, reset, setShape, setAxisHeadVisibility, setAxisDimensions,
      setArrowDimensions, setColor, setLineColor, setOffset, setFrameManager,
      onRefresh, updateQoS, LoadConfig, subscribe, unsubscribe, reset,
      onRefresh, lock_guard;
    cbn [app fst].
  all: try (destruct (_ =? _)%Z; [apply update_keeps_sizes | apply Forall_nil_2]).
  all: each_instr; intros u Hu; try exact Hu.
  all: try match goal with
       | |- match match ?f ?x with _ => _ end with _ => _ end =>
           destruct (f x) as [v|] eqn:Hv; [|exact I]
       end.
  all: eauto using reset_keeps_sizes, create_subscription_keeps_sizes,
         onRefresh_keeps_sizes.
  - unfold sizes_in_sync, setColor_body in *. cbn. rewrite length_fmap. exact Hu.
  - destruct (String.eqb (title u) ""); exact Hu.
Qed.

(** C5. The arrow and axis handle vectors are equally long in the object the
    constructor builds, and every public operation that runs to its end
    leaves them equally long if they were. *)
Theorem sizes_in_sync_invariant :
  sizes_in_sync PathDisplay_new /\
  forall (o : Op) (s s' : PathDisplay),
    sizes_in_sync s -> run (prog_of o) s = Done s' -> sizes_in_sync s'.
Proof.
  split; [reflexivity |].
  intros o s s' Hs Hrun.
  exact (run_preserves sizes_in_sync (prog_of o) s s' (prog_keeps_sizes o) Hs Hrun).
Qed.

(** C6. The buffer holds at most one message, the last one received: after
    any sequence of callbacks it holds the message of the last of them, and a
    single callback stores its message whatever the buffer held. *)
Theorem callback_last_write_wins (s : PathDisplay) (ms : list Path) (m : Path) :
  lock s = false ->
  run (callback m) s = Done (set_msg (Some m) s) /\
  exists s', run_all (callback <$> (ms ++ [m])) s = Done s' /\ msg s' = Some m.
Proof.
  intros Hlock. split.
  - unfold callback. rewrite run_lock_guard by assumption. reflexivity.
  - revert s Hlock. induction ms as [|m0 ms IH]; intros s Hlock; cbn [app fmap list_fmap run_all].
    + unfold callback. rewrite run_lock_guard by assumption. cbn.
      eexists. split; reflexivity.
    + unfold callback at 1. rewrite run_lock_guard by assumption. cbn [run act].
      apply IH. exact Hlock.
Qed.

(** C7. [eventFilter] runs [update] exactly when the event is a render event,
    runs nothing otherwise, and returns what [QObject::eventFilter] returns. *)
Theorem eventFilter_render (base : QObject -> QEvent -> bool)
  (_object : QObject) (_event : QEvent) :
  ((eventFilter base _object _event).1 = update <->
   ev_type _event = Render_kType) /\
  ((eventFilter base _object _event).1 = [] <->
   ev_type _event <> Render_kType) /\
  (eventFilter base _object _event).2 = base _object _event.
Proof.
  unfold eventFilter. cbn [fst snd].
  destruct (Z.eqb_spec (ev_type _event) Render_kType) as [Heq | Hne].
  - repeat split; try (auto || discriminate). intros Hn. contradiction.
  - repeat split; try (auto || discriminate). intros Hn. contradiction.
Qed.

(** ** onRefresh *)

Lemma refresh_type_spec (topic cur topicType : string) (acc : RefreshAcc) :
  refresh_inv cur acc ->
  (Z.of_nat (length acc.1.1 +
             length (if decide (topicType = "nav_msgs/msg/Path")
                     then [topic] else [])) <= INT_MAX)%Z ->
  exists acc', refresh_type topic cur acc topicType = Some acc' /\
    refresh_inv cur acc' /\
    acc'.1.1 = acc.1.1 ++
      (if decide (topicType = "nav_msgs/msg/Path") then [topic] else []).
Proof.
  destruct acc as [[lst index] position]. cbn [fst snd refresh_inv].
  intros (Hindex & Hpos & Hin & Hnotin) Hbound. unfold refresh_type.
  destruct (String.eqb_spec topicType "nav_msgs/msg/Path") as [-> | Hne].
  - rewrite decide_True in * by reflexivity. cbn [length] in Hbound.
    destruct (Z.ltb_spec index INT_MAX) as [_ | Hge]; [|lia].
    eexists. split; [reflexivity |]. split; [|reflexivity].
    cbn [refresh_inv]. rewrite length_app. cbn [length].
    split; [lia |].
    destruct (String.eqb_spec topic cur) as [-> | Hcur].
    + split; [lia |]. split.
      * intros _. rewrite Hindex, Nat2Z.id. split.
        -- apply list_lookup_middle. reflexivity.
        -- intros j Hj. rewrite lookup_ge_None_2; [discriminate |].
           rewrite length_app. cbn. lia.
      * intros Hn. exfalso. apply Hn. apply elem_of_app. right.
        apply list_elem_of_singleton. reflexivity.
    + split; [assumption |].
      assert (Hiff : cur ∈ lst ++ [topic] <-> cur ∈ lst).
      { rewrite elem_of_app, list_elem_of_singleton. intuition congruence. }
      split.
      * intros Hc%Hiff. destruct (Hin Hc) as [Hat Hlast]. split.
        -- rewrite lookup_app_l; [assumption |].
           eapply lookup_lt_Some; eassumption.
        -- intros j Hj. destruct (decide (j < length lst)) as [Hlt | Hge].
           ++ rewrite lookup_app_l by assumption. apply Hlast. assumption.
           ++ destruct (decide (j = length lst)) as [-> | Hne'].
              ** rewrite list_lookup_middle by reflexivity. congruence.
              ** rewrite lookup_ge_None_2; [discriminate |].
                 rewrite length_app. cbn. lia.
      * intros Hn. apply Hnotin. intros Hc. apply Hn, Hiff, Hc.
  - rewrite decide_False by assumption. rewrite app_nil_r.
    eexists. split; [reflexivity |]. split; [|reflexivity].
    cbn [refresh_inv]. auto.
Qed.

Lemma refresh_types_spec (topic cur : string) (types : list string)
  (acc : RefreshAcc) :
  refresh_inv cur acc ->
  (Z.of_nat (length acc.1.1 + length (path_entries (topic, types))) <= INT_MAX)%Z ->
  exists acc', refresh_types topic cur types acc = Some acc' /\
    refresh_inv cur acc' /\
    acc'.1.1 = acc.1.1 ++ path_entries (topic, types).
Proof.
  revert acc. unfold path_entries. cbn [fst snd].
  induction types as [|t types IH]; intros acc Hinv Hbound.
  - exists acc. cbn. rewrite app_nil_r. auto.
  - cbn [mbind list_bind] in *. rewrite length_app in Hbound.
    destruct (refresh_type_spec topic cur t acc Hinv) as (acc1 & H1 & Hinv1 & Hl1);
      [lia |].
    destruct (IH acc1 Hinv1) as (acc2 & H2 & Hinv2 & Hl2).
    { rewrite Hl1, length_app. lia. }
    exists acc2. cbn [refresh_types]. rewrite H1. cbn.
    split; [assumption |]. split; [assumption |].
    rewrite Hl2, Hl1, app_assoc. reflexivity.
Qed.

Lemma path_topics_cons (topic : string * list string)
  (topics : list (string * list string)) :
  path_topics (topic :: topics) = path_entries topic ++ path_topics topics.
Proof. reflexivity. Qed.

Lemma refresh_topics_spec (cur : string) (topics : list (string * list string))
  (acc : RefreshAcc) :
  refresh_inv cur acc ->
  (Z.of_nat (length acc.1.1 + length (path_topics topics)) <= INT_MAX)%Z ->
  exists acc', refresh_topics cur topics acc = Some acc' /\
    refresh_inv cur acc' /\
    acc'.1.1 = acc.1.1 ++ path_topics topics.
Proof.
  revert acc. induction topics as [|[topic types] topics IH]; intros acc Hinv Hbound.
  - exists acc. cbn. rewrite app_nil_r. auto.
  - rewrite path_topics_cons in *. rewrite length_app in Hbound.
    destruct (refresh_types_spec topic cur types acc Hinv)
      as (acc1 & H1 & Hinv1 & Hl1); [lia |].
    destruct (IH acc1 Hinv1) as (acc2 & H2 & Hinv2 & Hl2).
    { rewrite Hl1, length_app. lia. }
    exists acc2. cbn [refresh_topics fst snd]. rewrite H1. cbn.
    split; [assumption |]. split; [assumption |].
    rewrite Hl2, Hl1, app_assoc. reflexivity.
Qed.

(** C10. After [onRefresh] the topic list holds one entry for every pair of
    a topic and a type "nav_msgs/msg/Path" that the node reports, in the
    order of enumeration; the index emitted with [setCurrentIndex] is a
    position of the configured topic in that list (the last one, should the
    name be listed more than once), and 0 when the topic is not listed. *)
Theorem onRefresh_topic_list (s : PathDisplay) (n : Node) :
  lock s = false -> node s = Some n ->
  (Z.of_nat (length (path_topics (topic_names_and_types n))) <= INT_MAX)%Z ->
  exists s' position,
    run onRefresh s = Done s' /\
    topicList s' = path_topics (topic_names_and_types n) /\
    emitted s' = emitted s ++ [topicListChanged; setCurrentIndex position] /\
    (topic_name s ∈ topicList s' ->
       (0 <= position)%Z /\
       topicList s' !! Z.to_nat position = Some (topic_name s) /\
       forall j, Z.to_nat position < j ->
         topicList s' !! j <> Some (topic_name s)) /\
    (topic_name s ∉ topicList s' -> position = 0%Z).
Proof.
  intros Hlock Hnode Hbound.
  destruct (refresh_topics_spec (topic_name s) (topic_names_and_types n)
              ([], 0%Z, 0%Z))
    as ([[lst index] position] & Hrun & Hinv & Hlst).
  { cbn. split; [reflexivity |]. split; [lia |].
    split; [intros Hin; inversion Hin | reflexivity]. }
  { cbn. assumption. }
  cbn in Hlst. subst lst.
  destruct Hinv as (_ & Hpos & Hin & Hnotin).
  unfold onRefresh. rewrite run_lock_guard by assumption.
  cbn [run act_opt]. unfold onRefresh_body. rewrite Hnode. cbn.
  rewrite Hrun. cbn.
  eexists _, position. split; [reflexivity |]. cbn.
  split; [reflexivity |].
  split; [rewrite <- app_assoc; reflexivity |].
  split; [|assumption].
  intros Hc. destruct (Hin Hc) as [Hat Hlast]. auto.
Qed.

(** ** The mutex *)

Lemma stable_lock (s t : PathDisplay) : stable s t -> lock t = lock s.
Proof. intros [Hin _]. apply inputs_fields in Hin. tauto. Qed.

Lemma reset_body_lock (s t : PathDisplay) : reset_body s = Some t -> lock t = lock s.
Proof.
  unfold reset_body. intros Hrun.
  apply bind_Some in Hrun as (u & Hu & Hrun). injection Hrun as <-.
  apply (for_range_stable reset_visual) in Hu; [|apply reset_visual_stable].
  cbn. apply stable_lock. assumption.
Qed.

Lemma update_guarded : guarded update.
Proof.
  unfold update. apply guarded_lock. unfold act, act_opt.
  repeat (apply guarded_act; [intros u |]); [.. | apply guarded_nil].
  - unfold update_nomsg. destruct (msg u); reflexivity.
  - apply stable_lock, update_marker_stable.
  - pose proof (update_frame_stable u) as Hf.
    destruct (update_frame u); try exact I; apply stable_lock; assumption.
  - destruct (update_hide u) as [v|] eqn:Hv; [|exact I].
    apply stable_lock, update_hide_stable, Hv.
  - destruct (update_poses u) as [v|] eqn:Hv; [|exact I].
    apply stable_lock, update_poses_stable, Hv.
  - destruct (update_dirty u) as [v|] eqn:Hv; [|exact I].
    apply stable_lock, update_dirty_stable, Hv.
Qed.

Lemma prog_guarded (o : Op) : guarded (prog_of o).
Proof.
  destruct o; cbn [prog_of]; try apply update_guarded;
    unfold eventFilter, initialize, subscribe, unsubscribe, setTopic, setTopicQ,
      callback, reset, setShape, setAxisHeadVisibility, setAxisDimensions,
      setArrowDimensions, setColor, setLineColor, setOffset, setFrameManager,
      onRefresh, updateQoS, LoadConfig, subscribe, unsubscribe, reset,
      onRefresh, lock_guard;
    cbn [app fst].
  all: try (destruct (_ =? _)%Z; [apply update_guarded | apply guarded_nil]).
  all: unfold act, act_opt;
    repeat first
      [ apply guarded_lock | apply guarded_act; [intros u |] | apply guarded_nil ].
  all: try reflexivity.
  all: try match goal with
       | |- match match ?f ?x with _ => _ end with _ => _ end =>
           destruct (f x) as [v|] eqn:Hv; [|exact I]
       end.
  all: try (apply reset_body_lock; assumption).
  all: try (unfold create_subscription in Hv; destruct (node u); cbn in Hv;
            [injection Hv as <-; reflexivity | discriminate]).
  all: try (unfold onRefresh_body in Hv; destruct (node u); cbn in Hv;
            [|discriminate];
            destruct (refresh_topics _ _ _) as [[[lst index] position]|];
            cbn in Hv; [injection Hv as <-; reflexivity | discriminate]).
  destruct (String.eqb (title u) ""); reflexivity.
Qed.

(** No public operation deadlocks on its own lock statements, nested calls
    included, and each leaves the mutex free. *)
Lemma no_self_deadlock (o : Op) (s : PathDisplay) :
  lock s = false ->
  run (prog_of o) s <> Deadlock /\
  forall s', run (prog_of o) s = Done s' -> lock s' = false.
Proof. intros Hlock. apply guarded_run; [apply prog_guarded | assumption]. Qed.

(** ** Well-formed objects

    What [update_ready] asks of the object, apart from a frame manager and
    the bound on the sizes, holds in every object the public operations can
    produce. *)

Lemma updateVisual_children_length (s : PathDisplay) (cs cs' : list Vector3d) :
  for_range 0 3 (updateVisual_child s) cs = Some cs' -> length cs' = length cs.
Proof.
  apply (for_range_preserves (fun l => length l = length cs)); [|reflexivity].
  intros i l l' Hl Hl'. unfold updateVisual_child in Hl'.
  apply vec_modify_length in Hl'. congruence.
Qed.

Lemma updateVisual_well_formed (i : nat) (s t : PathDisplay) :
  updateVisual i s = Some t -> well_formed s -> well_formed t.
Proof.
  intros Hrun (Hsync & Hch & Hmk).
  pose proof (updateVisual_stable i s t Hrun) as Hst.
  unfold updateVisual in Hrun.
  apply bind_Some in Hrun as (ar' & _ & Hrun).
  apply bind_Some in Hrun as (ax & Hax & Hrun).
  apply bind_Some in Hrun as (cs & Hcs & Hrun).
  injection Hrun as <-.
  split; [exact (stable_sizes _ _ Hst Hsync) |]. split; [|exact Hmk].
  cbn. apply Forall_insert; [assumption |]. cbn.
  rewrite (updateVisual_children_length _ _ _ Hcs).
  eapply (proj1 (Forall_lookup _ _)) in Hch; eassumption.
Qed.

Lemma hide_visual_well_formed (i : nat) (s t : PathDisplay) :
  hide_visual i s = Some t -> well_formed s -> well_formed t.
Proof.
  intros Hrun (Hsync & Hch & Hmk).
  pose proof (hide_visual_stable i s t Hrun) as Hst.
  unfold hide_visual in Hrun.
  apply bind_Some in Hrun as (ax' & Hax & Hrun).
  apply bind_Some in Hrun as (ar' & _ & Hrun).
  injection Hrun as <-.
  split; [exact (stable_sizes _ _ Hst Hsync) |]. split; [|exact Hmk].
  cbn. apply vec_modify_inv in Hax as (a & Ha & ->).
  apply Forall_insert; [assumption |]. cbn.
  eapply (proj1 (Forall_lookup _ _)) in Hch; eassumption.
Qed.

Lemma reset_visual_well_formed (i : nat) (s t : PathDisplay) :
  reset_visual i s = Some t -> well_formed s -> well_formed t.
Proof.
  intros Hrun (Hsync & Hch & Hmk).
  pose proof (reset_visual_stable i s t Hrun) as Hst.
  unfold reset_visual in Hrun.
  apply bind_Some in Hrun as (ar' & _ & Hrun).
  apply bind_Some in Hrun as (ax' & Hax & Hrun).
  injection Hrun as <-.
  split; [exact (stable_sizes _ _ Hst Hsync) |]. split; [|exact Hmk].
  cbn. apply vec_modify_inv in Hax as (a & Ha & ->).
  apply Forall_insert; [assumption |]. cbn.
  eapply (proj1 (Forall_lookup _ _)) in Hch; eassumption.
Qed.

Lemma with_marker_well_formed (f : Marker -> Marker) (s t : PathDisplay) :
  with_marker f s = Some t -> well_formed s -> well_formed t.
Proof.
  unfold with_marker. destruct (rv_geometries (rootVisual s)); [discriminate |].
  intros [= <-] (Hsync & Hch & _).
  split; [exact Hsync |]. split; [exact Hch |]. right. discriminate.
Qed.

Lemma create_visuals_well_formed (i : nat) (s t : PathDisplay) :
  create_visuals i s = Some t -> well_formed s -> well_formed t.
Proof.
  unfold create_visuals. intros Hrun (Hsync & Hch & Hmk).
  apply updateVisual_well_formed in Hrun; [exact Hrun |].
  unfold well_formed, sizes_in_sync in *. cbn. rewrite !length_app. cbn.
  split; [lia |]. split.
  - apply Forall_app. split; [assumption |]. repeat constructor.
  - destruct Hmk as [Hmk | Hmk]; [left | right]; assumption.
Qed.

Lemma update_pose_well_formed (i : nat) (s t : PathDisplay) :
  update_pose i s = Some t -> well_formed s -> well_formed t.
Proof.
  unfold update_pose. intros Hrun Hwf.
  apply bind_Some in Hrun as (s1 & Hs1 & Hrun).
  apply bind_Some in Hrun as (m & _ & Hrun).
  apply bind_Some in Hrun as (p & _ & Hrun).
  apply bind_Some in Hrun as (s2 & Hs2 & Hrun).
  apply bind_Some in Hrun as (ax' & Hax & Hrun).
  apply bind_Some in Hrun as (ar' & Har & Hrun).
  injection Hrun as <-.
  assert (H1 : well_formed s1).
  { destruct (_ =? _)%Z; [eapply create_visuals_well_formed; eassumption |].
    injection Hs1 as <-. assumption. }
  apply (with_marker_well_formed _ _ _ Hs2) in H1.
  destruct H1 as (Hsync & Hch & Hmk).
  apply vec_modify_inv in Hax as (a & Ha & ->).
  apply vec_modify_inv in Har as (b & Hb & ->).
  unfold well_formed, sizes_in_sync in *. cbn. rewrite !length_insert.
  split; [assumption |]. split; [|assumption].
  apply Forall_insert; [assumption |]. cbn.
  eapply (proj1 (Forall_lookup _ _)) in Hch; eassumption.
Qed.

Lemma for_range_well_formed (body : nat -> PathDisplay -> option PathDisplay)
  (n start : nat) (s t : PathDisplay) :
  (forall i u v, body i u = Some v -> well_formed u -> well_formed v) ->
  for_range start n body s = Some t -> well_formed s -> well_formed t.
Proof.
  intros Hbody Hrun Hs.
  apply (for_range_preserves well_formed body n start s t); eauto.
Qed.

Lemma update_well_formed : Forall (instr_preserves well_formed) update.
Proof.
  unfold update, lock_guard. cbn [app]. each_instr; intros u Hu;
    try exact Hu.
  - unfold update_nomsg. destruct (msg u); exact Hu.
  - unfold update_marker. destruct (createMarker u); [|exact Hu].
    destruct Hu as (Hsync & Hch & _).
    split; [exact Hsync |]. split; [exact Hch |]. right. discriminate.
  - unfold update_frame.
    destruct (msg u) as [m|]; [|exact I].
    destruct (frameManager u) as [getFramePose|]; [|exact I].
    destruct (getFramePose (frame_id m)) as [visualPose|].
    + destruct (with_marker _ _) as [v|] eqn:Hv; [|exact I].
      apply (with_marker_well_formed _ _ _ Hv). exact Hu.
    + unfold log_error. destruct (node u); cbn; [exact Hu | exact I].
  - destruct (update_hide u) as [v|] eqn:Hv; [|exact I].
    unfold update_hide in Hv. apply bind_Some in Hv as (m & _ & Hv).
    exact (for_range_well_formed _ _ _ _ _ hide_visual_well_formed Hv Hu).
  - destruct (update_poses u) as [v|] eqn:Hv; [|exact I].
    unfold update_poses in Hv. apply bind_Some in Hv as (m & _ & Hv).
    exact (for_range_well_formed _ _ _ _ _ update_pose_well_formed Hv Hu).
  - destruct (update_dirty u) as [v|] eqn:Hv; [|exact I].
    unfold update_dirty in Hv. destruct (dirty u).
    + apply bind_Some in Hv as (w & Hw & Hv). injection Hv as <-.
      exact (for_range_well_formed _ _ _ _ _ updateVisual_well_formed Hw Hu).
    + injection Hv as <-. exact Hu.
Qed.

Lemma reset_well_formed (u v : PathDisplay) :
  reset_body u = Some v -> well_formed u -> well_formed v.
Proof.
  unfold reset_body. intros Hv Hu.
  apply bind_Some in Hv as (w & Hw & Hv). injection Hv as <-.
  exact (for_range_well_formed _ _ _ _ _ reset_visual_well_formed Hw Hu).
Qed.

Lemma create_subscription_well_formed (u v : PathDisplay) :
  create_subscription u = Some v -> well_formed u -> well_formed v.
Proof.
  unfold create_subscription. destruct (node u); cbn; [|discriminate].
  intros [= <-] Hu. exact Hu.
Qed.

Lemma onRefresh_well_formed (u v : PathDisplay) :
  onRefresh_body u = Some v -> well_formed u -> well_formed v.
Proof.
  unfold onRefresh_body. destruct (node u) as [n|]; cbn; [|discriminate].
  destruct (refresh_topics _ _ _) as [[[lst index] position]|]; cbn;
    [|discriminate].
  intros [= <-] Hu. exact Hu.
Qed.

Lemma prog_well_formed (o : Op) : Forall (instr_preserves well_formed) (prog_of o).
Proof.
  destruct o; cbn [prog_of]; try apply update_well_formed;
    unfold eventFilter, initialize, subscribe, unsubscribe, setTopic, setTopicQ,
      callback, reset, setShape, setAxisHeadVisibility, setAxisDimensions,
      setArrowDimensions, setColor, setLineColor, setOffset, setFrameManager,
      onRefresh, updateQoS, LoadConfig, subscribe, unsubscribe, reset,
      onRefresh, lock_guard;
    cbn [app fst].
  all: try (destruct (_ =? _)%Z; [apply update_well_formed | apply Forall_nil_2]).
  all: each_instr; intros u Hu; try exact Hu.
  all: try match goal with
       | |- match match ?f ?x with _ => _ end with _ => _ end =>
           destruct (f x) as [v|] eqn:Hv; [|exact I]
       end.
  all: eauto using reset_well_formed, create_subscription_well_formed,
         onRefresh_well_formed.
  - destruct Hu as (Hsync & Hch & Hmk).
    unfold well_formed, sizes_in_sync, setColor_body in *. cbn.
    rewrite length_fmap. auto.
  - destruct Hu as (Hsync & Hch & _). split; [exact Hsync |].
    split; [exact Hch |]. left. reflexivity.
  - destruct (String.eqb (title u) ""); exact Hu.
Qed.

(** The constructed object is well formed, and so is every object that a
    public operation leaves when it runs to its end on a well-formed one. *)
Lemma well_formed_reachable :
  well_formed PathDisplay_new /\
  forall (o : Op) (s s' : PathDisplay),
    well_formed s -> run (prog_of o) s = Done s' -> well_formed s'.
Proof.
  split.
  - split; [reflexivity |]. split; [constructor | left; reflexivity].
  - intros o s s'. apply run_preserves, prog_well_formed.
Qed.

Lemma well_formed_ready (s : PathDisplay) :
  well_formed s -> is_Some (frameManager s) ->
  (Z.of_nat (length (axes s)) <= INT_MAX)%Z ->
  update_ready s.
Proof. intros (Hsync & Hch & Hmk) Hfm Hbound. repeat split; assumption. Qed.

(** * Further properties of the operations *)

(** ** The steps, inverted *)

Lemma for_range_ind {S : Type} (P : nat -> S -> Prop)
  (body : nat -> S -> option S) (n start : nat) (s s' : S) :
  P start s ->
  (forall i t t', (start <= i < start + n)%nat -> P i t ->
     body i t = Some t' -> P (Datatypes.S i) t') ->
  for_range start n body s = Some s' -> P (start + n)%nat s'.
Proof.
  revert start s. induction n as [|n IH]; intros start s Hs Hbody; simpl.
  - intros [= <-]. rewrite Nat.add_0_r. assumption.
  - destruct (body start s) as [t|] eqn:Ht; simpl; [|discriminate].
    intros Hrun.
    replace (start + Datatypes.S n)%nat with (Datatypes.S start + n)%nat by lia.
    apply (IH (Datatypes.S start) t); [| |assumption].
    + apply (Hbody start s t); [lia | assumption | assumption].
    + intros i u u' Hi. apply Hbody. lia.
Qed.

Lemma hide_visual_inv (i : nat) (s t : PathDisplay) :
  hide_visual i s = Some t ->
  exists ax ar, axes s !! i = Some ax /\ arrows s !! i = Some ar /\
    t = set_arrows (<[i := Arrow_SetVisible false ar]> (arrows s))
          (set_axes (<[i := Axis_SetVisible false ax]> (axes s)) s).
Proof.
  unfold hide_visual. intros Hrun.
  apply bind_Some in Hrun as (ax' & Hax & Hrun).
  apply bind_Some in Hrun as (ar' & Har & Hrun).
  apply vec_modify_inv in Hax as (ax & Hax & ->).
  cbn in Har. apply vec_modify_inv in Har as (ar & Har & ->).
  injection Hrun as <-. eauto.
Qed.

Lemma reset_visual_inv (i : nat) (s t : PathDisplay) :
  reset_visual i s = Some t ->
  exists ax ar, axes s !! i = Some ax /\ arrows s !! i = Some ar /\
    t = set_axes (<[i := Axis_SetLocalPose Pose3d_Zero ax]> (axes s))
          (set_arrows (<[i := Arrow_SetLocalPose Pose3d_Zero ar]> (arrows s)) s).
Proof.
  unfold reset_visual. intros Hrun.
  apply bind_Some in Hrun as (ar' & Har & Hrun).
  apply bind_Some in Hrun as (ax' & Hax & Hrun).
  apply vec_modify_inv in Har as (ar & Har & ->).
  cbn in Hax. apply vec_modify_inv in Hax as (ax & Hax & ->).
  injection Hrun as <-. eauto.
Qed.

Lemma updateVisual_children_inv (s : PathDisplay) (cs cs' : list Vector3d) :
  for_range 0 3 (updateVisual_child s) cs = Some cs' ->
  cs' = replicate 3 (axis_child_scale s) ++ drop 3 cs.
Proof.
  destruct cs as [|c0 [|c1 [|c2 cs]]]; try discriminate.
  intros [= <-]. reflexivity.
Qed.

Lemma updateVisual_inv (i : nat) (s t : PathDisplay) :
  updateVisual i s = Some t ->
  exists ax ar, axes s !! i = Some ax /\ arrows s !! i = Some ar /\
    t = set_axes
          (<[i := Axis_SetChildren
                    (replicate 3 (axis_child_scale s) ++ drop 3 (ax_children ax))
                    ax]> (axes s))
          (set_arrows (<[i := updateVisual_arrow s ar]> (arrows s)) s).
Proof.
  unfold updateVisual. intros Hrun.
  apply bind_Some in Hrun as (ar' & Har & Hrun).
  apply bind_Some in Hrun as (ax & Hax & Hrun).
  apply bind_Some in Hrun as (cs & Hcs & Hrun).
  apply vec_modify_inv in Har as (ar & Har & ->).
  apply updateVisual_children_inv in Hcs as ->.
  injection Hrun as <-. eauto.
Qed.

Lemma with_marker_inv (f : Marker -> Marker) (s t : PathDisplay) :
  with_marker f s = Some t ->
  exists m rest, rv_geometries (rootVisual s) = m :: rest /\
    t = set_rootVisual (Root_SetGeometries (f m :: rest) (rootVisual s)) s.
Proof.
  unfold with_marker. destruct (rv_geometries (rootVisual s)) as [|m rest];
    [discriminate |].
  intros [= <-]. eauto.
Qed.

(** The object with the pair of visuals for a new index appended, before
    [updateVisual] gives them their scales. *)
Lemma create_visuals_inv (i : nat) (s t : PathDisplay) :
  create_visuals i s = Some t ->
  exists s1, updateVisual i s1 = Some t /\
    axes s1 = axes s ++ [Axis_SetVisible false (new_axis (scene_created s))] /\
    arrows s1 =
      arrows s ++
      [Arrow_SetVisible false
         (Arrow_SetMaterial (mat s) (new_arrow (Datatypes.S (scene_created s))))] /\
    rootVisual s1 =
      Root_AddChild (Datatypes.S (scene_created s))
        (Root_AddChild (scene_created s) (rootVisual s)) /\
    scene_created s1 = 2 + scene_created s /\
    settings s1 = settings s /\ inputs s1 = inputs s /\ dirty s1 = dirty s /\
    createMarker s1 = createMarker s.
Proof.
  unfold create_visuals. intros Hrun. eexists. split; [exact Hrun |].
  repeat split.
Qed.

Lemma update_pose_inv (i : nat) (s t : PathDisplay) :
  update_pose i s = Some t ->
  exists s1 m p mk rest ax ar,
    (if (to_int (Z.of_nat (length (axes s))) =? Z.of_nat i)%Z
     then create_visuals i s else Some s) = Some s1 /\
    msg s1 = Some m /\ poses m !! i = Some p /\
    rv_geometries (rootVisual s1) = mk :: rest /\
    axes s1 !! i = Some ax /\ arrows s1 !! i = Some ar /\
    t = set_arrows
          (<[i := Arrow_SetVisible (bool_decide (visualShape s1 = 1%Z))
                    (Arrow_SetLocalRotation (qmul (Rot (localPose p)) arrow_turn)
                       (Arrow_SetLocalPosition (Pos (localPose p)) ar))]>
             (arrows s1))
          (set_axes
             (<[i := Axis_ShowAxisHead
                       (bool_decide (visualShape s1 = 2%Z) && axisHeadVisible s1)
                       (Axis_SetVisible (bool_decide (visualShape s1 = 2%Z))
                          (Axis_SetLocalPose (localPose p) ax))]>
                (axes s1))
             (set_rootVisual
                (Root_SetGeometries
                   (Marker_AddPoint (Pos (localPose p)) (color s1) mk :: rest)
                   (rootVisual s1))
                s1)).
Proof.
  unfold update_pose. intros Hrun.
  apply bind_Some in Hrun as (s1 & Hs1 & Hrun).
  apply bind_Some in Hrun as (m & Hm & Hrun).
  apply bind_Some in Hrun as (p & Hp & Hrun).
  apply bind_Some in Hrun as (s2 & Hs2 & Hrun).
  apply bind_Some in Hrun as (ax' & Hax & Hrun).
  apply bind_Some in Hrun as (ar' & Har & Hrun).
  apply with_marker_inv in Hs2 as (mk & rest & Hmk & ->).
  cbn in Hax, Har.
  apply vec_modify_inv in Hax as (ax & Hax & ->).
  apply vec_modify_inv in Har as (ar & Har & ->).
  injection Hrun as <-.
  exists s1, m, p, mk, rest, ax, ar. repeat split; assumption.
Qed.

(** ** reset *)

Lemma reset_loop (s : PathDisplay) (n : nat) :
  sizes_in_sync s -> n = length (axes s) ->
  for_range 0 n reset_visual s =
  Some (set_axes (Axis_SetLocalPose Pose3d_Zero <$> axes s)
          (set_arrows (Arrow_SetLocalPose Pose3d_Zero <$> arrows s) s)).
Proof.
  intros Hsync ->. unfold sizes_in_sync in Hsync.
  destruct (for_range_total
    (fun k t =>
       t = set_axes (axes t) (set_arrows (arrows t) s) /\
       length (axes t) = length (axes s) /\
       length (arrows t) = length (axes s) /\
       (forall j, axes t !! j =
          if decide (j < k)
          then Axis_SetLocalPose Pose3d_Zero <$> axes s !! j else axes s !! j) /\
       (forall j, arrows t !! j =
          if decide (j < k)
          then Arrow_SetLocalPose Pose3d_Zero <$> arrows s !! j
          else arrows s !! j))
    reset_visual (length (axes s)) 0 s) as (t & Hrun & Ht & Hlax & Hlar & Hax & Har).
  - split; [destruct s; reflexivity |]. split; [reflexivity |].
    split; [assumption |].
    split; intros j; case_decide; (lia || reflexivity).
  - intros k t Hk (Ht & Hlax & Hlar & Hax & Har).
    destruct (lookup_lt_is_Some_2 (axes t) k) as [ax Hk_ax]; [lia |].
    destruct (lookup_lt_is_Some_2 (arrows t) k) as [ar Hk_ar]; [lia |].
    unfold reset_visual.
    rewrite (vec_modify_Some _ _ _ _ Hk_ar). cbn.
    rewrite (vec_modify_Some _ _ _ _ Hk_ax). cbn.
    eexists. split; [reflexivity |]. cbn.
    split; [rewrite Ht; reflexivity |].
    rewrite !length_insert. split; [assumption |]. split; [assumption |].
    split; intros j.
    + destruct (decide (k = j)) as [<- | Hne].
      * rewrite list_lookup_insert_eq by lia. rewrite decide_True by lia.
        specialize (Hax k). rewrite decide_False in Hax by lia.
        rewrite <- Hax, Hk_ax. reflexivity.
      * rewrite list_lookup_insert_ne by assumption. rewrite Hax.
        repeat case_decide; (lia || reflexivity).
    + destruct (decide (k = j)) as [<- | Hne].
      * rewrite list_lookup_insert_eq by lia. rewrite decide_True by lia.
        specialize (Har k). rewrite decide_False in Har by lia.
        rewrite <- Har, Hk_ar. reflexivity.
      * rewrite list_lookup_insert_ne by assumption. rewrite Har.
        repeat case_decide; (lia || reflexivity).
  - rewrite Hrun. f_equal. rewrite Ht. f_equal; [|f_equal].
    + apply list_eq. intros j. rewrite Hax, list_lookup_fmap.
      case_decide; [reflexivity |].
      rewrite (lookup_ge_None_2 (axes s) j) by lia. reflexivity.
    + apply list_eq. intros j. rewrite Har, list_lookup_fmap.
      case_decide; [reflexivity |].
      rewrite (lookup_ge_None_2 (arrows s) j) by lia. reflexivity.
Qed.

(** X1. [reset] empties the buffer and gives every axis and every arrow the
    zero pose.  It changes nothing else: no visual is hidden or removed, and
    the line keeps its points. *)
Theorem reset_moves_to_origin (s : PathDisplay) :
  sizes_in_sync s -> (Z.of_nat (length (axes s)) <= INT_MAX)%Z ->
  exists s', run reset s = Done s' /\
    s' = set_msg None
           (set_axes (Axis_SetLocalPose Pose3d_Zero <$> axes s)
              (set_arrows (Arrow_SetLocalPose Pose3d_Zero <$> arrows s) s)) /\
    msg s' = None /\
    ax_pose <$> axes s' = replicate (length (axes s)) Pose3d_Zero /\
    ar_position <$> arrows s' = replicate (length (arrows s)) Vector3d_Zero /\
    ar_rotation <$> arrows s' = replicate (length (arrows s)) Quaterniond_Identity /\
    ax_visible <$> axes s' = ax_visible <$> axes s /\
    ar_visible <$> arrows s' = ar_visible <$> arrows s /\
    marker_points s' = marker_points s.
Proof.
  intros Hsync Hbound. eexists. split.
  - unfold reset, act_opt, reset_body. cbn [run].
    rewrite (reset_loop s _ Hsync) by (apply to_int_length; assumption).
    reflexivity.
  - split; [reflexivity |]. split; [reflexivity |]. cbn.
    rewrite <- !list_fmap_compose.
    repeat split; try reflexivity.
    + clear. induction (axes s) as [|a l IH]; [reflexivity |].
      cbn. f_equal. exact IH.
    + clear. induction (arrows s) as [|a l IH]; [reflexivity |].
      cbn. f_equal. exact IH.
    + clear. induction (arrows s) as [|a l IH]; [reflexivity |].
      cbn. f_equal. exact IH.
Qed.

(** X2. After [reset] a render event changes nothing: [update] finds the
    buffer empty and returns the object that [reset] left. *)
Theorem reset_then_update (s : PathDisplay) :
  lock s = false -> sizes_in_sync s ->
  (Z.of_nat (length (axes s)) <= INT_MAX)%Z ->
  exists s', run reset s = Done s' /\ run_all [reset; update] s = Done s'.
Proof.
  intros Hlock Hsync Hbound.
  assert (Hrun : run reset s =
    Done (set_msg None
            (set_axes (Axis_SetLocalPose Pose3d_Zero <$> axes s)
               (set_arrows (Arrow_SetLocalPose Pose3d_Zero <$> arrows s) s)))).
  { unfold reset, act_opt, reset_body. cbn [run].
    rewrite (reset_loop s _ Hsync) by (apply to_int_length; assumption).
    reflexivity. }
  eexists. split; [exact Hrun |].
  cbn [run_all]. rewrite Hrun.
  unfold update. rewrite run_lock_guard by exact Hlock. reflexivity.
Qed.

(** ** What update leaves alone *)

Lemma settings_fields (s t : PathDisplay) :
  settings t = settings s ->
  color t = color s /\ mat t = mat s /\
  shaft_scale t = shaft_scale s /\ arrow_origin t = arrow_origin s /\
  head_scale t = head_scale s /\ axis_child_scale t = axis_child_scale s.
Proof.
  unfold settings, shaft_scale, arrow_origin, head_scale, axis_child_scale.
  intros [= -> -> -> -> -> -> -> ->]. repeat split.
Qed.

Lemma quiet_refl (s : PathDisplay) : quiet s s.
Proof. repeat split. Qed.

Lemma quiet_trans (s t u : PathDisplay) : quiet s t -> quiet t u -> quiet s u.
Proof. unfold quiet. intros (? & ? & ? & ?) (? & ? & ? & ?). repeat split; congruence. Qed.

Lemma hide_visual_quiet (i : nat) (s t : PathDisplay) :
  hide_visual i s = Some t -> quiet s t /\ rootVisual t = rootVisual s.
Proof. intros (ax & ar & _ & _ & ->)%hide_visual_inv. repeat split. Qed.

Lemma updateVisual_quiet (i : nat) (s t : PathDisplay) :
  updateVisual i s = Some t -> quiet s t /\ rootVisual t = rootVisual s.
Proof. intros (ax & ar & _ & _ & ->)%updateVisual_inv. repeat split. Qed.

Lemma update_pose_quiet (i : nat) (s t : PathDisplay) :
  update_pose i s = Some t -> quiet s t.
Proof.
  intros (s1 & m & p & mk & rest & ax & ar & Hs1 & _ & _ & _ & _ & _ & ->)%update_pose_inv.
  apply (quiet_trans s s1); [|repeat split].
  destruct (_ =? _)%Z.
  - apply create_visuals_inv in Hs1
      as (s0 & Hs0 & _ & _ & _ & _ & Hset & Hin & Hd & Hcm).
    apply updateVisual_quiet in Hs0 as [Hq _].
    apply (quiet_trans s s0); [|exact Hq]. repeat split; assumption.
  - injection Hs1 as <-. apply quiet_refl.
Qed.

Lemma for_range_quiet (body : nat -> PathDisplay -> option PathDisplay)
  (n start : nat) (s t : PathDisplay) :
  (forall i u v, body i u = Some v -> quiet u v) ->
  for_range start n body s = Some t -> quiet s t.
Proof.
  intros Hbody. apply (for_range_preserves (quiet s) body).
  - intros i u v Hu Huv. eapply quiet_trans; eauto.
  - apply quiet_refl.
Qed.

Lemma for_range_root (body : nat -> PathDisplay -> option PathDisplay)
  (n start : nat) (s t : PathDisplay) :
  (forall i u v, body i u = Some v -> rootVisual v = rootVisual u) ->
  for_range start n body s = Some t -> rootVisual t = rootVisual s.
Proof.
  intros Hbody.
  apply (for_range_preserves (fun u => rootVisual u = rootVisual s) body);
    [|reflexivity].
  intros i u v Hu Huv. rewrite (Hbody i u v Huv). exact Hu.
Qed.

Lemma update_hide_quiet (s t : PathDisplay) :
  update_hide s = Some t -> quiet s t /\ rootVisual t = rootVisual s.
Proof.
  unfold update_hide. intros Hrun.
  apply bind_Some in Hrun as (m & _ & Hrun). split.
  - eapply for_range_quiet; [|eassumption].
    intros i u v Huv. apply (hide_visual_quiet i u v Huv).
  - eapply for_range_root; [|eassumption].
    intros i u v Huv. apply (hide_visual_quiet i u v Huv).
Qed.

Lemma update_poses_quiet (s t : PathDisplay) : update_poses s = Some t -> quiet s t.
Proof.
  unfold update_poses. intros Hrun.
  apply bind_Some in Hrun as (m & _ & Hrun).
  eapply for_range_quiet; [|eassumption]. apply update_pose_quiet.
Qed.

Lemma update_dirty_settings (s t : PathDisplay) :
  update_dirty s = Some t ->
  settings t = settings s /\ inputs t = inputs s /\
  createMarker t = createMarker s /\ rootVisual t = rootVisual s.
Proof.
  unfold update_dirty. destruct (dirty s).
  - intros Hrun. apply bind_Some in Hrun as (u & Hu & Hrun).
    injection Hrun as <-. cbn.
    pose proof (for_range_quiet updateVisual _ _ _ _
                  (fun i a b Hab => proj1 (updateVisual_quiet i a b Hab)) Hu)
      as (Hset & Hin & _ & Hcm).
    pose proof (for_range_root updateVisual _ _ _ _
                  (fun i a b Hab => proj2 (updateVisual_quiet i a b Hab)) Hu).
    repeat split; assumption.
  - intros [= <-]. repeat split.
Qed.

Lemma update_marker_settings (s : PathDisplay) :
  settings (update_marker s) = settings s.
Proof. unfold update_marker. destruct (createMarker s); reflexivity. Qed.

Lemma update_frame_settings (s : PathDisplay) :
  match update_frame s with
  | Next t | Ret t => settings t = settings s
  | UB => True
  end.
Proof.
  unfold update_frame.
  destruct (msg s) as [m|]; [|exact I].
  destruct (frameManager s) as [getFramePose|]; [|exact I].
  destruct (getFramePose (frame_id m)) as [visualPose|].
  - destruct (with_marker _ _) as [t|] eqn:Ht; [|exact I].
    apply with_marker_inv in Ht as (mk & rest & _ & ->). reflexivity.
  - unfold log_error. destruct (node s); cbn; [reflexivity | exact I].
Qed.

Lemma update_settings_kept (s s' : PathDisplay) :
  lock s = false -> run update s = Done s' -> settings s' = settings s.
Proof.
  intros Hlock. unfold update. rewrite run_lock_guard by assumption.
  apply (run_preserves (fun t => settings t = settings s)); [|reflexivity].
  each_instr; intros u Hu.
  - unfold update_nomsg. destruct (msg u); assumption.
  - rewrite update_marker_settings. assumption.
  - pose proof (update_frame_settings u) as Hf.
    destruct (update_frame u); try exact I; congruence.
  - destruct (update_hide u) as [v|] eqn:Hv; [|exact I].
    apply update_hide_quiet in Hv as [(Hset & _) _]. congruence.
  - destruct (update_poses u) as [v|] eqn:Hv; [|exact I].
    apply update_poses_quiet in Hv as (Hset & _). congruence.
  - destruct (update_dirty u) as [v|] eqn:Hv; [|exact I].
    apply update_dirty_settings in Hv as (Hset & _). congruence.
Qed.

(** X3. [update] writes to the scene, to its two flags and to the log, and
    to nothing else.  Colours, dimensions, node, topic, QoS, subscription,
    topic list and title are as before and no signal is emitted; so are the
    mutex, the buffered message, the shape setting, the frame manager and the
    offset.  This holds for every way in which [update] returns. *)
Theorem update_keeps_settings (s s' : PathDisplay) :
  lock s = false -> run update s = Done s' ->
  settings s' = settings s /\ inputs s' = inputs s.
Proof.
  intros Hlock Hrun. split.
  - exact (update_settings_kept s s' Hlock Hrun).
  - apply (update_stable s s' Hlock Hrun).
Qed.


(** ** A successful update, phase by phase *)

Lemma update_phases (s : PathDisplay) (m : Path)
  (getFramePose : FrameManager) (visualPose : Pose3d) (s' : PathDisplay) :
  lock s = false -> msg s = Some m ->
  frameManager s = Some getFramePose ->
  getFramePose (frame_id m) = Some visualPose ->
  createMarker s = true \/ rv_geometries (rootVisual s) <> [] ->
  run update s = Done s' ->
  exists t1 t2 t3,
    update_frame (update_marker s) = Next t1 /\
    update_hide t1 = Some t2 /\ update_poses t2 = Some t3 /\
    update_dirty t3 = Some s' /\
    settings t1 = settings s /\ inputs t1 = inputs s /\ dirty t1 = dirty s /\
    axes t1 = axes s /\ arrows t1 = arrows s /\
    scene_created t1 = scene_created s /\ marker_points t1 = [].
Proof.
  intros Hlock Hm Hfm Hpose Hmarker Hrun.
  rewrite (run_update s m Hlock Hm) in Hrun.
  destruct (update_marker_ready s Hmarker) as [Hgeo _].
  destruct (update_marker_same s) as (Hin0 & Hd0 & Hax0 & Har0 & Hsc0 & _).
  pose proof (update_marker_settings s) as Hset0.
  destruct (inputs_fields _ _ Hin0) as (_ & Hm0 & _ & _).
  destruct (update_frame_found (update_marker s) m getFramePose visualPose)
    as (t1 & Hf & Hin1 & Hd1 & _ & Hax1 & Har1 & Hsc1 & _ & _ & _ & Hpts);
    try assumption.
  { congruence. }
  { unfold inputs in Hin0. congruence. }
  pose proof (update_frame_settings (update_marker s)) as Hset1.
  rewrite Hf in Hrun, Hset1.
  destruct (update_hide t1) as [t2|] eqn:H2; cbn in Hrun; [|discriminate].
  destruct (update_poses t2) as [t3|] eqn:H3; cbn in Hrun; [|discriminate].
  destruct (update_dirty t3) as [t4|] eqn:H4; [|discriminate].
  injection Hrun as <-.
  exists t1, t2, t3. repeat split; congruence.
Qed.

Lemma maybe_create_quiet (i : nat) (s s1 : PathDisplay) :
  (if (to_int (Z.of_nat (length (axes s))) =? Z.of_nat i)%Z
   then create_visuals i s else Some s) = Some s1 ->
  quiet s s1 /\
  rv_geometries (rootVisual s1) = rv_geometries (rootVisual s).
Proof.
  destruct (_ =? _)%Z.
  - intros (s0 & Hs0 & _ & _ & Hroot & _ & Hset & Hin & Hd & Hcm)%create_visuals_inv.
    apply updateVisual_quiet in Hs0 as [Hq Hr]. split.
    + apply (quiet_trans s s0); [|exact Hq]. repeat split; assumption.
    + rewrite Hr, Hroot. reflexivity.
  - intros [= <-]. split; [apply quiet_refl | reflexivity].
Qed.

Lemma update_pose_line (i : nat) (s t : PathDisplay) (m : Path) (p : PoseStamped) :
  update_pose i s = Some t -> msg s = Some m -> poses m !! i = Some p ->
  marker_points t = marker_points s ++ [(Pos (localPose p), color s)].
Proof.
  intros (s1 & m' & p' & mk & rest & ax & ar & Hs1 & Hm' & Hp' & Hmk & _ & _ & ->)%update_pose_inv
    Hm Hp.
  apply maybe_create_quiet in Hs1 as [(Hset & Hin & _) Hgeo].
  apply inputs_fields in Hin as (_ & Hmsg & _).
  assert (m' = m) as -> by congruence.
  assert (p' = p) as -> by congruence.
  apply settings_fields in Hset as (Hcol & _).
  unfold marker_points. cbn. rewrite <- Hgeo, Hmk, Hcol. reflexivity.
Qed.

Lemma update_poses_line (s t : PathDisplay) (m : Path) :
  (Z.of_nat (length (poses m)) <= INT_MAX)%Z ->
  msg s = Some m -> update_poses s = Some t ->
  marker_points t = marker_points s ++ line_of s m.
Proof.
  intros Hbound Hm. unfold update_poses. rewrite Hm. cbn -[for_range].
  rewrite to_int_length by assumption. intros Hrun.
  pose proof (for_range_ind
    (fun k u =>
       quiet s u /\
       marker_points u =
       marker_points s ++
       ((fun p => (Pos (localPose p), color s)) <$> take k (poses m)))
    update_pose (length (poses m)) 0 s t) as Hind.
  destruct Hind as [_ Hpts]; [| |exact Hrun|].
  - split; [apply quiet_refl |]. cbn. rewrite app_nil_r. reflexivity.
  - intros k u u' Hk [Hq Hpts] Hu.
    destruct (lookup_lt_is_Some_2 (poses m) k) as [p Hp]; [lia |].
    split; [eapply quiet_trans; [exact Hq | eapply update_pose_quiet, Hu] |].
    destruct Hq as (Hset & Hin & _).
    apply inputs_fields in Hin as (_ & Hmsg & _).
    apply settings_fields in Hset as (Hcol & _).
    rewrite (update_pose_line k u u' m p Hu) by congruence.
    rewrite Hpts, (take_S_r _ _ _ Hp), fmap_app, <- app_assoc.
    cbn. rewrite Hcol. reflexivity.
  - cbn in Hpts. rewrite take_ge in Hpts by lia. exact Hpts.
Qed.

Lemma update_line_run (s : PathDisplay) (m : Path)
  (getFramePose : FrameManager) (visualPose : Pose3d) (s' : PathDisplay) :
  lock s = false -> msg s = Some m ->
  frameManager s = Some getFramePose ->
  getFramePose (frame_id m) = Some visualPose ->
  createMarker s = true \/ rv_geometries (rootVisual s) <> [] ->
  (Z.of_nat (length (poses m)) <= INT_MAX)%Z ->
  run update s = Done s' -> marker_points s' = line_of s m.
Proof.
  intros Hlock Hm Hfm Hpose Hmarker HN Hrun.
  destruct (update_phases s m getFramePose visualPose s')
    as (t1 & t2 & t3 & _ & H2 & H3 & H4 & Hset1 & Hin1 & _ & _ & _ & _ & Hpts1);
    try assumption.
  apply update_hide_quiet in H2 as [(Hset2 & Hin2 & _) Hroot2].
  apply update_dirty_settings in H4 as (_ & _ & _ & Hroot4).
  assert (Hm2 : msg t2 = Some m).
  { apply inputs_fields in Hin1 as (_ & Hm1 & _).
    apply inputs_fields in Hin2 as (_ & Hm2 & _). congruence. }
  pose proof (update_poses_line t2 t3 m HN Hm2 H3) as Hline.
  unfold marker_points in *. rewrite Hroot4, Hline, Hroot2, Hpts1.
  apply settings_fields in Hset1 as (Hcol1 & _).
  apply settings_fields in Hset2 as (Hcol2 & _).
  unfold line_of. cbn. rewrite Hcol2, Hcol1. reflexivity.
Qed.


(** X5. After a successful [update] the root visual sits at the position of
    the frame of the message moved by the offset, with the rotation of the
    frame. *)
Theorem update_places_root (s : PathDisplay) (m : Path)
  (getFramePose : FrameManager) (visualPose : Pose3d) :
  lock s = false -> msg s = Some m ->
  frameManager s = Some getFramePose ->
  getFramePose (frame_id m) = Some visualPose ->
  update_ready s ->
  (Z.of_nat (length (poses m)) <= INT_MAX)%Z ->
  exists s', run update s = Done s' /\
    rv_position (rootVisual s') = vadd (Pos visualPose) (offset s) /\
    rv_rotation (rootVisual s') = Rot visualPose.
Proof.
  intros Hlock Hm Hfm Hpose Hready HN.
  destruct (update_success s m getFramePose visualPose) as (s' & Hrun & Hpost);
    try assumption.
  exists s'. split; [assumption |].
  split; [apply (up_position _ _ _ _ Hpost) | apply (up_rotation _ _ _ _ Hpost)].
Qed.

(** ** Dimensions *)

Lemma Forall_insert_new {A : Type} (P : A -> Prop) (l : list A) (x y : A) :
  Forall P l -> P y -> Forall P (<[length l := y]> (l ++ [x])).
Proof.
  intros Hl Hy. rewrite insert_app_r_alt by lia.
  rewrite Nat.sub_diag. cbn. apply Forall_app. split; [assumption |].
  repeat constructor. assumption.
Qed.

Lemma hide_visual_scaled (s : PathDisplay) (i : nat) (u v : PathDisplay) :
  hide_visual i u = Some v -> scaled_as s u -> scaled_as s v.
Proof.
  intros (ax & ar & Hax & Har & ->)%hide_visual_inv [Hsar Hsax].
  split; cbn.
  - apply Forall_insert; [assumption |].
    eapply (proj1 (Forall_lookup _ _)) in Hsar; [|exact Har]. exact Hsar.
  - apply Forall_insert; [assumption |].
    eapply (proj1 (Forall_lookup _ _)) in Hsax; [|exact Hax]. exact Hsax.
Qed.

Lemma update_pose_scaled (s : PathDisplay) (i : nat) (u v : PathDisplay) :
  update_pose i u = Some v ->
  settings u = settings s -> sizes_in_sync u ->
  (Z.of_nat (length (axes u)) <= INT_MAX)%Z ->
  scaled_as s u -> scaled_as s v.
Proof.
  intros (s1 & m & p & mk & rest & ax & ar & Hs1 & _ & _ & _ & Hax & Har & ->)%update_pose_inv
    Hset Hsync Hbound [Hsar Hsax].
  unfold sizes_in_sync in Hsync.
  assert (H1 : scaled_as s s1).
  { rewrite to_int_small in Hs1 by lia.
    destruct (Z.eqb_spec (Z.of_nat (length (axes u))) (Z.of_nat i)) as [Heq | _];
      [|injection Hs1 as <-; split; assumption].
    apply Nat2Z.inj in Heq. subst i.
    apply create_visuals_inv in Hs1
      as (s0 & Hs0 & Hax0 & Har0 & _ & _ & Hset0 & _).
    apply updateVisual_inv in Hs0 as (ax0 & ar0 & Hl0 & Hr0 & ->).
    assert (Hset' : settings s0 = settings s) by congruence.
    apply settings_fields in Hset' as (_ & _ & Hsh & Hor & Hhd & Hch).
    rewrite Hax0 in Hl0. rewrite list_lookup_middle in Hl0 by reflexivity.
    injection Hl0 as <-.
    split; cbn.
    - rewrite Har0. rewrite <- Hsync. apply Forall_insert_new; [assumption |].
      unfold arrow_scaled. cbn. rewrite <- Hsh, <- Hor, <- Hhd. repeat split.
    - rewrite Hax0. apply Forall_insert_new; [assumption |].
      unfold axis_scaled. cbn. rewrite Hch. reflexivity. }
  destruct H1 as [Hsar1 Hsax1]. split; cbn.
  - apply Forall_insert; [assumption |].
    eapply (proj1 (Forall_lookup _ _)) in Hsar1; [|exact Har]. exact Hsar1.
  - apply Forall_insert; [assumption |].
    eapply (proj1 (Forall_lookup _ _)) in Hsax1; [|exact Hax]. exact Hsax1.
Qed.

Lemma update_poses_scaled (s t : PathDisplay) (m : Path) :
  (Z.of_nat (length (axes s) `max` length (poses m)) <= INT_MAX)%Z ->
  msg s = Some m -> sizes_in_sync s ->
  Forall (fun a => length (ax_children a) = 3) (axes s) ->
  rv_geometries (rootVisual s) <> [] ->
  update_poses s = Some t -> scaled_as s s -> scaled_as s t.
Proof.
  intros Hbound Hm Hsync Hch Hgeo Hrun Hsc.
  unfold update_poses in Hrun. rewrite Hm in Hrun. cbn -[for_range] in Hrun.
  rewrite to_int_length in Hrun by lia.
  pose proof (for_range_ind
    (fun k u => pose_inv s m k u /\ quiet s u /\ scaled_as s u)
    update_pose (length (poses m)) 0 s t) as Hind.
  apply Hind; [| |exact Hrun].
  - split; [apply pose_inv_start; assumption |].
    split; [apply quiet_refl | assumption].
  - intros k u u' Hk (Hinv & Hq & Hsu) Hu.
    destruct (lookup_lt_is_Some_2 (poses m) k) as [p Hp]; [lia |].
    destruct (update_pose_step s m k u p) as (u'' & Hu'' & Hinv');
      [lia | assumption | assumption | assumption |].
    assert (u'' = u') as -> by congruence.
    split; [assumption |].
    split; [eapply quiet_trans; [exact Hq | eapply update_pose_quiet, Hu] |].
    apply (update_pose_scaled s k u u' Hu); try assumption.
    + apply Hq.
    + unfold sizes_in_sync.
      rewrite (pi_axes_len _ _ _ _ Hinv), (pi_arrows_len _ _ _ _ Hinv).
      reflexivity.
    + rewrite (pi_axes_len _ _ _ _ Hinv). lia.
Qed.

Lemma update_hide_scaled (s u v : PathDisplay) :
  update_hide u = Some v -> scaled_as s u -> scaled_as s v.
Proof.
  unfold update_hide. intros Hrun.
  apply bind_Some in Hrun as (m & _ & Hrun).
  intros Hsc.
  eapply (for_range_preserves (scaled_as s) hide_visual); [|exact Hsc|exact Hrun].
  intros i a b Ha Hab. exact (hide_visual_scaled s i a b Hab Ha).
Qed.

(** A pass of [updateVisual] over the first [n] indices. *)
Lemma updateVisual_pass (s t : PathDisplay) (n : nat) :
  for_range 0 n updateVisual s = Some t ->
  quiet s t /\
  length (axes t) = length (axes s) /\ length (arrows t) = length (arrows s) /\
  (forall j a, j < n -> arrows t !! j = Some a -> arrow_scaled s a) /\
  (forall j a, j < n -> axes t !! j = Some a ->
     take 3 (ax_children a) = replicate 3 (axis_child_scale s)).
Proof.
  intros Hrun.
  apply (for_range_ind
    (fun k u =>
       quiet s u /\
       length (axes u) = length (axes s) /\
       length (arrows u) = length (arrows s) /\
       (forall j a, j < k -> arrows u !! j = Some a -> arrow_scaled s a) /\
       (forall j a, j < k -> axes u !! j = Some a ->
          take 3 (ax_children a) = replicate 3 (axis_child_scale s)))
    updateVisual n 0 s t); [| |exact Hrun].
  - split; [apply quiet_refl |]. repeat split; intros; lia.
  - intros k u u' _ (Hq & Hlax & Hlar & Har & Hax) Hu.
    pose proof (updateVisual_quiet k u u' Hu) as [Hq' _].
    apply updateVisual_inv in Hu as (ax & ar & Hkax & Hkar & ->).
    destruct Hq as (Hset & Hq).
    pose proof (settings_fields _ _ Hset) as (_ & _ & Hsh & Hor & Hhd & Hch).
    split; [eapply quiet_trans; [split; [exact Hset | exact Hq] | exact Hq'] |].
    cbn. rewrite !length_insert.
    split; [assumption |]. split; [assumption |].
    split; intros j a Hj.
    + destruct (decide (k = j)) as [<- | Hne].
      * rewrite list_lookup_insert_eq by (eapply lookup_lt_Some; eassumption).
        intros [= <-]. unfold arrow_scaled. cbn.
        rewrite <- Hsh, <- Hor, <- Hhd. repeat split.
      * rewrite list_lookup_insert_ne by assumption. apply Har. lia.
    + destruct (decide (k = j)) as [<- | Hne].
      * rewrite list_lookup_insert_eq by (eapply lookup_lt_Some; eassumption).
        intros [= <-]. cbn. rewrite Hch. reflexivity.
      * rewrite list_lookup_insert_ne by assumption. apply Hax. lia.
Qed.

Lemma update_scales_run (s : PathDisplay) (m : Path)
  (getFramePose : FrameManager) (visualPose : Pose3d) (s' : PathDisplay) :
  lock s = false -> msg s = Some m ->
  frameManager s = Some getFramePose ->
  getFramePose (frame_id m) = Some visualPose ->
  update_ready s ->
  (Z.of_nat (length (poses m)) <= INT_MAX)%Z ->
  (dirty s = false -> dimensions_applied s) ->
  run update s = Done s' ->
  dirty s' = false /\ dimensions_applied s'.
Proof.
  intros Hlock Hm Hfm Hpose Hready HN Happlied Hrun.
  destruct (update_success s m getFramePose visualPose) as (s0 & Hrun0 & Hpost);
    try assumption.
  assert (s0 = s') as -> by congruence. clear Hrun0.
  split; [apply (up_dirty _ _ _ _ Hpost) |].
  destruct (update_phases s m getFramePose visualPose s')
    as (t1 & t2 & t3 & Hf & H2 & H3 & H4 & Hset1 & Hin1 & Hd1 & Hax1 & Har1 & _);
    try assumption.
  { apply Hready. }
  pose proof (update_hide_quiet t1 t2 H2) as [(Hset2 & Hin2 & Hd2 & _) Hroot2].
  pose proof (update_poses_quiet t2 t3 H3) as (Hset3 & Hin3 & Hd3 & _).
  pose proof (update_dirty_settings t3 s' H4) as (Hset4 & _).
  assert (Hset' : settings s' = settings s) by congruence.
  pose proof (settings_fields _ _ Hset') as (_ & _ & Hsh & Hor & Hhd & Hch).
  assert (Hsame : forall u, scaled_as s u -> scaled_as s' u).
  { intros u [Hua Hux]. split.
    - eapply Forall_impl; [exact Hua |]. intros a.
      unfold arrow_scaled. rewrite Hsh, Hor, Hhd. auto.
    - eapply Forall_impl; [exact Hux |]. intros a.
      unfold axis_scaled. rewrite Hch. auto. }
  destruct Hready as (_ & Hmarker & Hsync & Hchildren & Hbound).
  destruct (update_hide_spec t1 m) as (t2' & H2' & Ht2 & Hlax2 & Hlar2 & Hax2 & _).
  { apply inputs_fields in Hin1 as (_ & Hm1 & _). congruence. }
  { unfold sizes_in_sync in *. congruence. }
  assert (t2' = t2) as -> by congruence.
  destruct (dirty s) eqn:Hdirty.
  - (* a change is pending: the pass over all visuals *)
    unfold update_dirty in H4.
    assert (Hd : dirty t3 = true) by congruence. rewrite Hd in H4.
    apply bind_Some in H4 as (u & Hu & H4). injection H4 as <-.
    apply updateVisual_pass in Hu as (Hq & Hlax & Hlar & Hua & Hux).
    pose proof (up_axes_len _ _ _ _ Hpost) as Hlen'. cbn in Hlen'.
    pose proof (up_arrows_len _ _ _ _ Hpost) as Hlen''. cbn in Hlen''.
    pose proof (up_ready _ _ _ _ Hpost) as (_ & _ & _ & Hch' & _). cbn in Hch'.
    assert (Hn : Z.to_nat (to_int (Z.of_nat (length (axes t3)))) = length (axes u)).
    { rewrite to_int_length by lia. congruence. }
    rewrite Hn in Hua, Hux.
    assert (Hset03 : settings t3 = settings s) by congruence.
    pose proof (settings_fields _ _ Hset03) as (_ & _ & Hsh3 & Hor3 & Hhd3 & Hch3).
    apply Hsame. split; cbn.
    + apply Forall_lookup. intros j a Ha.
      specialize (Hua j a). unfold arrow_scaled in *.
      rewrite <- Hsh3, <- Hor3, <- Hhd3. apply Hua; [|assumption].
      apply lookup_lt_Some in Ha. lia.
    + apply Forall_lookup. intros j a Ha.
      pose proof (proj1 (Forall_lookup _ _) Hch' j a Ha) as Hlen3.
      cbn beta in Hlen3.
      specialize (Hux j a). unfold axis_scaled. rewrite <- Hch3.
      rewrite <- Hux; [|apply lookup_lt_Some in Ha; assumption | assumption].
      rewrite take_ge by lia. reflexivity.
  - (* nothing pending: the new visuals were scaled when created *)
    unfold update_dirty in H4.
    assert (Hd : dirty t3 = false) by congruence. rewrite Hd in H4.
    injection H4 as <-.
    specialize (Happlied eq_refl).
    assert (Hsc1 : scaled_as s t1).
    { destruct Happlied as [Ha Hx]. split; [rewrite Har1 | rewrite Hax1]; assumption. }
    pose proof (update_hide_scaled s t1 t2 H2 Hsc1) as Hsc2.
    assert (Hset02 : settings t2 = settings s) by congruence.
    pose proof (settings_fields _ _ Hset02) as (_ & _ & Hsh2 & Hor2 & Hhd2 & Hch2).
    assert (Hsc22 : scaled_as t2 t2).
    { destruct Hsc2 as [Ha Hx]. split.
      - eapply Forall_impl; [exact Ha |]. intros a.
        unfold arrow_scaled. rewrite Hsh2, Hor2, Hhd2. auto.
      - eapply Forall_impl; [exact Hx |]. intros a.
        unfold axis_scaled. rewrite Hch2. auto. }
    assert (Hm2 : msg t2 = Some m).
    { apply inputs_fields in Hin1 as (_ & Hm1 & _).
      apply inputs_fields in Hin2 as (_ & Hm2 & _). congruence. }
    assert (Hch2' : Forall (fun a => length (ax_children a) = 3) (axes t2)).
    { destruct Hsc22 as [_ Hx]. eapply Forall_impl; [exact Hx |].
      intros a Ha. unfold axis_scaled in Ha. rewrite Ha. reflexivity. }
    pose proof (update_poses_scaled t2 t3 m) as Hp.
    apply Hsame.
    assert (Hsc3 : scaled_as t2 t3).
    { apply Hp; try assumption.
      - rewrite Hlax2, Hax1. lia.
      - unfold sizes_in_sync in *. congruence.
      - destruct (update_marker_ready s Hmarker) as [Hgeo _].
        pose proof (update_frame_found (update_marker s) m getFramePose visualPose)
          as Hff.
        destruct (update_marker_same s) as (Hin0 & _).
        destruct Hff as (t1' & Hf' & _ & _ & _ & _ & _ & _ & _ & _ & Hg1 & _).
        { apply inputs_fields in Hin0 as (_ & Hm0 & _). congruence. }
        { unfold inputs in Hin0. congruence. }
        { assumption. }
        { assumption. }
        assert (t1' = t1) as -> by congruence.
        rewrite Hroot2. assumption. }
    destruct Hsc3 as [Ha Hx]. split.
    + eapply Forall_impl; [exact Ha |]. intros a.
      unfold arrow_scaled. rewrite Hsh2, Hor2, Hhd2. auto.
    + eapply Forall_impl; [exact Hx |]. intros a.
      unfold axis_scaled. rewrite Hch2. auto.
Qed.

(** X6. A successful [update] leaves every axis and every arrow with the
    scales of the current dimensions and clears [dirty]: a change of
    dimensions reaches all visuals, old and new, with the next update, and
    visuals created while no change is pending are given the current
    dimensions at once. *)
Theorem update_applies_dimensions (s : PathDisplay) (m : Path)
  (getFramePose : FrameManager) (visualPose : Pose3d) :
  lock s = false -> msg s = Some m ->
  frameManager s = Some getFramePose ->
  getFramePose (frame_id m) = Some visualPose ->
  update_ready s ->
  (Z.of_nat (length (poses m)) <= INT_MAX)%Z ->
  (dirty s = false -> dimensions_applied s) ->
  exists s', run update s = Done s' /\ dirty s' = false /\
    dimensions_applied s'.
Proof.
  intros Hlock Hm Hfm Hpose Hready HN Happlied.
  destruct (update_success s m getFramePose visualPose) as (s' & Hrun & _);
    try assumption.
  exists s'. split; [assumption |].
  apply (update_scales_run s m getFramePose visualPose s'); assumption.
Qed.

(** ** Invariants of the bookkeeping *)

Lemma fmap_insert_same {A B : Type} (f : A -> B) (l : list A) (i : nat) (x y : A) :
  l !! i = Some x -> f y = f x -> f <$> <[i := y]> l = f <$> l.
Proof.
  intros Hx Hf. rewrite list_fmap_insert, Hf.
  apply list_insert_id. rewrite list_lookup_fmap, Hx. reflexivity.
Qed.

Lemma hide_visual_bookkeeping (i : nat) (s t : PathDisplay) :
  hide_visual i s = Some t -> bookkeeping t = bookkeeping s.
Proof.
  intros (ax & ar & Hax & Har & ->)%hide_visual_inv. unfold bookkeeping. cbn.
  rewrite (fmap_insert_same ax_id _ _ ax) by auto.
  rewrite (fmap_insert_same ar_id _ _ ar) by auto.
  rewrite (fmap_insert_same ar_material _ _ ar) by auto.
  reflexivity.
Qed.

Lemma reset_visual_bookkeeping (i : nat) (s t : PathDisplay) :
  reset_visual i s = Some t -> bookkeeping t = bookkeeping s.
Proof.
  intros (ax & ar & Hax & Har & ->)%reset_visual_inv. unfold bookkeeping. cbn.
  rewrite (fmap_insert_same ax_id _ _ ax) by auto.
  rewrite (fmap_insert_same ar_id _ _ ar) by auto.
  rewrite (fmap_insert_same ar_material _ _ ar) by auto.
  reflexivity.
Qed.

Lemma updateVisual_bookkeeping (i : nat) (s t : PathDisplay) :
  updateVisual i s = Some t -> bookkeeping t = bookkeeping s.
Proof.
  intros (ax & ar & Hax & Har & ->)%updateVisual_inv. unfold bookkeeping. cbn.
  rewrite (fmap_insert_same ax_id _ _ ax) by auto.
  rewrite (fmap_insert_same ar_id _ _ ar) by auto.
  rewrite (fmap_insert_same ar_material _ _ ar) by auto.
  reflexivity.
Qed.

Lemma for_range_bookkeeping (body : nat -> PathDisplay -> option PathDisplay)
  (n start : nat) (s t : PathDisplay) :
  (forall i u v, body i u = Some v -> bookkeeping v = bookkeeping u) ->
  for_range start n body s = Some t -> bookkeeping t = bookkeeping s.
Proof.
  intros Hbody.
  apply (for_range_preserves (fun u => bookkeeping u = bookkeeping s) body);
    [|reflexivity].
  intros i u v Hu Huv. rewrite (Hbody i u v Huv). exact Hu.
Qed.

(** A property of the bookkeeping that the operations maintain: it is kept
    by the creation of a pair of visuals, the re-creation of the marker, a
    change of colour and the request for a new marker. *)
Lemma prog_preserves_bookkeeping (P : PathDisplay -> Prop) :
  (forall s t, bookkeeping t = bookkeeping s -> P s -> P t) ->
  (forall i s t, create_visuals i s = Some t -> P s -> P t) ->
  (forall s, P s -> P (update_marker s)) ->
  (forall c s, P s -> P (setColor_body c s)) ->
  (forall s, P s -> P (set_createMarker true s)) ->
  forall o, Forall (instr_preserves P) (prog_of o).
Proof.
  intros Hbook Hcreate Hmarker Hcolor Hline.
  assert (Hloop : forall body n start u v,
            (forall i a b, body i a = Some b -> bookkeeping b = bookkeeping a) ->
            for_range start n body u = Some v -> P u -> P v).
  { intros body n start u v Hbody Hrun. apply Hbook.
    eapply for_range_bookkeeping; eassumption. }
  assert (Hwith : forall f u v,
            (forall m, (mk_type (f m), mk_material (f m)) = (mk_type m, mk_material m)) ->
            with_marker f u = Some v -> P u -> P v).
  { intros f u v Hf (m & rest & Hm & ->)%with_marker_inv. apply Hbook.
    unfold bookkeeping. cbn. rewrite Hm. cbn. rewrite Hf. reflexivity. }
  assert (Hpose : forall i u v, update_pose i u = Some v -> P u -> P v).
  { intros i u v
      (s1 & m & p & mk & rest & ax & ar & Hs1 & _ & _ & Hmk & Hax & Har & ->)%update_pose_inv
      Hu.
    assert (H1 : P s1).
    { destruct (_ =? _)%Z; [eapply Hcreate; eassumption |].
      injection Hs1 as <-. assumption. }
    revert H1. apply Hbook. unfold bookkeeping. cbn. rewrite Hmk. cbn.
    rewrite (fmap_insert_same ax_id _ _ ax) by auto.
    rewrite (fmap_insert_same ar_id _ _ ar) by auto.
    rewrite (fmap_insert_same ar_material _ _ ar) by auto.
    reflexivity. }
  assert (Hupdate : Forall (instr_preserves P) update).
  { unfold update, lock_guard. cbn [app]. each_instr; intros u Hu.
    - revert Hu. apply Hbook. reflexivity.
    - revert Hu. apply Hbook. reflexivity.
    - unfold update_nomsg. destruct (msg u); exact Hu.
    - apply Hmarker. exact Hu.
    - unfold update_frame.
      destruct (msg u) as [m|]; [|exact I].
      destruct (frameManager u) as [getFramePose|]; [|exact I].
      destruct (getFramePose (frame_id m)) as [visualPose|].
      + destruct (with_marker _ _) as [v|] eqn:Hv; [|exact I].
        apply (Hwith Marker_ClearPoints _ _ (fun _ => eq_refl) Hv).
        revert Hu. apply Hbook. reflexivity.
      + unfold log_error. destruct (node u); cbn; [|exact I].
        revert Hu. apply Hbook. reflexivity.
    - destruct (update_hide u) as [v|] eqn:Hv; [|exact I].
      unfold update_hide in Hv. apply bind_Some in Hv as (m & _ & Hv).
      exact (Hloop _ _ _ _ _ hide_visual_bookkeeping Hv Hu).
    - destruct (update_poses u) as [v|] eqn:Hv; [|exact I].
      unfold update_poses in Hv. apply bind_Some in Hv as (m & _ & Hv).
      apply (for_range_preserves P update_pose _ _ _ _
               (fun i a b Ha Hab => Hpose i a b Hab Ha) Hu Hv).
    - destruct (update_dirty u) as [v|] eqn:Hv; [|exact I].
      unfold update_dirty in Hv. destruct (dirty u).
      + apply bind_Some in Hv as (w & Hw & Hv). injection Hv as <-.
        pose proof (Hloop _ _ _ _ _ updateVisual_bookkeeping Hw Hu) as Hw'.
        revert Hw'. apply Hbook. reflexivity.
      + injection Hv as <-. exact Hu. }
  assert (Hreset : forall u v, reset_body u = Some v -> P u -> P v).
  { unfold reset_body. intros u v Hv Hu.
    apply bind_Some in Hv as (w & Hw & Hv). injection Hv as <-.
    pose proof (Hloop _ _ _ _ _ reset_visual_bookkeeping Hw Hu) as Hw'.
    revert Hw'. apply Hbook. reflexivity. }
  assert (Hsub : forall u v, create_subscription u = Some v -> P u -> P v).
  { unfold create_subscription. intros u v Hv.
    destruct (node u); cbn in Hv; [|discriminate].
    injection Hv as <-. apply Hbook. reflexivity. }
  assert (Hrefresh : forall u v, onRefresh_body u = Some v -> P u -> P v).
  { unfold onRefresh_body. intros u v Hv.
    destruct (node u) as [n|]; cbn in Hv; [|discriminate].
    destruct (refresh_topics _ _ _) as [[[lst index] position]|]; cbn in Hv;
      [|discriminate].
    injection Hv as <-. apply Hbook. reflexivity. }
  intros o.
  destruct o; cbn [prog_of]; try exact Hupdate;
    unfold eventFilter, initialize, subscribe, unsubscribe, setTopic, setTopicQ,
      callback, reset, setShape, setAxisHeadVisibility, setAxisDimensions,
      setArrowDimensions, setColor, setLineColor, setOffset, setFrameManager,
      onRefresh, updateQoS, LoadConfig, subscribe, unsubscribe, reset,
      onRefresh, lock_guard;
    cbn [app fst].
  all: try (destruct (_ =? _)%Z; [exact Hupdate | apply Forall_nil_2]).
  all: each_instr; intros u Hu.
  all: try match goal with
       | |- match match ?f ?x with _ => _ end with _ => _ end =>
           destruct (f x) as [v|] eqn:Hv; [|exact I]
       end.
  all: try (eapply Hsub; eassumption).
  all: try (eapply Hreset; eassumption).
  all: try (eapply Hrefresh; eassumption).
  all: try (apply Hcolor; exact Hu).
  all: try (apply Hline; exact Hu).
  all: try (revert Hu; apply Hbook; reflexivity).
  destruct (String.eqb (title u) ""); [|exact Hu].
  revert Hu. apply Hbook. reflexivity.
Qed.

Lemma bookkeeping_fields (s t : PathDisplay) :
  bookkeeping t = bookkeeping s ->
  ax_id <$> axes t = ax_id <$> axes s /\
  ar_id <$> arrows t = ar_id <$> arrows s /\
  scene_created t = scene_created s /\
  rv_children (rootVisual t) = rv_children (rootVisual s) /\
  ar_material <$> arrows t = ar_material <$> arrows s /\
  mat t = mat s /\
  createMarker t = createMarker s /\
  (fun m => (mk_type m, mk_material m)) <$> rv_geometries (rootVisual t) =
  (fun m => (mk_type m, mk_material m)) <$> rv_geometries (rootVisual s).
Proof.
  intros Hb. repeat split.
  - exact (f_equal (fun b => b.1.1.1.1.1) Hb).
  - exact (f_equal (fun b => b.1.1.1.1.2) Hb).
  - exact (f_equal (fun b => b.1.1.1.2) Hb).
  - exact (f_equal (fun b => b.1.1.2) Hb).
  - exact (f_equal (fun b => b.1.2.1) Hb).
  - exact (f_equal (fun b => b.1.2.2) Hb).
  - exact (f_equal (fun b => b.2.1) Hb).
  - exact (f_equal (fun b => b.2.2) Hb).
Qed.

Lemma bookkeeping_lengths (s t : PathDisplay) :
  bookkeeping t = bookkeeping s ->
  length (axes t) = length (axes s) /\ length (arrows t) = length (arrows s).
Proof.
  intros (Hax & Har & _)%bookkeeping_fields.
  apply (f_equal length) in Hax. apply (f_equal length) in Har.
  rewrite !length_fmap in Hax. rewrite !length_fmap in Har. auto.
Qed.

Lemma create_visuals_bookkeeping (i : nat) (s t : PathDisplay) :
  create_visuals i s = Some t ->
  exists s1, bookkeeping t = bookkeeping s1 /\
    axes s1 = axes s ++ [Axis_SetVisible false (new_axis (scene_created s))] /\
    arrows s1 =
      arrows s ++
      [Arrow_SetVisible false
         (Arrow_SetMaterial (mat s) (new_arrow (Datatypes.S (scene_created s))))] /\
    rootVisual s1 =
      Root_AddChild (Datatypes.S (scene_created s))
        (Root_AddChild (scene_created s) (rootVisual s)) /\
    scene_created s1 = 2 + scene_created s /\
    mat s1 = mat s /\ createMarker s1 = createMarker s.
Proof.
  intros (s1 & Hs1 & Hax & Har & Hroot & Hsc & Hset & _ & _ & Hcm)%create_visuals_inv.
  exists s1. split; [eapply updateVisual_bookkeeping, Hs1 |].
  apply settings_fields in Hset as (_ & Hmat & _). auto 10.
Qed.

(** *** The material of the arrows *)

Lemma materials_preserved (o : Op) :
  Forall (instr_preserves materials_current) (prog_of o).
Proof.
  assert (Hbook : forall s t, bookkeeping t = bookkeeping s ->
            materials_current s -> materials_current t).
  { unfold materials_current.
    intros s t (_ & _ & _ & _ & Hm & Hmat & _)%bookkeeping_fields.
    intros Hs.
    apply (Forall_fmap ar_material (fun x => x = mat t)). rewrite Hm, Hmat.
    apply (Forall_fmap ar_material (fun x => x = mat s)). exact Hs. }
  apply prog_preserves_bookkeeping.
  - exact Hbook.
  - intros i s t (s1 & Hb & _ & Har & _ & _ & Hmat & _)%create_visuals_bookkeeping Hs.
    apply (Hbook s1 t Hb). unfold materials_current in *.
    rewrite Har, Hmat. apply Forall_app. split; [assumption |].
    repeat constructor.
  - intros s. unfold update_marker. destruct (createMarker s); auto.
  - intros c s _. unfold materials_current, setColor_body. cbn.
    apply (Forall_fmap (Arrow_SetMaterial (mkMaterial c c c))
             (fun a => ar_material a = mkMaterial c c c)).
    apply Forall_true. reflexivity.
  - auto.
Qed.

(** X7. Every arrow carries the material of the plugin: this holds in the
    constructed object and after every public operation that runs to its end
    on an object in which it holds.  [setColor] recolours all arrows at once,
    hidden ones included, and [update] gives the material to the arrows it
    creates. *)
Theorem materials_current_invariant :
  materials_current PathDisplay_new /\
  forall (o : Op) (s s' : PathDisplay),
    materials_current s -> run (prog_of o) s = Done s' -> materials_current s'.
Proof.
  split; [constructor |].
  intros o s s'. apply run_preserves, materials_preserved.
Qed.

(** *** The marker *)

Lemma one_marker_kind (s : PathDisplay) :
  one_marker s <->
  match (fun m => (mk_type m, mk_material m)) <$> rv_geometries (rootVisual s) with
  | [] => createMarker s = true
  | [k] => k = (MT_LINE_STRIP, "Default/TransGreen")
  | _ => False
  end.
Proof.
  unfold one_marker.
  destruct (rv_geometries (rootVisual s)) as [|m [|m' rest]]; cbn;
    [reflexivity | | reflexivity].
  split; [intros [-> ->]; reflexivity | intros [= -> ->]; auto].
Qed.

Lemma marker_preserved (o : Op) : Forall (instr_preserves one_marker) (prog_of o).
Proof.
  assert (Hbook : forall s t, bookkeeping t = bookkeeping s ->
            one_marker s -> one_marker t).
  { intros s t (_ & _ & _ & _ & _ & _ & Hcm & Hk)%bookkeeping_fields.
    rewrite !one_marker_kind. rewrite Hk, Hcm. auto. }
  apply prog_preserves_bookkeeping.
  - exact Hbook.
  - intros i s t (s1 & Hb & _ & _ & Hroot & _ & _ & Hcm)%create_visuals_bookkeeping Hs.
    apply (Hbook s1 t Hb). unfold one_marker in *.
    rewrite Hroot, Hcm. exact Hs.
  - intros s Hs. unfold update_marker. destruct (createMarker s); [|exact Hs].
    unfold one_marker. cbn. auto.
  - intros c s Hs. exact Hs.
  - intros s Hs. unfold one_marker in *. cbn.
    destruct (rv_geometries (rootVisual s)) as [|m [|m' rest]]; auto.
Qed.

(** X8. The root visual never holds more than one geometry: none while the
    first marker is still to be created, one line-strip marker afterwards.
    Re-creating the marker replaces the old one. *)
Theorem one_marker_invariant :
  one_marker PathDisplay_new /\
  forall (o : Op) (s s' : PathDisplay),
    one_marker s -> run (prog_of o) s = Done s' -> one_marker s'.
Proof.
  split; [reflexivity |].
  intros o s s'. apply run_preserves, marker_preserved.
Qed.

(** *** The handles *)

Lemma seq_snoc (start n : nat) : seq start (S n) = seq start n ++ [start + n].
Proof. rewrite <- Nat.add_1_r, seq_app. reflexivity. Qed.

Lemma handles_after_create (s s1 : PathDisplay) :
  sizes_in_sync s -> handles_tracked s ->
  axes s1 = axes s ++ [Axis_SetVisible false (new_axis (scene_created s))] ->
  arrows s1 =
    arrows s ++
    [Arrow_SetVisible false
       (Arrow_SetMaterial (mat s) (new_arrow (Datatypes.S (scene_created s))))] ->
  rootVisual s1 =
    Root_AddChild (Datatypes.S (scene_created s))
      (Root_AddChild (scene_created s) (rootVisual s)) ->
  scene_created s1 = 2 + scene_created s ->
  sizes_in_sync s1 /\ handles_tracked s1.
Proof.
  unfold sizes_in_sync, handles_tracked.
  intros Hsync (Hax & Har & Hsc & Hch) Hax1 Har1 Hroot Hsc1.
  assert (Hlax : length (axes s1) = S (length (axes s)))
    by (rewrite Hax1, length_app; cbn; lia).
  assert (Hlar : length (arrows s1) = S (length (axes s)))
    by (rewrite Har1, length_app; cbn; lia).
  rewrite Hlax, Hlar, !seq_snoc, !fmap_app.
  split; [reflexivity |].
  split; [rewrite Hax1, fmap_app, Hax, Hsc; cbn; do 2 f_equal; lia |].
  split; [rewrite Har1, fmap_app, Har, Hsync, Hsc; cbn; do 2 f_equal; lia |].
  split; [lia |].
  replace (2 * S (length (axes s))) with (S (S (2 * length (axes s)))) by lia.
  rewrite Hroot. unfold Root_AddChild, Root_SetChildren. cbn [rv_children].
  rewrite Hch, Hsc, !seq_snoc, <- !app_assoc. cbn [app].
  repeat f_equal; lia.
Qed.

Lemma handles_preserved (o : Op) :
  Forall (instr_preserves (fun s => sizes_in_sync s /\ handles_tracked s))
    (prog_of o).
Proof.
  assert (Hbook : forall s t, bookkeeping t = bookkeeping s ->
            sizes_in_sync s /\ handles_tracked s ->
            sizes_in_sync t /\ handles_tracked t).
  { intros s t Hb [Hsync (Hax & Har & Hsc & Hch)].
    destruct (bookkeeping_lengths s t Hb) as [Hlax Hlar].
    apply bookkeeping_fields in Hb as (Hbax & Hbar & Hbsc & Hbch & _).
    unfold sizes_in_sync, handles_tracked in *.
    rewrite Hbax, Hbar, Hbsc, Hbch, Hlax, Hlar. auto. }
  apply prog_preserves_bookkeeping.
  - exact Hbook.
  - intros i s t
      (s1 & Hb & Hax1 & Har1 & Hroot & Hsc1 & _ & _)%create_visuals_bookkeeping
      [Hsync Hs].
    apply (Hbook s1 t Hb).
    apply (handles_after_create s s1); assumption.
  - intros s Hs. unfold update_marker. destruct (createMarker s); exact Hs.
  - intros c s [Hsync (Hax & Har & Hsc & Hch)].
    unfold sizes_in_sync, handles_tracked, setColor_body in *. cbn.
    rewrite length_fmap, <- list_fmap_compose. auto.
  - auto.
Qed.

(** X9. The vectors hold a handle to every visual the scene has created for
    the plugin, each once and in the order of creation: with n pairs the
    scene has created 2n+1 visuals, the axis and the arrow at index i are the
    visuals 2i+1 and 2i+2, and they are the children of the root.  No visual
    is created without being kept, and none is dropped. *)
Theorem handles_tracked_invariant :
  handles_tracked PathDisplay_new /\
  forall (o : Op) (s s' : PathDisplay),
    sizes_in_sync s -> handles_tracked s -> run (prog_of o) s = Done s' ->
    handles_tracked s'.
Proof.
  split; [repeat split |].
  intros o s s' Hsync Hs Hrun.
  apply (run_preserves _ (prog_of o) s s' (handles_preserved o) (conj Hsync Hs) Hrun).
Qed.

(** ** Subscriptions *)

Lemma run_guard_cons (p : Prog) (s : PathDisplay) :
  lock s = false -> run (ILock :: IUnlock :: p) s = run p s.
Proof. apply (run_lock_guard p s). Qed.

Lemma run_act (f : PathDisplay -> PathDisplay) (p : Prog) (s : PathDisplay) :
  run (act f :: p) s = run p (f s).
Proof. reflexivity. Qed.

Lemma run_act_opt (f : PathDisplay -> option PathDisplay) (p : Prog)
  (s : PathDisplay) :
  run (act_opt f :: p) s =
  match f s with Some t => run p t | None => Undefined end.
Proof. cbn. destruct (f s); reflexivity. Qed.

Lemma create_subscription_node (s : PathDisplay) (n : Node) :
  node s = Some n ->
  create_subscription s =
  Some (set_subscriber (Some (mkSubscription (topic_name s) (qos s))) s).
Proof. intros Hn. unfold create_subscription. rewrite Hn. reflexivity. Qed.




(** X12. [setTopic] with a [std::string] configures the topic, subscribes to
    it with the current QoS and refreshes the topic list, and the index it
    emits is a position of the new topic in the list (0 if the topic is not
    listed).  Unlike the [QString] overload it drops no earlier subscription
    first and keeps buffer and visuals as they are. *)
Theorem setTopic_subscribes_and_refreshes (s : PathDisplay) (n : Node) (t : string) :
  lock s = false -> node s = Some n ->
  (Z.of_nat (length (path_topics (topic_names_and_types n))) <= INT_MAX)%Z ->
  exists s' position, run (setTopic t) s = Done s' /\
    topic_name s' = t /\
    subscriber s' = Some (mkSubscription t (qos s)) /\
    topicList s' = path_topics (topic_names_and_types n) /\
    emitted s' = emitted s ++ [topicListChanged; setCurrentIndex position] /\
    (t ∈ topicList s' ->
       (0 <= position)%Z /\ topicList s' !! Z.to_nat position = Some t) /\
    (t ∉ topicList s' -> position = 0%Z) /\
    msg s' = msg s /\ axes s' = axes s /\ arrows s' = arrows s.
Proof.
  intros Hlock Hnode Hbound.
  destruct (refresh_topics_spec t (topic_names_and_types n) ([], 0%Z, 0%Z))
    as ([[lst index] position] & Hrun & Hinv & Hlst).
  { cbn. split; [reflexivity |]. split; [lia |].
    split; [intros Hin; inversion Hin | reflexivity]. }
  { cbn. assumption. }
  cbn in Hlst. subst lst.
  destruct Hinv as (_ & Hpos & Hin & Hnotin).
  unfold setTopic, subscribe, onRefresh, lock_guard. cbn [app].
  rewrite run_guard_cons, run_act by exact Hlock.
  rewrite run_guard_cons, run_act_opt by exact Hlock.
  rewrite (create_subscription_node _ n) by exact Hnode.
  rewrite run_guard_cons, run_act_opt by exact Hlock.
  unfold onRefresh_body.
  change (node (set_subscriber _ (set_topic_name t s))) with (node s).
  change (topic_name (set_subscriber _ (set_topic_name t s))) with t.
  rewrite Hnode. cbn [mbind option_bind]. rewrite Hrun. cbn [mbind option_bind].
  eexists _, position. split; [reflexivity |]. cbn.
  split; [reflexivity |]. split; [reflexivity |]. split; [reflexivity |].
  split; [rewrite <- app_assoc; reflexivity |].
  split; [intros Hc; destruct (Hin Hc) as [Hat _]; auto |].
  split; [assumption |]. repeat split.
Qed.

(** ** The mutex, for one caller *)

Lemma guarded_unlocked (p : Prog) (s : PathDisplay) :
  guarded p -> lock s = false -> run p s = run (unlocked p) s.
Proof.
  intros Hp. revert s. induction Hp as [| p Hp IH | f p Hf Hp IH]; intros s Hs.
  - reflexivity.
  - rewrite run_guard_cons by assumption. cbn [unlocked]. apply IH. assumption.
  - cbn [unlocked run]. specialize (Hf s). destruct (f s) as [t | t |];
      [|reflexivity | reflexivity].
    apply IH. congruence.
Qed.

(** X13. For a single caller the lock statements do nothing: every public
    operation, nested calls included, computes what it would compute with all
    lock statements removed; it never waits for the mutex it has taken itself
    and it leaves the mutex free. *)
Theorem lock_statements_transparent (o : Op) (s : PathDisplay) :
  lock s = false ->
  run (prog_of o) s = run (unlocked (prog_of o)) s /\
  run (prog_of o) s <> Deadlock /\
  forall s', run (prog_of o) s = Done s' -> lock s' = false.
Proof.
  intros Hlock. split.
  - apply guarded_unlocked; [apply prog_guarded | assumption].
  - apply guarded_run; [apply prog_guarded | assumption].
Qed.

(** ** Settings take effect at the next update *)

Lemma inputs_more (s t : PathDisplay) :
  inputs t = inputs s ->
  frameManager t = frameManager s /\ offset t = offset s.
Proof. unfold inputs. intros [=]. auto. Qed.

(** X14. [setShape] changes no visual by itself.  The [update] that follows
    shows the axes of the poses of the message exactly if the shape is 2 and
    their arrows exactly if it is 1; the heads of the axes show if the shape
    is 2 and head visibility is on. *)
Theorem setShape_shows_on_update (s : PathDisplay) (_shape : Z) (m : Path)
  (getFramePose : FrameManager) (visualPose : Pose3d) :
  lock s = false -> msg s = Some m ->
  frameManager s = Some getFramePose ->
  getFramePose (frame_id m) = Some visualPose ->
  update_ready s ->
  (Z.of_nat (length (poses m)) <= INT_MAX)%Z ->
  exists s1 s', run (setShape _shape) s = Done s1 /\
    axes s1 = axes s /\ arrows s1 = arrows s /\
    rootVisual s1 = rootVisual s /\
    run update s1 = Done s' /\
    Forall (fun a => ax_visible a = bool_decide (_shape = 2%Z) /\
                     ax_head a = bool_decide (_shape = 2%Z) && axisHeadVisible s)
      (take (length (poses m)) (axes s')) /\
    Forall (fun a => ar_visible a = bool_decide (_shape = 1%Z))
      (take (length (poses m)) (arrows s')).
Proof.
  intros Hlock Hm Hfm Hpose Hready HN.
  set (s1 := set_dirty true (set_visualShape _shape s)).
  assert (Hrun1 : run (setShape _shape) s = Done s1).
  { unfold setShape. rewrite run_lock_guard by assumption. reflexivity. }
  destruct (update_success s1 m getFramePose visualPose)
    as (s' & Hrun & Hpost); [exact Hlock | exact Hm | exact Hfm | exact Hpose
                            | exact Hready | exact HN |].
  exists s1, s'. split; [exact Hrun1 |].
  split; [reflexivity |]. split; [reflexivity |]. split; [reflexivity |].
  split; [exact Hrun |]. split.
  - apply Forall_lookup. intros i a Hi.
    apply lookup_take_Some in Hi as [Ha Hlt].
    destruct (lookup_lt_is_Some_2 (poses m) i Hlt) as [p Hp].
    destruct (up_axes_shown _ _ _ _ Hpost i p Hp) as (a' & Ha' & _ & Hvis & Hhead).
    rewrite Ha in Ha'. injection Ha' as <-. split; [exact Hvis | exact Hhead].
  - apply Forall_lookup. intros i a Hi.
    apply lookup_take_Some in Hi as [Ha Hlt].
    destruct (lookup_lt_is_Some_2 (poses m) i Hlt) as [p Hp].
    destruct (up_arrows_shown _ _ _ _ Hpost i p Hp) as (a' & Ha' & _ & _ & Hvis).
    rewrite Ha in Ha'. injection Ha' as <-. exact Hvis.
Qed.


(** X16. [setColor] takes effect at once and on the arrows only: every arrow
    carries the new material, whose three components are the colour; ids,
    poses and visibility of the arrows, the axes, the line with its colour,
    the root visual and both flags are as before. *)
Theorem setColor_repaints_arrows (s : PathDisplay) (_color : Color scalar) :
  lock s = false ->
  exists s', run (setColor _color) s = Done s' /\
    mat s' = mkMaterial _color _color _color /\
    Forall (fun a => ar_material a = mat s') (arrows s') /\
    (fun a => (ar_id a, ar_position a, ar_rotation a, ar_visible a)) <$> arrows s' =
    (fun a => (ar_id a, ar_position a, ar_rotation a, ar_visible a)) <$> arrows s /\
    axes s' = axes s /\ rootVisual s' = rootVisual s /\ color s' = color s /\
    createMarker s' = createMarker s /\ dirty s' = dirty s.
Proof.
  intros Hlock. exists (setColor_body _color s). split.
  { unfold setColor. rewrite run_lock_guard by assumption. reflexivity. }
  unfold setColor_body. cbn. split; [reflexivity |]. split.
  - apply Forall_fmap, Forall_true. intros a. reflexivity.
  - split; [| repeat split].
    rewrite <- list_fmap_compose. apply list_fmap_ext. intros i a _. reflexivity.
Qed.

(** ** Repeated render events *)

Lemma update_marker_keeps (s : PathDisplay) :
  lock (update_marker s) = lock s /\ msg (update_marker s) = msg s /\
  frameManager (update_marker s) = frameManager s /\
  node (update_marker s) = node s /\ rcl_log (update_marker s) = rcl_log s /\
  axes (update_marker s) = axes s /\ arrows (update_marker s) = arrows s /\
  createMarker (update_marker s) = false /\
  (createMarker s = false -> update_marker s = s).
Proof.
  unfold update_marker. destruct (createMarker s) eqn:Hc; cbn; repeat split;
    try assumption; discriminate.
Qed.

(** X17. While the frame of the buffered message stays unknown, every
    [update] logs the same line once more and returns normally.  The message
    stays buffered and no axis or arrow changes; from the first failing
    [update] on no marker re-creation is pending and the root visual is the
    one that this first [update] left. *)
Theorem update_lookup_failure_repeats (s : PathDisplay) (m : Path)
  (getFramePose : FrameManager) (k : nat) :
  lock s = false -> msg s = Some m ->
  frameManager s = Some getFramePose ->
  getFramePose (frame_id m) = None ->
  is_Some (node s) ->
  exists s', run_all (replicate k update) s = Done s' /\
    rcl_log s' =
      rcl_log s ++ replicate k ("Unable to get frame pose: " +:+ frame_id m) /\
    msg s' = Some m /\ axes s' = axes s /\ arrows s' = arrows s /\
    (0 < k -> createMarker s' = false /\
              rootVisual s' = rootVisual (update_marker s)).
Proof.
  revert s. induction k as [|k IH]; intros s Hlock Hm Hfm Hnone Hnode.
  - exists s. cbn. rewrite app_nil_r. repeat split; try assumption; lia.
  - pose proof (update_lookup_failure_run s m getFramePose Hlock Hm Hfm Hnone Hnode)
      as Hrun.
    destruct (update_marker_keeps s)
      as (Hl & Hmsg & Hf & Hn & Hlog & Hax & Har & Hcm & _).
    set (s1 := set_rcl_log
                 (rcl_log s ++ ["Unable to get frame pose: " +:+ frame_id m])
                 (update_marker s)) in *.
    destruct (IH s1) as (s' & Hall & Hlog' & Hmsg' & Hax' & Har' & Hk).
    { cbn. congruence. }
    { cbn. congruence. }
    { cbn. congruence. }
    { assumption. }
    { cbn. rewrite Hn. assumption. }
    exists s'. cbn [replicate run_all]. rewrite Hrun.
    split; [exact Hall |].
    split; [rewrite Hlog'; cbn; rewrite <- app_assoc; reflexivity |].
    split; [assumption |].
    split; [rewrite Hax'; exact Hax |].
    split; [rewrite Har'; exact Har |].
    intros _. destruct k as [|k].
    + cbn in Hall. injection Hall as <-. split; [exact Hcm | reflexivity].
    + destruct Hk as [Hc Hroot]; [lia |]. split; [exact Hc |].
      rewrite Hroot.
      destruct (update_marker_keeps s1) as (_ & _ & _ & _ & _ & _ & _ & _ & Hid).
      rewrite Hid by exact Hcm. reflexivity.
Qed.

(** X18. A second [update] on the same message and the same frame pose
    changes nothing that is shown: root pose, line, and pose and visibility
    of every axis and arrow are those the first [update] left, and no visual
    is created. *)
Theorem update_idempotent (s : PathDisplay) (m : Path)
  (getFramePose : FrameManager) (visualPose : Pose3d) :
  lock s = false -> msg s = Some m ->
  frameManager s = Some getFramePose ->
  getFramePose (frame_id m) = Some visualPose ->
  update_ready s ->
  (Z.of_nat (length (poses m)) <= INT_MAX)%Z ->
  exists s' s'', run update s = Done s' /\ run update s' = Done s'' /\
    scene_state s'' = scene_state s' /\
    scene_created s'' = scene_created s' /\
    length (axes s'') = length (axes s').
Proof.
  intros Hlock Hm Hfm Hpose Hready HN.
  destruct (update_success s m getFramePose visualPose)
    as (s' & Hrun & Hpost); try assumption.
  pose proof (up_inputs _ _ _ _ Hpost) as Hin.
  destruct (inputs_fields _ _ Hin) as (Hlock' & Hm' & Hshape & Hhead).
  destruct (inputs_more _ _ Hin) as (Hfm' & Hoff).
  pose proof (up_ready _ _ _ _ Hpost) as Hready'.
  destruct (update_success s' m getFramePose visualPose)
    as (s'' & Hrun' & Hpost'); try congruence.
  exists s', s''. split; [assumption |]. split; [assumption |].
  pose proof (up_axes_len _ _ _ _ Hpost) as Hlen.
  pose proof (up_axes_len _ _ _ _ Hpost') as Hlen'.
  split; [| split; [rewrite (up_created _ _ _ _ Hpost'); lia | lia]].
  assert (H1 : rv_position (rootVisual s'') = rv_position (rootVisual s')).
  { rewrite (up_position _ _ _ _ Hpost'), (up_position _ _ _ _ Hpost), Hoff.
    reflexivity. }
  assert (H2 : rv_rotation (rootVisual s'') = rv_rotation (rootVisual s')).
  { rewrite (up_rotation _ _ _ _ Hpost'), (up_rotation _ _ _ _ Hpost).
    reflexivity. }
  assert (H3 : marker_points s'' = marker_points s').
  { rewrite (update_line_run s' m getFramePose visualPose s'');
      try congruence; [| apply Hready'].
    rewrite (update_line_run s m getFramePose visualPose s');
      try assumption; [| apply Hready].
    pose proof (update_settings_kept s s' Hlock Hrun) as Hset.
    apply settings_fields in Hset as (Hcol & _).
    unfold line_of. rewrite Hcol. reflexivity. }
  assert (H4 : (fun a => (ax_pose a, ax_visible a)) <$> axes s'' =
               (fun a => (ax_pose a, ax_visible a)) <$> axes s').
  { apply list_eq. intros i. rewrite !list_lookup_fmap.
    destruct (decide (i < length (poses m))) as [Hi | Hi].
    - destruct (lookup_lt_is_Some_2 (poses m) i Hi) as [p Hp].
      destruct (up_axes_shown _ _ _ _ Hpost' i p Hp) as (a2 & Ha2 & Hp2 & Hv2 & _).
      destruct (up_axes_shown _ _ _ _ Hpost i p Hp) as (a1 & Ha1 & Hp1 & Hv1 & _).
      rewrite Ha2, Ha1. cbn. rewrite Hp2, Hp1, Hv2, Hv1, Hshape. reflexivity.
    - pose proof (up_axes_hidden _ _ _ _ Hpost' i ltac:(lia)) as Hh2.
      pose proof (up_axes_hidden _ _ _ _ Hpost i ltac:(lia)) as Hh1.
      destruct (axes s'' !! i) as [a2|], (axes s' !! i) as [a1|],
        (axes s !! i) as [a0|]; cbn in *; try discriminate; try reflexivity.
      unfold axis_core in *. cbn in *.
      injection Hh2 as _ E1 E2 _. injection Hh1 as _ _ E3 _.
      rewrite E1, E2, E3. reflexivity. }
  assert (H5 : (fun a => (ar_position a, ar_rotation a, ar_visible a)) <$> arrows s'' =
               (fun a => (ar_position a, ar_rotation a, ar_visible a)) <$> arrows s').
  { apply list_eq. intros i. rewrite !list_lookup_fmap.
    destruct (decide (i < length (poses m))) as [Hi | Hi].
    - destruct (lookup_lt_is_Some_2 (poses m) i Hi) as [p Hp].
      destruct (up_arrows_shown _ _ _ _ Hpost' i p Hp) as (a2 & Ha2 & Hp2 & Hr2 & Hv2).
      destruct (up_arrows_shown _ _ _ _ Hpost i p Hp) as (a1 & Ha1 & Hp1 & Hr1 & Hv1).
      rewrite Ha2, Ha1. cbn. rewrite Hp2, Hp1, Hr2, Hr1, Hv2, Hv1, Hshape.
      reflexivity.
    - pose proof (up_arrows_hidden _ _ _ _ Hpost' i ltac:(lia)) as Hh2.
      pose proof (up_arrows_hidden _ _ _ _ Hpost i ltac:(lia)) as Hh1.
      destruct (arrows s'' !! i) as [a2|], (arrows s' !! i) as [a1|],
        (arrows s !! i) as [a0|]; cbn in *; try discriminate; try reflexivity.
      unfold arrow_core in *. cbn in *.
      injection Hh2 as _ E1 E2 E3 _. injection Hh1 as _ _ _ E4 _.
      rewrite E1, E2, E3, E4. reflexivity. }
  unfold scene_state. rewrite H1, H2, H3, H4, H5. reflexivity.
Qed.

(** ** The order of initialisation *)

Lemma reset_body_keeps (s v : PathDisplay) :
  reset_body s = Some v -> node v = node s /\ lock v = lock s.
Proof.
  unfold reset_body. intros Hrun.
  apply bind_Some in Hrun as (t & Hloop & [= <-]). cbn.
  eapply (for_range_preserves (fun t => node t = node s /\ lock t = lock s));
    [| | exact Hloop]; [| split; reflexivity].
  intros i u u' [Hn Hl] Hbody.
  apply reset_visual_inv in Hbody as (ax & ar & _ & _ & ->). cbn. auto.
Qed.

(** X19. Without a node nothing that subscribes, lists topics or logs is
    defined: [subscribe], [onRefresh], both overloads of [setTopic] and
    [updateQoS] dereference the null node, and so does an [update] whose
    frame lookup fails.  [initialize] has to come first. *)
Theorem node_required (s : PathDisplay) :
  lock s = false -> node s = None ->
  run subscribe s = Undefined /\ run onRefresh s = Undefined /\
  (forall t, run (setTopic t) s = Undefined) /\
  (forall t, run (setTopicQ t) s = Undefined) /\
  (forall d h r u, run (updateQoS d h r u) s = Undefined) /\
  (forall m getFramePose, msg s = Some m ->
     frameManager s = Some getFramePose ->
     getFramePose (frame_id m) = None -> run update s = Undefined).
Proof.
  intros Hlock Hnode.
  assert (Hsub : forall u, lock u = false -> node u = None ->
                   run subscribe u = Undefined).
  { intros u Hl Hn. unfold subscribe. rewrite run_lock_guard by assumption.
    rewrite run_act_opt. unfold create_subscription. rewrite Hn. reflexivity. }
  split; [apply Hsub; assumption |]. split.
  { unfold onRefresh. rewrite run_lock_guard by assumption.
    rewrite run_act_opt. unfold onRefresh_body. rewrite Hnode. reflexivity. }
  split.
  { intros t. unfold setTopic, subscribe, lock_guard. cbn [app].
    rewrite run_guard_cons, run_act by exact Hlock.
    rewrite run_guard_cons, run_act_opt by exact Hlock.
    unfold create_subscription.
    change (node (set_topic_name t s)) with (node s). rewrite Hnode.
    reflexivity. }
  split.
  { intros t. unfold setTopicQ, unsubscribe, reset, lock_guard. cbn [app].
    rewrite run_guard_cons, run_act by exact Hlock.
    rewrite run_guard_cons, run_act by exact Hlock.
    rewrite run_act_opt.
    destruct (reset_body _) as [v|] eqn:Hv; [| reflexivity].
    apply reset_body_keeps in Hv as [Hn Hl]. cbn in Hn, Hl.
    apply Hsub; congruence. }
  split.
  { intros d h r u. unfold updateQoS, unsubscribe, reset, lock_guard. cbn [app].
    rewrite run_guard_cons, !run_act by exact Hlock.
    rewrite run_guard_cons, run_act by exact Hlock.
    rewrite run_act_opt.
    destruct (reset_body _) as [v|] eqn:Hv; [| reflexivity].
    apply reset_body_keeps in Hv as [Hn Hl]. cbn in Hn, Hl.
    apply Hsub; congruence. }
  intros m getFramePose Hm Hfm Hnone.
  rewrite (run_update s m Hlock Hm).
  destruct (update_marker_keeps s) as (_ & Hmsg & Hf & Hn & _).
  unfold update_frame, log_error. rewrite Hmsg, Hf, Hn, Hm, Hfm, Hnone, Hnode.
  reflexivity.
Qed.

(** X20. With a message buffered and no frame manager set, [update]
    dereferences the null frame manager.  [setFrameManager] has to come
    before the first message is rendered. *)
Theorem frame_manager_required (s : PathDisplay) (m : Path) :
  lock s = false -> msg s = Some m -> frameManager s = None ->
  run update s = Undefined.
Proof.
  intros Hlock Hm Hfm. rewrite (run_update s m Hlock Hm).
  destruct (update_marker_keeps s) as (_ & Hmsg & Hf & _).
  unfold update_frame. rewrite Hmsg, Hf, Hm, Hfm. reflexivity.
Qed.



(** ** Visuals are kept *)

Lemma grown_preserved (s0 : PathDisplay) (o : Op) :
  Forall (instr_preserves (grown s0)) (prog_of o).
Proof.
  apply prog_preserves_bookkeeping.
  - intros s t (Hax & Har & Hsc & Hch & _)%bookkeeping_fields (H1 & H2 & H3 & H4).
    unfold grown. rewrite Hax, Har, Hsc, Hch. auto.
  - intros i s t (s1 & Hb & Hax & Har & Hroot & Hsc & _)%create_visuals_bookkeeping
      (H1 & H2 & H3 & H4).
    apply bookkeeping_fields in Hb as (Hax' & Har' & Hsc' & Hch' & _).
    unfold grown. rewrite Hax', Har', Hsc', Hch', Hax, Har, Hroot, Hsc.
    rewrite !fmap_app. cbn.
    split; [apply prefix_app_r; assumption |].
    split; [apply prefix_app_r; assumption |].
    split; [do 2 apply prefix_app_r; assumption | lia].
  - intros s Hs. unfold update_marker. destruct (createMarker s); exact Hs.
  - intros c s (H1 & H2 & H3 & H4). unfold grown, setColor_body. cbn.
    rewrite <- list_fmap_compose. auto.
  - intros s Hs. exact Hs.
Qed.

(** X23. No public operation destroys or reorders a visual: after an operation
    that runs to its end, the axis and arrow handles held before are the
    first handles held, the children of the root visual before are its first
    children, and the count of created visuals has not gone down.  A shorter
    message hides visuals and leaves them in place. *)
Theorem visuals_never_destroyed (o : Op) (s s' : PathDisplay) :
  run (prog_of o) s = Done s' -> grown s s'.
Proof.
  intros Hrun.
  apply (run_preserves (grown s) (prog_of o) s s' (grown_preserved s o));
    [| exact Hrun].
  repeat split; reflexivity.
Qed.

(** X24. [setOffset] moves nothing by itself.  The [update] that follows puts
    the root visual at the position of the frame of the message moved by the
    new offset. *)
Theorem setOffset_shows_on_update (s : PathDisplay) (_x _y _z : scalar)
  (m : Path) (getFramePose : FrameManager) (visualPose : Pose3d) :
  lock s = false -> msg s = Some m ->
  frameManager s = Some getFramePose ->
  getFramePose (frame_id m) = Some visualPose ->
  update_ready s ->
  (Z.of_nat (length (poses m)) <= INT_MAX)%Z ->
  exists s1 s', run (setOffset _x _y _z) s = Done s1 /\
    rootVisual s1 = rootVisual s /\ axes s1 = axes s /\ arrows s1 = arrows s /\
    dirty s1 = dirty s /\
    run update s1 = Done s' /\
    rv_position (rootVisual s') = vadd (Pos visualPose) (mkVector3 _x _y _z).
Proof.
  intros Hlock Hm Hfm Hpose Hready HN.
  set (s1 := set_offset (mkVector3 _x _y _z) s).
  assert (Hrun1 : run (setOffset _x _y _z) s = Done s1).
  { unfold setOffset. rewrite run_lock_guard by assumption. reflexivity. }
  destruct (update_success s1 m getFramePose visualPose)
    as (s' & Hrun & Hpost); [exact Hlock | exact Hm | exact Hfm | exact Hpose
                            | exact Hready | exact HN |].
  exists s1, s'. split; [exact Hrun1 |].
  split; [reflexivity |]. split; [reflexivity |]. split; [reflexivity |].
  split; [reflexivity |]. split; [exact Hrun |].
  apply (up_position _ _ _ _ Hpost).
Qed.

(** X25. [setAxisHeadVisibility] changes no visual by itself.  After the
    [update] that follows, the heads of the axes of the poses of the message
    show exactly if the shape is 2 and the heads were switched on. *)
Theorem setAxisHeadVisibility_shows_on_update (s : PathDisplay)
  (_visible : bool) (m : Path) (getFramePose : FrameManager)
  (visualPose : Pose3d) :
  lock s = false -> msg s = Some m ->
  frameManager s = Some getFramePose ->
  getFramePose (frame_id m) = Some visualPose ->
  update_ready s ->
  (Z.of_nat (length (poses m)) <= INT_MAX)%Z ->
  exists s1 s', run (setAxisHeadVisibility _visible) s = Done s1 /\
    axes s1 = axes s /\ arrows s1 = arrows s /\
    run update s1 = Done s' /\
    Forall (fun a => ax_head a = bool_decide (visualShape s = 2%Z) && _visible)
      (take (length (poses m)) (axes s')).
Proof.
  intros Hlock Hm Hfm Hpose Hready HN.
  set (s1 := set_dirty true (set_axisHeadVisible _visible s)).
  assert (Hrun1 : run (setAxisHeadVisibility _visible) s = Done s1).
  { unfold setAxisHeadVisibility. rewrite run_lock_guard by assumption.
    reflexivity. }
  destruct (update_success s1 m getFramePose visualPose)
    as (s' & Hrun & Hpost); [exact Hlock | exact Hm | exact Hfm | exact Hpose
                            | exact Hready | exact HN |].
  exists s1, s'. split; [exact Hrun1 |].
  split; [reflexivity |]. split; [reflexivity |]. split; [exact Hrun |].
  apply Forall_lookup. intros i a Hi.
  apply lookup_take_Some in Hi as [Ha Hlt].
  destruct (lookup_lt_is_Some_2 (poses m) i Hlt) as [p Hp].
  destruct (up_axes_shown _ _ _ _ Hpost i p Hp) as (a' & Ha' & _ & _ & Hhead).
  rewrite Ha in Ha'. injection Ha' as <-. exact Hhead.
Qed.

(** X26. [LoadConfig] leaves a title that is not empty: "Path" if there was
    none, and the title there was otherwise, the object being untouched then.
    A second call changes nothing. *)
Theorem LoadConfig_default_title (s : PathDisplay) :
  exists s', run LoadConfig s = Done s' /\
    title s' <> "" /\
    (title s = "" -> title s' = "Path") /\
    (title s <> "" -> s' = s) /\
    run LoadConfig s' = Done s'.
Proof.
  assert (Hrun : forall u, run LoadConfig u =
            Done (if String.eqb (title u) "" then set_title "Path" u else u))
    by reflexivity.
  destruct (String.eqb (title s) "") eqn:He.
  - apply String.eqb_eq in He.
    exists (set_title "Path" s). rewrite !Hrun, He.
    split; [reflexivity |]. split; [cbn; discriminate |].
    split; [reflexivity |]. split; [congruence | reflexivity].
  - exists s. rewrite !Hrun, He. apply String.eqb_neq in He.
    split; [reflexivity |]. split; [assumption |].
    split; [congruence |]. split; reflexivity.
Qed.

End Properties.

(** * Concrete runs *)

Import Sample.

Lemma received_ready : update_ready received.
Proof. apply update_readyb_sound. reflexivity. Qed.

Lemma regrown_ready : update_ready regrown.
Proof. apply update_readyb_sound. reflexivity. Qed.

Lemma bent_ready : update_ready bent.
Proof. apply update_readyb_sound. reflexivity. Qed.

(** C1, as stated, fails: the line colour was changed while two poses were
    on display, then a message in an unknown frame arrived.  The lookup fails
    in [update], the error is logged, and the two marker points are gone. *)
Lemma update_lookup_failure_counterexample :
  lock relit = false /\ msg relit = Some path_lost /\
  frameManager relit = Some frames /\ frames (frame_id path_lost) = None /\
  marker_points relit = [(at_xy 1 0, green); (at_xy 2 1, green)] /\
  exists s', run update relit = Done s' /\
    rcl_log s' = ["Unable to get frame pose: nowhere"] /\
    marker_points s' = [] /\
    scene_state s' <> scene_state relit.
Proof.
  repeat (split; [reflexivity |]).
  eexists. split.
  - apply (update_lookup_failure_run relit path_lost frames);
      [reflexivity .. | exists ros; reflexivity].
  - split; [reflexivity |]. split; [reflexivity |].
    intros Heq. apply (f_equal (fun st => length st.1.1.2)) in Heq.
    change (0 = 2) in Heq. discriminate Heq.
Qed.

Lemma update_lookup_failure_witness :
  exists s', run update lost = Done s' /\
    rcl_log s' = ["Unable to get frame pose: nowhere"] /\
    scene_state s' = scene_state lost.
Proof.
  destruct (update_lookup_failure lost path_lost frames)
    as (s' & Hrun & Hlog & _ & _ & _ & _ & _ & _ & Hscene).
  - reflexivity.
  - reflexivity.
  - reflexivity.
  - reflexivity.
  - exists ros. reflexivity.
  - exists s'. split; [exact Hrun |]. split; [exact Hlog |].
    apply Hscene. reflexivity.
Defined.

(** C2, as stated, fails: [update] creates and shows the visuals for the two
    poses of the message received, and the message is still in the buffer
    afterwards. *)
Lemma update_consumes_counterexample :
  lock received = false /\ msg received = Some path2 /\
  length (axes received) = 0 /\
  exists s', run update received = Done s' /\
    length (axes s') = 2 /\
    scene_state s' <> scene_state received /\
    msg s' = Some path2 /\ msg s' <> None.
Proof.
  repeat (split; [reflexivity |]).
  destruct (update_success received path2 frames Pose3d_Zero)
    as (s' & Hrun & Hpost);
    [reflexivity | reflexivity | reflexivity | reflexivity
    | exact received_ready | vm_compute; discriminate |].
  assert (Hlen : length (axes s') = 2) by exact (up_axes_len _ _ _ _ Hpost).
  destruct (inputs_fields _ _ (up_inputs _ _ _ _ Hpost)) as (_ & Hmsg & _).
  exists s'. split; [exact Hrun |]. split; [exact Hlen |].
  split.
  - intros Heq. apply (f_equal (fun st => length st.1.2)) in Heq.
    unfold scene_state in Heq. cbn [fst snd] in Heq.
    rewrite !length_fmap, Hlen in Heq.
    change (2 = 0) in Heq. discriminate Heq.
  - rewrite Hmsg. split; [reflexivity | discriminate].
Qed.

Lemma update_keeps_message_witness :
  exists s', run update received = Done s' /\ msg s' = Some path2.
Proof.
  destruct (update_success received path2 frames Pose3d_Zero)
    as (s' & Hrun & _);
    [reflexivity | reflexivity | reflexivity | reflexivity
    | exact received_ready | vm_compute; discriminate |].
  exists s'. split; [exact Hrun |].
  rewrite (update_keeps_message received s' eq_refl Hrun). reflexivity.
Defined.

Lemma update_without_message_witness : run update started = Done started.
Proof. apply update_without_message; reflexivity. Defined.

Lemma update_visual_count_witness :
  exists s', run update bent = Done s' /\
    length (axes s') = 3 /\ length (arrows s') = 3 /\
    scene_created s' = 7 /\
    ax_pose <$> axes s' !! 0 =
      Some (mkPose3 (mkVector3 1%Q 0%Q 0%Q) (mkQuaternion 1%Q 0%Q 0%Q 0%Q)) /\
    ax_pose <$> axes s' !! 2 =
      Some (mkPose3 (mkVector3 3%Q 3%Q (1 # 2))
              (mkQuaternion (8 # 10) 0%Q 0%Q (6 # 10))) /\
    ar_position <$> arrows s' !! 2 = Some (mkVector3 3%Q 3%Q (1 # 2)).
Proof.
  destruct (update_visual_count bent path_bend frames Pose3d_Zero)
    as (s' & Hrun & Hax & Har & _ & _ & Hposes & _ & _ & Hcr).
  - reflexivity.
  - reflexivity.
  - reflexivity.
  - reflexivity.
  - exact bent_ready.
  - vm_compute. discriminate.
  - destruct (Hposes 0 (pose_at 1 0) eq_refl) as (Hp0 & _ & _).
    destruct (Hposes 2 (pose_turned 3 3) eq_refl) as (Hp2 & Hq2 & _).
    exists s'. split; [exact Hrun |]. split; [exact Hax |].
    split; [exact Har |]. split; [exact Hcr |].
    split; [exact Hp0 |]. split; [exact Hp2 | exact Hq2].
Defined.

Lemma update_visibility_witness :
  exists s', run update regrown = Done s' /\
    exists ax ar, axes s' !! 2 = Some ax /\ arrows s' !! 2 = Some ar /\
      ~ (ar_visible ar = true /\ ax_visible ax = true).
Proof.
  destruct (update_visibility regrown path3 frames Pose3d_Zero)
    as (s' & Hrun & Hvis).
  - reflexivity.
  - reflexivity.
  - reflexivity.
  - reflexivity.
  - exact regrown_ready.
  - vm_compute. discriminate.
  - exists s'. split; [exact Hrun |].
    destruct (Hvis 2) as (ax & ar & Hax & Har & _ & _ & Hnot).
    + vm_compute. lia.
    + exists ax, ar. auto.
Defined.

Lemma sizes_in_sync_invariant_witness :
  exists s', run update regrown = Done s' /\ sizes_in_sync s'.
Proof.
  destruct (update_success regrown path3 frames Pose3d_Zero)
    as (s' & Hrun & _);
    [reflexivity | reflexivity | reflexivity | reflexivity
    | exact regrown_ready | vm_compute; discriminate |].
  exists s'. split; [exact Hrun |].
  apply (proj2 sizes_in_sync_invariant OpUpdate regrown s');
    [reflexivity | exact Hrun].
Defined.

Lemma callback_last_write_wins_witness :
  exists s', run_all (callback <$> [path2; path0; path3]) started = Done s' /\
             msg s' = Some path3.
Proof.
  apply (callback_last_write_wins started [path2; path0] path3). reflexivity.
Defined.

Lemma onRefresh_topic_list_witness :
  exists s', run onRefresh started = Done s' /\
    topicList s' = ["/plan"; "/trail"] /\
    emitted s' = emitted started ++ [topicListChanged; setCurrentIndex 1].
Proof.
  destruct (onRefresh_topic_list started ros)
    as (s' & position & Hrun & Hlist & Hemit & Hin & _).
  - reflexivity.
  - reflexivity.
  - vm_compute. discriminate.
  - exists s'. split; [exact Hrun |]. split; [exact Hlist |].
    rewrite Hemit. repeat f_equal.
    destruct Hin as (Hpos & Hat & _).
    + rewrite Hlist. apply list_elem_of_In. right. left. reflexivity.
    + rewrite Hlist in Hat.
      change (["/plan"; "/trail"] !! Z.to_nat position = Some "/trail") in Hat.
      destruct (Z.to_nat position) as [|[|k]] eqn:Hk;
        [discriminate Hat | lia | discriminate Hat].
Defined.

(** C3 on the code: [update] and the callback are not serialized.  Two poses
    are on display as axes when [update] runs on one thread and a callback
    with an empty path on another.  Every lock statement has released the
    mutex by the time it ends, so the callback gets the mutex while [update]
    is between its two loops, and replaces the message there.  [update] has
    cleared the marker and has hidden nothing, for the old message, and now
    shows no pose, for the new one: both axes stay visible on an empty line.
    Run one after the other, in either order, the two calls never leave that
    on display. *)
Theorem update_callback_race :
  seen shown =
    (Some path2, [true; true], [false; false],
     [(at_xy 1 0, green); (at_xy 2 1, green)]) /\
  fst <$> run_schedule racing [update; callback path0] shown = Some [[]; []] /\
  seen ∘ snd <$> run_schedule racing [update; callback path0] shown =
    Some (Some path0, [true; true], [false; false], []) /\
  seen <$> result (run_all [update; callback path0] shown) =
    Some (Some path0, [true; true], [false; false],
          [(at_xy 1 0, green); (at_xy 2 1, green)]) /\
  seen <$> result (run_all [callback path0; update] shown) =
    Some (Some path0, [false; false], [false; false], []).
Proof. repeat split; reflexivity. Qed.

(** ** Further concrete runs *)

Lemma resized_ready : update_ready resized.
Proof. apply update_readyb_sound. reflexivity. Qed.

Lemma regrown_update : exists s', run update regrown = Done s'.
Proof.
  destruct (update_success regrown path3 frames Pose3d_Zero)
    as (s' & Hrun & _);
    [reflexivity | reflexivity | reflexivity | reflexivity
    | exact regrown_ready | vm_compute; discriminate |].
  exists s'. exact Hrun.
Qed.

Lemma from_ops_preserves (P : PathDisplay -> Prop) :
  (forall (o : Op) (s s' : PathDisplay),
     P s -> run (prog_of o) s = Done s' -> P s') ->
  forall (ops : list Op) (s : PathDisplay),
    P s -> ran ops s = true -> P (from_ops ops s).
Proof.
  intros Hstep ops s Hs Hran. unfold ran in Hran. unfold from_ops.
  destruct (after ops s) as [s'|] eqn:Hafter; [| discriminate]. cbn.
  clear Hran. revert s Hs Hafter.
  induction ops as [| o ops IH]; intros s Hs Hafter; cbn in Hafter.
  - congruence.
  - destruct (run (prog_of o) s) as [t | |] eqn:Hrun; try discriminate.
    apply (IH t); [eapply Hstep; eassumption | assumption].
Qed.

Lemma reset_moves_to_origin_witness :
  exists s', run reset regrown = Done s' /\ msg s' = None /\
    ax_pose <$> axes s' = [Pose3d_Zero; Pose3d_Zero] /\
    ax_visible <$> axes s' = ax_visible <$> axes regrown.
Proof.
  destruct (reset_moves_to_origin regrown)
    as (s' & Hrun & _ & Hmsg & Hax & _ & _ & Hvis & _).
  - reflexivity.
  - vm_compute. discriminate.
  - exists s'. split; [exact Hrun |]. split; [exact Hmsg |].
    split; [exact Hax | exact Hvis].
Defined.

Lemma reset_then_update_witness :
  exists s', run reset regrown = Done s' /\
    run_all [reset; update] regrown = Done s'.
Proof.
  apply (reset_then_update regrown).
  - reflexivity.
  - reflexivity.
  - vm_compute. discriminate.
Defined.

Lemma update_keeps_settings_witness :
  exists s', run update regrown = Done s' /\
    settings s' = settings regrown /\ inputs s' = inputs regrown.
Proof.
  destruct regrown_update as (s' & Hrun).
  exists s'. split; [exact Hrun |].
  apply (update_keeps_settings regrown s'); [reflexivity | exact Hrun].
Defined.


Lemma update_places_root_witness :
  exists s', run update regrown = Done s' /\
    rv_position (rootVisual s') = q_vadd Vector3d_Zero Vector3d_Zero /\
    rv_rotation (rootVisual s') = Quaterniond_Identity.
Proof.
  destruct (update_places_root regrown path3 frames Pose3d_Zero)
    as (s' & Hrun & Hpos & Hrot);
    [reflexivity | reflexivity | reflexivity | reflexivity
    | exact regrown_ready | vm_compute; discriminate |].
  exists s'. split; [exact Hrun |]. split; [exact Hpos | exact Hrot].
Defined.

Lemma update_applies_dimensions_witness :
  exists s', run update resized = Done s' /\ dirty s' = false /\
    dimensions_applied s'.
Proof.
  apply (update_applies_dimensions resized path3 frames Pose3d_Zero).
  - reflexivity.
  - reflexivity.
  - reflexivity.
  - reflexivity.
  - exact resized_ready.
  - vm_compute. discriminate.
  - intros Hd. change (true = false) in Hd. discriminate Hd.
Defined.

Lemma materials_current_invariant_witness :
  exists s', run update regrown = Done s' /\ materials_current s'.
Proof.
  destruct regrown_update as (s' & Hrun).
  exists s'. split; [exact Hrun |].
  destruct materials_current_invariant as [Hnew Hstep].
  apply (Hstep OpUpdate regrown s'); [| exact Hrun].
  apply (from_ops_preserves materials_current Hstep); [| reflexivity].
  apply (from_ops_preserves materials_current Hstep); [exact Hnew | reflexivity].
Defined.

Lemma one_marker_invariant_witness :
  exists s', run update regrown = Done s' /\ one_marker s'.
Proof.
  destruct regrown_update as (s' & Hrun).
  exists s'. split; [exact Hrun |].
  destruct one_marker_invariant as [Hnew Hstep].
  apply (Hstep OpUpdate regrown s'); [| exact Hrun].
  apply (from_ops_preserves one_marker Hstep); [| reflexivity].
  apply (from_ops_preserves one_marker Hstep); [exact Hnew | reflexivity].
Defined.

Lemma handles_tracked_invariant_witness :
  exists s', run update regrown = Done s' /\ handles_tracked s'.
Proof.
  destruct regrown_update as (s' & Hrun).
  exists s'. split; [exact Hrun |].
  apply (proj2 handles_tracked_invariant OpUpdate regrown s');
    [reflexivity | | exact Hrun].
  split; [reflexivity |]. split; [reflexivity |].
  split; reflexivity.
Defined.



Lemma setTopic_subscribes_and_refreshes_witness :
  exists s', run (setTopic "/plan") regrown = Done s' /\
    topic_name s' = "/plan" /\
    topicList s' = ["/plan"; "/trail"] /\
    msg s' = Some path3.
Proof.
  destruct (setTopic_subscribes_and_refreshes regrown ros "/plan")
    as (s' & position & Hrun & Htopic & _ & Hlist & _ & _ & _ & Hmsg & _).
  - reflexivity.
  - reflexivity.
  - vm_compute. discriminate.
  - exists s'. split; [exact Hrun |]. split; [exact Htopic |].
    split; [exact Hlist | rewrite Hmsg; reflexivity].
Defined.

Lemma lock_statements_transparent_witness :
  run (prog_of OpUpdate) regrown = run (unlocked (prog_of OpUpdate)) regrown.
Proof. apply (lock_statements_transparent OpUpdate regrown). reflexivity. Defined.

Lemma setShape_shows_on_update_witness :
  exists s1 s', run (setShape 1) regrown = Done s1 /\
    run update s1 = Done s' /\
    Forall (fun a => ax_visible a = false /\ ax_head a = false) (take 3 (axes s')) /\
    Forall (fun a => ar_visible a = true) (take 3 (arrows s')).
Proof.
  destruct (setShape_shows_on_update regrown 1 path3 frames Pose3d_Zero)
    as (s1 & s' & Hrun1 & _ & _ & _ & Hrun & Hax & Har);
    [reflexivity | reflexivity | reflexivity | reflexivity
    | exact regrown_ready | vm_compute; discriminate |].
  exists s1, s'. split; [exact Hrun1 |]. split; [exact Hrun |].
  split; [exact Hax | exact Har].
Defined.


Lemma setColor_repaints_arrows_witness :
  exists s', run (setColor white) regrown = Done s' /\
    mat s' = mkMaterial white white white /\
    Forall (fun a => ar_material a = mat s') (arrows s') /\
    color s' = color regrown.
Proof.
  destruct (setColor_repaints_arrows regrown white)
    as (s' & Hrun & Hmat & Hall & _ & _ & _ & Hcol & _).
  - reflexivity.
  - exists s'. split; [exact Hrun |]. split; [exact Hmat |].
    split; [exact Hall | exact Hcol].
Defined.

Lemma update_lookup_failure_repeats_witness :
  exists s', run_all [update; update; update] lost = Done s' /\
    rcl_log s' =
    ["Unable to get frame pose: nowhere"; "Unable to get frame pose: nowhere";
     "Unable to get frame pose: nowhere"] /\
    msg s' = Some path_lost.
Proof.
  destruct (update_lookup_failure_repeats lost path_lost frames 3)
    as (s' & Hrun & Hlog & Hmsg & _).
  - reflexivity.
  - reflexivity.
  - reflexivity.
  - reflexivity.
  - exists ros. reflexivity.
  - exists s'. split; [exact Hrun |]. split; [exact Hlog | exact Hmsg].
Defined.

Lemma update_idempotent_witness :
  exists s' s'', run update regrown = Done s' /\ run update s' = Done s'' /\
    scene_state s'' = scene_state s' /\ scene_created s'' = scene_created s'.
Proof.
  destruct (update_idempotent regrown path3 frames Pose3d_Zero)
    as (s' & s'' & Hrun & Hrun' & Hscene & Hcr & _);
    [reflexivity | reflexivity | reflexivity | reflexivity
    | exact regrown_ready | vm_compute; discriminate |].
  exists s', s''. split; [exact Hrun |]. split; [exact Hrun' |].
  split; [exact Hscene | exact Hcr].
Defined.

Lemma node_required_witness :
  run subscribe PathDisplay_new = Undefined /\
  run (setTopic "/trail") PathDisplay_new = Undefined /\
  run (updateQoS 10 1 2 2) PathDisplay_new = Undefined.
Proof.
  destruct (node_required PathDisplay_new) as (Hsub & _ & Hset & _ & Hqos & _).
  - reflexivity.
  - reflexivity.
  - split; [exact Hsub |]. split; [apply Hset | apply Hqos].
Defined.

Lemma frame_manager_required_witness : run update eager = Undefined.
Proof. apply (frame_manager_required eager path2); reflexivity. Defined.



Lemma setOffset_shows_on_update_witness :
  exists s1 s', run (setOffset 1%Q 2%Q 0%Q) regrown = Done s1 /\
    run update s1 = Done s' /\
    rv_position (rootVisual s') = q_vadd Vector3d_Zero (mkVector3 1%Q 2%Q 0%Q).
Proof.
  destruct (setOffset_shows_on_update regrown 1%Q 2%Q 0%Q path3 frames Pose3d_Zero)
    as (s1 & s' & Hrun1 & _ & _ & _ & _ & Hrun & Hpos);
    [reflexivity | reflexivity | reflexivity | reflexivity
    | exact regrown_ready | vm_compute; discriminate |].
  exists s1, s'. split; [exact Hrun1 |]. split; [exact Hrun | exact Hpos].
Defined.

Lemma setAxisHeadVisibility_shows_on_update_witness :
  exists s1 s', run (setAxisHeadVisibility true) regrown = Done s1 /\
    run update s1 = Done s' /\
    Forall (fun a => ax_head a = true) (take 3 (axes s')).
Proof.
  destruct (setAxisHeadVisibility_shows_on_update regrown true path3 frames
              Pose3d_Zero)
    as (s1 & s' & Hrun1 & _ & _ & Hrun & Hhead);
    [reflexivity | reflexivity | reflexivity | reflexivity
    | exact regrown_ready | vm_compute; discriminate |].
  exists s1, s'. split; [exact Hrun1 |]. split; [exact Hrun | exact Hhead].
Defined.

Lemma visuals_never_destroyed_witness :
  exists s', run update regrown = Done s' /\ grown regrown s'.
Proof.
  destruct regrown_update as (s' & Hrun).
  exists s'. split; [exact Hrun |].
  apply (visuals_never_destroyed OpUpdate regrown s'). exact Hrun.
Defined.
